(** * Learning progress and assessment engine of the Portuguese trainer

    A shallow embedding of the progress aggregator, the streak calculator,
    the review scheduler, the quiz generator and the quiz session of the
    application (services/database.ts, the Pinia stores and views/Quiz.vue),
    together with the properties its specification states about them. *)

From Stdlib Require Import ZArith Lia Reals Lra.
From Stdlib Require Import Floats.SpecFloat.
From stdpp Require Import base option list sorting strings gmap.

Local Open Scope Z_scope.

(** ** JavaScript numbers

    Counts and scores stay integral and are kept as [nat] or [Z].  The one
    fractional computation of the engine, the progress percentage, is done
    on IEEE 754 binary64 values, as the JavaScript runtime does it. *)

Module JsNumber.

Definition prec : Z := 53.
Definition emax : Z := 1024.

Definition number : Type := spec_float.

(** The double nearest to an integer (exact below 2^53). *)
Definition of_Z (z : Z) : number := binary_normalize prec emax z 0 false.

Definition div (x y : number) : number := SFdiv prec emax x y.
Definition mul (x y : number) : number := SFmul prec emax x y.
Definition eqb (x y : number) : bool := SFeqb x y.

(** [Math.round]: the integer nearest to [x], ties towards +infinity;
    NaN and the infinities are returned as they are, and a result of
    zero keeps the sign of [x]. *)
Definition Math_round (x : number) : number :=
  match x with
  | S754_finite s m e =>
      if 0 <=? e then x
      else
        let n := if s then Z.neg m else Z.pos m in
        let r := (2 * n + 2 ^ (- e)) / 2 ^ (1 - e) in
        if r =? 0 then S754_zero s else of_Z r
  | _ => x
  end.

End JsNumber.

Import JsNumber.

(** ** Data model (services/database.ts) *)

(** A [Date] is its time value: milliseconds since the epoch, read in
    local time. *)
Definition Date : Type := Z.

Record Vocabulary : Type := mkVocabulary {
  voc_id : nat;
  portuguese : string;
  french : string;
  audioUrl : option string;
  examples : option (list string);
  learned : bool;
  lastReviewed : option Date;
  reviewCount : nat;
  voc_moduleId : nat;
  difficulty : option nat
}.

Record Module_ : Type := mkModule {
  title : string;
  description : string;
  level : string;
  theme : string;
  order : Z;
  completed : bool;
  progress : number;
  wordCount : nat
}.

Record UserProgress : Type := mkUserProgress {
  up_id : nat;
  totalLearned : nat;
  totalReviewed : nat;
  lastStudyDate : option Date;
  totalStudyTime : nat;
  streakDays : Z;
  currentModule : option nat
}.

Inductive QuizType : Type := MultipleChoice | FillInBlank | Audio.

Global Instance QuizType_eq_dec : EqDecision QuizType.
Proof. solve_decision. Defined.

Record Quiz : Type := mkQuiz {
  quiz_id : nat;
  quiz_moduleId : nat;
  quiz_type : QuizType;
  question : string;
  options : option (list string);
  answer : string;
  quiz_completed : bool
}.

(** The Dexie database: [vocabulary], [userProgress] and [quizzes] are
    kept in primary-key order, as [toArray] returns them; [modules] is
    keyed by its primary key; [quizNextId] is the key generator of the
    [quizzes] table. *)
Record DB : Type := mkDB {
  vocabulary : list Vocabulary;
  modules : gmap nat Module_;
  userProgress : list UserProgress;
  quizzes : list Quiz;
  quizNextId : nat
}.

Definition set_modules (ms : gmap nat Module_) (db : DB) : DB :=
  mkDB (vocabulary db) ms (userProgress db) (quizzes db) (quizNextId db).

Definition set_userProgress (ups : list UserProgress) (db : DB) : DB :=
  mkDB (vocabulary db) (modules db) ups (quizzes db) (quizNextId db).

Definition set_quizzes (qs : list Quiz) (next : nat) (db : DB) : DB :=
  mkDB (vocabulary db) (modules db) (userProgress db) qs next.

(** ** Progress aggregator (updateModuleProgress) *)

(** *** Queries by criteria

    The vocabulary table is declared
    ['++id, portuguese, french, moduleId, learned']: single indexes and no
    compound one.  For [where({ k1: v1, k2: v2 })] Dexie then reads the rows
    through the index of the first indexed key, [where(k1).equals(v1)], and
    filters them by the other keys with [equals(v2, row[k2])], which is
    [try { return indexedDB.cmp(a, b) === 0 } catch (e) { return false }].
    [indexedDB.cmp] raises [DataError] unless both values are valid keys
    (numbers, strings, dates, binary data, arrays of keys): a boolean is
    none. *)
Inductive CriterionValue : Type :=
  | NumberValue (n : Z)
  | BooleanValue (b : bool).

(** [indexedDB.cmp(a, b)]; [None] stands for the [DataError]. *)
Definition IDB_cmp (a b : CriterionValue) : option comparison :=
  match a, b with
  | NumberValue x, NumberValue y => Some (x ?= y)
  | _, _ => None
  end.

(** [equals(a, b)] of [Table.where]. *)
Definition Dexie_equals (a b : CriterionValue) : bool :=
  match IDB_cmp a b with
  | Some Eq => true
  | _ => false
  end.

(** [db.vocabulary.where({ moduleId })], which is
    [where('moduleId').equals(moduleId)]: the rows the index holds under
    the key. *)
Definition inModule (moduleId : nat) (v : Vocabulary) : Prop :=
  voc_moduleId v = moduleId.

Global Instance inModule_dec moduleId v : Decision (inModule moduleId v).
Proof. unfold inModule. apply _. Defined.

(** The filter that [where({ moduleId, learned: true })] puts on the rows
    of the [moduleId] index: [equals(true, row.learned)]. *)
Definition learnedCriterion (v : Vocabulary) : Prop :=
  Dexie_equals (BooleanValue true) (BooleanValue (learned v)) = true.

Global Instance learnedCriterion_dec v : Decision (learnedCriterion v).
Proof. unfold learnedCriterion. apply _. Defined.

(** [db.vocabulary.where({ moduleId, learned: true })] *)
Definition whereModuleLearned (moduleId : nat) (rows : list Vocabulary)
    : list Vocabulary :=
  filter learnedCriterion (filter (inModule moduleId) rows).

Definition count {A} (P : A -> Prop) `{forall x, Decision (P x)} (l : list A) : nat :=
  length (filter P l).

(** [await db.vocabulary.where({ moduleId }).count()] *)
Definition totalWords (moduleId : nat) (db : DB) : nat :=
  count (inModule moduleId) (vocabulary db).

(** [await db.vocabulary.where({ moduleId, learned: true }).count()] *)
Definition learnedWords (moduleId : nat) (db : DB) : nat :=
  length (whereModuleLearned moduleId (vocabulary db)).

(** The rows of a module whose [learned] field is true, and their number:
    what the learned count is meant to be.  These are read off the rows,
    not through a query. *)
Definition learnedInModule (moduleId : nat) (v : Vocabulary) : Prop :=
  voc_moduleId v = moduleId /\ learned v = true.

Global Instance learnedInModule_dec moduleId v :
  Decision (learnedInModule moduleId v).
Proof. unfold learnedInModule. apply _. Defined.

Definition learnedRows (moduleId : nat) (db : DB) : nat :=
  count (learnedInModule moduleId) (vocabulary db).

(** [totalWords > 0 ? Math.round((learnedWords / totalWords) * 100) : 0] *)
Definition percentage (learnedWords totalWords : nat) : number :=
  if (0 <? totalWords)%nat
  then Math_round (mul (div (of_Z (Z.of_nat learnedWords))
                            (of_Z (Z.of_nat totalWords)))
                       (of_Z 100))
  else of_Z 0.

Definition setProgress (p : number) (c : bool) (m : Module_) : Module_ :=
  mkModule (title m) (description m) (level m) (theme m) (order m) c p
    (wordCount m).

(** [db.modules.update(moduleId, { progress, completed })]; updating a key
    that is absent changes nothing. *)
Definition updateModuleProgress (moduleId : nat) (db : DB) : DB :=
  let p := percentage (learnedWords moduleId db) (totalWords moduleId db) in
  let c := eqb p (of_Z 100) in
  set_modules (alter (setProgress p c) moduleId (modules db)) db.


(** The reading of the specification: the exact quotient [100*l/t] rounded
    to the nearest integer, ties upwards (what [Math.round] does on an
    exact argument). *)
Definition round_half_up (n d : Z) : Z := (2 * n + d) / (2 * d).

Definition specPercentage (learnedWords totalWords : nat) : Z :=
  if (0 <? totalWords)%nat
  then round_half_up (100 * Z.of_nat learnedWords) (Z.of_nat totalWords)
  else 0.

(** ** Streak calculator (incrementStreakDays)

    The calendar functions of [Date] follow the ECMAScript definitions
    (Day, DayFromYear, YearFromTime, MonthFromTime, DateFromTime, MakeDay,
    MakeDate), on local time values. *)

Module Calendar.

Definition msPerDay : Z := 86400000.

Definition Day (t : Date) : Z := t / msPerDay.
Definition TimeWithinDay (t : Date) : Z := t mod msPerDay.

Definition isLeap (y : Z) : bool :=
  ((y mod 4 =? 0) && negb (y mod 100 =? 0)) || (y mod 400 =? 0).

Definition DaysInYear (y : Z) : Z := if isLeap y then 366 else 365.

Definition DayFromYear (y : Z) : Z :=
  365 * (y - 1970) + (y - 1969) / 4 - (y - 1901) / 100 + (y - 1601) / 400.

(** The largest [y] with [DayFromYear y <= d]: an estimate from the mean
    length of a year, corrected by at most one. *)
Definition YearFromDay (d : Z) : Z :=
  let y := 1970 + (400 * d) / 146097 in
  if d <? DayFromYear y then y - 1
  else if DayFromYear (y + 1) <=? d then y + 1
  else y.

Definition DayWithinYear (d : Z) : Z := d - DayFromYear (YearFromDay d).

(** Number of days before the first day of month [m] (0 = January). *)
Definition monthStart (leap : bool) (m : Z) : Z :=
  let l := if leap then 1 else 0 in
  if m <=? 0 then 0
  else if m =? 1 then 31
  else if m =? 2 then 59 + l
  else if m =? 3 then 90 + l
  else if m =? 4 then 120 + l
  else if m =? 5 then 151 + l
  else if m =? 6 then 181 + l
  else if m =? 7 then 212 + l
  else if m =? 8 then 243 + l
  else if m =? 9 then 273 + l
  else if m =? 10 then 304 + l
  else 334 + l.

Definition MonthFromDay (d : Z) : Z :=
  let leap := isLeap (YearFromDay d) in
  let n := DayWithinYear d in
  if n <? monthStart leap 1 then 0
  else if n <? monthStart leap 2 then 1
  else if n <? monthStart leap 3 then 2
  else if n <? monthStart leap 4 then 3
  else if n <? monthStart leap 5 then 4
  else if n <? monthStart leap 6 then 5
  else if n <? monthStart leap 7 then 6
  else if n <? monthStart leap 8 then 7
  else if n <? monthStart leap 9 then 8
  else if n <? monthStart leap 10 then 9
  else if n <? monthStart leap 11 then 10
  else 11.

Definition DateFromDay (d : Z) : Z :=
  DayWithinYear d - monthStart (isLeap (YearFromDay d)) (MonthFromDay d) + 1.

Definition getFullYear (t : Date) : Z := YearFromDay (Day t).
Definition getMonth (t : Date) : Z := MonthFromDay (Day t).
Definition getDate (t : Date) : Z := DateFromDay (Day t).

(** [MakeDay(year, month, date)] for a month in 0..11. *)
Definition MakeDay (year month date : Z) : Z :=
  DayFromYear year + monthStart (isLeap year) month + date - 1.

Definition MakeDate (day time : Z) : Date := day * msPerDay + time.

(** [d.setDate(date)] *)
Definition setDate (t : Date) (date : Z) : Date :=
  MakeDate (MakeDay (getFullYear t) (getMonth t) date) (TimeWithinDay t).

(** A local date and time as a time value (month 0 = January). *)
Definition mkDate (year month date h mi s : Z) : Date :=
  MakeDate (MakeDay year month date) (((h * 60 + mi) * 60 + s) * 1000).

End Calendar.

Import Calendar.


(** [db.userProgress.update(key, changes)] *)
Definition updateUserProgressRow (key : nat) (f : UserProgress -> UserProgress)
    (rows : list UserProgress) : list UserProgress :=
  map (fun r => if Nat.eqb (up_id r) key then f r else r) rows.

Definition setStreak (streak : Z) (last : Date) (p : UserProgress) : UserProgress :=
  mkUserProgress (up_id p) (totalLearned p) (totalReviewed p) (Some last)
    (totalStudyTime p) streak (currentModule p).

Definition setLastStudyDate (last : Date) (p : UserProgress) : UserProgress :=
  setStreak (streakDays p) last p.

Definition sameCalendarDay (a b : Date) : bool :=
  (getDate a =? getDate b) && (getMonth a =? getMonth b)
  && (getFullYear a =? getFullYear b).

(** [incrementStreakDays]: [today] is the first reading of the clock
    ([const today = new Date()]), [now] the second one, from which
    [yesterday] is built. *)
Definition incrementStreakDays (today now : Date) (db : DB) : DB :=
  match userProgress db with
  | [] => db
  | progress :: _ =>
      let bump :=
        match lastStudyDate progress with
        | Some lastStudy =>
            let yesterday := setDate now (getDate now - 1) in
            sameCalendarDay lastStudy yesterday
        | None => false
        end in
      if bump
      then set_userProgress
             (updateUserProgressRow (up_id progress)
                (setStreak (streakDays progress + 1) today) (userProgress db)) db
      else set_userProgress
             (updateUserProgressRow (up_id progress)
                (setLastStudyDate today) (userProgress db)) db
  end.

(** ** Review scheduler (getNextWordsToReview) *)

(** [Array.prototype.sort(comparefn)] as a stable insertion sort: an
    element moves in front of its neighbour when [comparefn] puts it at or
    before that neighbour. *)
Section ArraySort.
Context {A : Type} (comparefn : A -> A -> Z).

Fixpoint sortInsert (x : A) (l : list A) : list A :=
  match l with
  | [] => [x]
  | y :: l' => if comparefn x y <=? 0 then x :: l else y :: sortInsert x l'
  end.

Fixpoint Array_sort (l : list A) : list A :=
  match l with
  | [] => []
  | x :: l' => sortInsert x (Array_sort l')
  end.

(** [before a b]: the comparator lets [a] stand in front of [b]. *)
Definition before (a b : A) : Prop := comparefn a b <= 0.

End ArraySort.

(** The comparator of the getter:
    [if (!a.lastReviewed) return -1; if (!b.lastReviewed) return 1;
     return a.lastReviewed.getTime() - b.lastReviewed.getTime()] *)
Definition reviewCompare (a b : Vocabulary) : Z :=
  match lastReviewed a with
  | None => -1
  | Some ta =>
      match lastReviewed b with
      | None => 1
      | Some tb => ta - tb
      end
  end.

(** [item => item.learned] *)
Definition isLearned (item : Vocabulary) : Prop := learned item = true.

Global Instance isLearned_dec item : Decision (isLearned item).
Proof. unfold isLearned. apply _. Defined.

Definition getNextWordsToReview (vocabularyItems : list Vocabulary) : list Vocabulary :=
  take 10 (Array_sort reviewCompare (filter isLearned vocabularyItems)).

(** Dashboard.vue: [vocabularyStore.getNextWordsToReview.slice(0, 5)] *)
Definition wordsToReview (vocabularyItems : list Vocabulary) : list Vocabulary :=
  take 5 (getNextWordsToReview vocabularyItems).

(** ** Stores (Pinia) and the application state

    The [loading] flags, raised and lowered within one action, are left
    out. *)

Record VocabularyStore : Type := mkVocabularyStore {
  vocabularyItems : list Vocabulary;
  currentModuleVocabulary : list Vocabulary;
  vs_error : option string
}.

Record QuizStore : Type := mkQuizStore {
  qs_quizzes : list Quiz;
  currentQuiz : option Quiz;
  currentQuizIndex : nat;
  quizResults : list (nat * bool);
  qs_error : option string
}.

(** The module store keeps the rows of [db.modules] with their keys. *)
Record ModuleStore : Type := mkModuleStore {
  ms_modules : list (nat * Module_);
  ms_error : option string
}.

Record App : Type := mkApp {
  db : DB;
  vocabularyStore : VocabularyStore;
  quizStore : QuizStore;
  moduleStore : ModuleStore
}.

Definition set_db (d : DB) (a : App) : App :=
  mkApp d (vocabularyStore a) (quizStore a) (moduleStore a).
Definition set_vocabularyStore (s : VocabularyStore) (a : App) : App :=
  mkApp (db a) s (quizStore a) (moduleStore a).
Definition set_quizStore (s : QuizStore) (a : App) : App :=
  mkApp (db a) (vocabularyStore a) s (moduleStore a).
Definition set_moduleStore (s : ModuleStore) (a : App) : App :=
  mkApp (db a) (vocabularyStore a) (quizStore a) s.

(** ** Quiz generator (generateQuizForModule) *)

(** A question before [bulkAdd] gives it a key ([Omit<Quiz, 'id'>]). *)
Record NewQuiz : Type := mkNewQuiz {
  nq_moduleId : nat;
  nq_type : QuizType;
  nq_question : string;
  nq_options : option (list string);
  nq_answer : string;
  nq_completed : bool
}.

Definition withId (id : nat) (q : NewQuiz) : Quiz :=
  mkQuiz id (nq_moduleId q) (nq_type q) (nq_question q) (nq_options q)
    (nq_answer q) (nq_completed q).

Definition ofModule (moduleId : nat) (q : Quiz) : Prop :=
  quiz_moduleId q = moduleId.

Global Instance ofModule_dec moduleId q : Decision (ofModule moduleId q).
Proof. unfold ofModule. apply _. Defined.

(** [db.quizzes.where('moduleId').equals(moduleId).delete()] *)
Definition deleteQuizzes (moduleId : nat) (d : DB) : DB :=
  set_quizzes (filter (fun q => ~ ofModule moduleId q) (quizzes d))
    (quizNextId d) d.

(** [db.quizzes.bulkAdd(newQuizzes)]: keys come from the generator; the
    call resolves to the last key. *)
Definition bulkAdd (news : list NewQuiz) (d : DB) : DB * nat :=
  let ids := seq (quizNextId d) (length news) in
  (set_quizzes (quizzes d ++ zip_with withId ids news)
     (quizNextId d + length news)%nat d,
   default 0%nat (last ids)).

(** [vocabularyStore.fetchVocabularyByModule(moduleId)] *)
Definition fetchVocabularyByModule (moduleId : nat) (a : App) : App :=
  set_vocabularyStore
    (mkVocabularyStore (vocabularyItems (vocabularyStore a))
       (filter (inModule moduleId) (vocabulary (db a))) None) a.

(** [resetQuiz] after [this.quizzes] has been reloaded. *)
Definition fetchQuizzesByModule (moduleId : nat) (a : App) : App :=
  let qs := filter (ofModule moduleId) (quizzes (db a)) in
  set_quizStore (mkQuizStore qs (head qs) 0 [] None) a.

Definition notEnoughVocabulary : string :=
  "Not enough vocabulary items to generate a quiz".

Definition quote : string := String (Ascii.ascii_of_nat 34) EmptyString.

Inductive GenerateResult : Type :=
  | Generated (lastKey : nat)
  | ReturnedFalse
  | ThrewTypeError.

(** [for (let i = 0; i < n; i++) newQuizzes.push(body i)]; reading a
    property of [undefined] in the body throws and abandons the list. *)
Definition forPush {A} (n : nat) (body : nat -> option A) : option (list A) :=
  mapM body (seq 0 n).

Section QuizGenerator.

(** [shuffle A k l] is the outcome of the [k]-th call of
    [.sort(() => 0.5 - Math.random())] of one generation, on [l]. *)
Context (shuffle : forall A : Type, nat -> list A -> list A).

Definition otherItems (correctItem : Vocabulary) (vocabulary : list Vocabulary)
    : list Vocabulary :=
  filter (fun item => voc_id item <> voc_id correctItem) vocabulary.

Definition distractors (i : nat) (correctItem : Vocabulary)
    (vocabulary : list Vocabulary) : list Vocabulary :=
  take 3 (shuffle _ (2 * i) (otherItems correctItem vocabulary)).

Definition multipleChoice (moduleId : nat) (vocabulary : list Vocabulary)
    (i : nat) : option NewQuiz :=
  correctItem ← vocabulary !! i;
  let incorrectOptions := french <$> distractors i correctItem vocabulary in
  let options :=
    shuffle _ (2 * i + 1) (incorrectOptions ++ [french correctItem]) in
  Some (mkNewQuiz moduleId MultipleChoice
          ("Traduisez: " +:+ portuguese correctItem)
          (Some options) (french correctItem) false).

(** [vocabulary[i + off > vocabulary.length ? i : i + off]] *)
Definition windowIndex (off : nat) (vocabulary : list Vocabulary) (i : nat) : nat :=
  if (length vocabulary <? i + off)%nat then i else (i + off)%nat.

Definition fillInBlank (moduleId : nat) (vocabulary : list Vocabulary)
    (i : nat) : option NewQuiz :=
  item ← vocabulary !! windowIndex 5 vocabulary i;
  Some (mkNewQuiz moduleId FillInBlank
          ("Complétez: ___ (" +:+ french item +:+ ")")
          None (portuguese item) false).

Definition audio (moduleId : nat) (vocabulary : list Vocabulary)
    (i : nat) : option NewQuiz :=
  item ← vocabulary !! windowIndex 8 vocabulary i;
  Some (mkNewQuiz moduleId Audio
          ("Écoutez et écrivez: (audio: " +:+ quote +:+ portuguese item
             +:+ quote +:+ ")")
          None (portuguese item) false).

Definition newQuizzes (moduleId : nat) (vocabulary : list Vocabulary)
    : option (list NewQuiz) :=
  mc ← forPush (length vocabulary `min` 5) (multipleChoice moduleId vocabulary);
  fib ← forPush (length vocabulary `min` 3) (fillInBlank moduleId vocabulary);
  au ← forPush (length vocabulary `min` 2) (audio moduleId vocabulary);
  Some (mc ++ fib ++ au).

Definition generateQuizForModule (moduleId : nat) (a : App) : App * GenerateResult :=
  let a1 := set_db (deleteQuizzes moduleId (db a)) a in
  let a2 := fetchVocabularyByModule moduleId a1 in
  let vocabulary := currentModuleVocabulary (vocabularyStore a2) in
  if (length vocabulary <? 4)%nat then
    let qs := quizStore a2 in
    (set_quizStore
       (mkQuizStore (qs_quizzes qs) (currentQuiz qs) (currentQuizIndex qs)
          (quizResults qs) (Some notEnoughVocabulary)) a2,
     ReturnedFalse)
  else
    match newQuizzes moduleId vocabulary with
    | None => (a2, ThrewTypeError)
    | Some news =>
        let '(d, lastKey) := bulkAdd news (db a2) in
        (fetchQuizzesByModule moduleId (set_db d a2), Generated lastKey)
    end.

End QuizGenerator.

(** ** Quiz completion (quizStore.completeQuiz, moduleStore.updateModule) *)

(** [state.modules.find(m => m.id === id) || null] *)
Definition getModuleById (ms : ModuleStore) (id : nat) : option (nat * Module_) :=
  List.find (fun m => Nat.eqb (fst m) id) (ms_modules ms).

(** [const index = this.modules.findIndex(m => m.id === id);
     if (index !== -1) this.modules[index] = { ...this.modules[index], ...data }] *)
Fixpoint updateFirst (id : nat) (f : Module_ -> Module_) (l : list (nat * Module_))
    : list (nat * Module_) :=
  match l with
  | [] => []
  | m :: l' => if Nat.eqb (fst m) id then (fst m, f (snd m)) :: l'
               else m :: updateFirst id f l'
  end.

(** [moduleStore.updateModule(id, data)] *)
Definition updateModule (id : nat) (data : Module_ -> Module_) (a : App) : App :=
  let a1 := set_db (set_modules (alter data id (modules (db a))) (db a)) a in
  set_moduleStore
    (mkModuleStore (updateFirst id data (ms_modules (moduleStore a1)))
       (ms_error (moduleStore a1))) a1.

(** [{ completed: true, progress: 100 }] *)
Definition markCompleted (m : Module_) : Module_ := setProgress (of_Z 100) true m.

(** [quizStore.completeQuiz(moduleId, score)] *)
Definition completeQuiz (moduleId : nat) (score : Z) (a : App) : App :=
  match getModuleById (moduleStore a) moduleId with
  | Some _ => if 70 <=? score then updateModule moduleId markCompleted a else a
  | None => a
  end.

(** ** Quiz session (views/Quiz.vue) *)

Record Question : Type := mkQuestion {
  q_question : string;
  q_answers : list string;
  correctAnswer : string
}.

Record Results : Type := mkResults {
  score : Z;
  total : nat;
  correctAnswers : Z;
  incorrectAnswers : Z;
  r_completed : bool
}.

(** The quiz object the view works on ([quiz.value]). *)
Record ViewQuiz : Type := mkViewQuiz {
  vq_id : nat;
  questions : option (list Question)
}.

Record Session : Type := mkSession {
  quiz : option ViewQuiz;
  currentQuestionIndex : nat;
  selectedAnswer : option string;
  isAnswerCorrect : bool;
  hasAnswered : bool;
  results : Results
}.

(** [currentQuestion]: [null] without a quiz or its questions, [undefined]
    past the end. *)
Definition currentQuestion (s : Session) : option Question :=
  q ← quiz s; qs ← questions q; qs !! currentQuestionIndex s.

Inductive Outcome : Type := Returned | Threw.

(** [selectAnswer(answer)].  The closing call
    [quizStore.updateQuizProgress(...)] names an action the quiz store does
    not have, so the handler ends by throwing once the state is updated. *)
Definition selectAnswer (answer : string) (s : Session) : Session * Outcome :=
  if hasAnswered s then (s, Returned)
  else
    let r := results s in
    match currentQuestion s with
    | None =>
        (mkSession (quiz s) (currentQuestionIndex s) (Some answer)
           (isAnswerCorrect s) true r, Threw)
    | Some q =>
        if String.eqb (correctAnswer q) answer
        then
          (mkSession (quiz s) (currentQuestionIndex s) (Some answer) true true
             (mkResults (score r + 10) (total r) (correctAnswers r + 1)
                (incorrectAnswers r) (r_completed r)), Threw)
        else
          (mkSession (quiz s) (currentQuestionIndex s) (Some answer) false true
             (mkResults (score r) (total r) (correctAnswers r)
                (incorrectAnswers r + 1) (r_completed r)), Threw)
    end.

(** [resetQuestion] *)
Definition resetQuestion (s : Session) : Session :=
  mkSession (quiz s) (currentQuestionIndex s) None false false (results s).

Definition keyLe (a b : nat * Module_) : Prop := (a.1 <= b.1)%nat.

Global Instance keyLe_dec a b : Decision (keyLe a b).
Proof. unfold keyLe. apply _. Defined.

(** [db.modules.toArray()]: the rows in the order of their keys. *)
Definition toArray (rows : gmap nat Module_) : list (nat * Module_) :=
  merge_sort keyLe (map_to_list rows).

(** [moduleStore.fetchModules()] *)
Definition fetchModules (a : App) : App :=
  set_moduleStore (mkModuleStore (toArray (modules (db a))) None) a.

(** [moduleStore.updateProgress(moduleId)] *)
Definition updateProgress (moduleId : nat) (a : App) : App :=
  fetchModules (set_db (updateModuleProgress moduleId (db a)) a).

(** [completeQuiz] of the view, for the module [moduleId] of the route:
    the quiz store is given the id of the quiz object and the points of the
    session, then the progress of the module is recomputed.  The closing
    call [userStore.updateQuizStats(...)] names an action the user store
    does not have. *)
Definition viewCompleteQuiz (moduleId : nat) (s : Session) (a : App)
    : Session * App * Outcome :=
  let r := results s in
  let s1 := mkSession (quiz s) (currentQuestionIndex s) (selectedAnswer s)
              (isAnswerCorrect s) (hasAnswered s)
              (mkResults (score r) (total r) (correctAnswers r)
                 (incorrectAnswers r) true) in
  match quiz s with
  | None => (s1, a, Threw)
  | Some q =>
      let a1 := completeQuiz (vq_id q) (score r) a in
      (s1, updateProgress moduleId a1, Threw)
  end.

(** ** Answer check of the quiz store (quizStore.submitAnswer) *)

Section SubmitAnswer.

(** [String.prototype.toLowerCase] *)
Context (toLowerCase : string -> string).

Definition setCompleted (q : Quiz) : Quiz :=
  mkQuiz (quiz_id q) (quiz_moduleId q) (quiz_type q) (question q) (options q)
    (answer q) true.

Definition markQuiz (questionId : nat) (l : list Quiz) : list Quiz :=
  map (fun q => if Nat.eqb (quiz_id q) questionId then setCompleted q else q) l.

Fixpoint markFirstQuiz (questionId : nat) (l : list Quiz) : list Quiz :=
  match l with
  | [] => []
  | q :: l' => if Nat.eqb (quiz_id q) questionId then setCompleted q :: l'
               else q :: markFirstQuiz questionId l'
  end.

(** [currentQuiz] is the very object held in [this.quizzes]: it sees the
    update when it is the question answered. *)
Definition markCurrent (questionId : nat) (c : option Quiz) : option Quiz :=
  (fun q => if Nat.eqb (quiz_id q) questionId then setCompleted q else q) <$> c.

Definition submitAnswer (questionId : nat) (ans : string) (a : App) : App * bool :=
  let qs := quizStore a in
  match List.find (fun q => Nat.eqb (quiz_id q) questionId) (qs_quizzes qs) with
  | None => (a, false)
  | Some q =>
      let isCorrect := String.eqb (toLowerCase ans) (toLowerCase (answer q)) in
      let recorded := quizResults qs ++ [(questionId, isCorrect)] in
      if isCorrect then
        let d := db a in
        (set_quizStore
           (mkQuizStore (markFirstQuiz questionId (qs_quizzes qs))
              (markCurrent questionId (currentQuiz qs))
              (currentQuizIndex qs) recorded (qs_error qs))
           (set_db (set_quizzes (markQuiz questionId (quizzes d)) (quizNextId d) d) a),
         true)
      else
        (set_quizStore
           (mkQuizStore (qs_quizzes qs) (currentQuiz qs) (currentQuizIndex qs)
              recorded (qs_error qs)) a,
         false)
  end.

End SubmitAnswer.

(** ** Further operations of the database service (services/database.ts) *)

Definition set_vocabulary (vs : list Vocabulary) (db : DB) : DB :=
  mkDB vs (modules db) (userProgress db) (quizzes db) (quizNextId db).

(** [{ totalLearned: 0, totalReviewed: 0, totalStudyTime: 0, streakDays: 0 }]
    under the key [key] that the table issues for it. *)
Definition defaultUserProgress (key : nat) : UserProgress :=
  mkUserProgress key 0 0 None 0 0 None.

(** [initializeDatabase] *)
Definition initializeDatabase (key : nat) (db : DB) : DB :=
  if (length (userProgress db) =? 0)%nat
  then set_userProgress (userProgress db ++ [defaultUserProgress key]) db
  else db.

(** [{ learned: true, lastReviewed: new Date() }] *)
Definition setLearned (now : Date) (v : Vocabulary) : Vocabulary :=
  mkVocabulary (voc_id v) (portuguese v) (french v) (audioUrl v) (examples v)
    true (Some now) (reviewCount v) (voc_moduleId v) (difficulty v).

(** [db.vocabulary.update(id, changes)] *)
Definition updateVocabularyRow (id : nat) (f : Vocabulary -> Vocabulary)
    (rows : list Vocabulary) : list Vocabulary :=
  map (fun v => if Nat.eqb (voc_id v) id then f v else v) rows.

(** [markWordAsLearned(id)], the clock reading [now]. *)
Definition markWordAsLearned (now : Date) (id : nat) (db : DB) : DB :=
  set_vocabulary (updateVocabularyRow id (setLearned now) (vocabulary db)) db.

(** ** User store (stores/userStore.ts) *)

Record UserStore : Type := mkUserStore {
  us_progress : option UserProgress;
  us_error : option string;
  isDarkMode : bool
}.

(** [fetchUserProgress]: the first row of the table, or [null]. *)
Definition fetchUserProgress (d : DB) (us : UserStore) : UserStore :=
  mkUserStore (head (userProgress d)) None (isDarkMode us).

(** [updateStreak]: [today] and [now] are the two clock readings of
    [incrementStreakDays]. *)
Definition updateStreak (today now : Date) (st : DB * UserStore) : DB * UserStore :=
  let d := incrementStreakDays today now st.1 in
  (d, fetchUserProgress d st.2).

(** [state.progress?.streakDays || 0] *)
Definition getStreak (us : UserStore) : Z :=
  match us_progress us with
  | Some p => streakDays p
  | None => 0
  end.

(** [Math.min(x, y)]: NaN when either is NaN, the negative zero before the
    positive one. *)
Definition Math_min (x y : number) : number :=
  match SFcompare x y with
  | Some Lt => x
  | Some Gt => y
  | Some Eq => match x with S754_zero true => x | _ => y end
  | None => S754_nan
  end.

(** [getProgressPercentage]: the words learned against a target of 1000
    words, capped at 100. *)
Definition getProgressPercentage (us : UserStore) : number :=
  match us_progress us with
  | None => of_Z 0
  | Some p =>
      Math_min
        (Math_round (mul (div (of_Z (Z.of_nat (totalLearned p))) (of_Z 1000))
                         (of_Z 100)))
        (of_Z 100)
  end.

(** What the dark-mode actions touch outside the store: the [darkMode]
    item of [localStorage] and the [dark-mode] class of the document
    body. *)
Record Browser : Type := mkBrowser {
  darkModeItem : option string;
  bodyDarkClass : bool
}.

(** [toggleDarkMode] *)
Definition toggleDarkMode (st : UserStore * Browser) : UserStore * Browser :=
  let dark := negb (isDarkMode st.1) in
  (mkUserStore (us_progress st.1) (us_error st.1) dark,
   mkBrowser (Some (if dark then "true" else "false")) dark).

(** [loadDarkModePreference]: the class is added when the mode is on and
    left as it is otherwise. *)
Definition loadDarkModePreference (st : UserStore * Browser) : UserStore * Browser :=
  let dark := bool_decide (darkModeItem st.2 = Some "true") in
  (mkUserStore (us_progress st.1) (us_error st.1) dark,
   mkBrowser (darkModeItem st.2) (if dark then true else bodyDarkClass st.2)).

(** ** Module store (stores/moduleStore.ts) *)

(** [(a, b) => a.order - b.order] *)
Definition orderCompare (a b : nat * Module_) : Z := order a.2 - order b.2.

(** [[...state.modules].sort((a, b) => a.order - b.order)] *)
Definition getModulesSortedByOrder (ms : ModuleStore) : list (nat * Module_) :=
  Array_sort orderCompare (ms_modules ms).

(** The property names every object inherits from [Object.prototype]:
    read on the empty object [{}] they give a function (or, for
    [__proto__], the prototype itself), a value that is neither falsy nor
    an array. *)
Definition objectPrototypeKeys : list string :=
  ["constructor"; "__defineGetter__"; "__defineSetter__"; "hasOwnProperty";
   "__lookupGetter__"; "__lookupSetter__"; "isPrototypeOf";
   "propertyIsEnumerable"; "toString"; "valueOf"; "__proto__";
   "toLocaleString"].

(** One turn of the grouping loop:
    [if (!modulesByLevel[module.level]) modulesByLevel[module.level] = [];
     modulesByLevel[module.level].push(module)];
    on an inherited name the test finds a value and [push] is not a
    function. *)
Definition pushByLevel (acc : option (gmap string (list (nat * Module_))))
    (module : nat * Module_) : option (gmap string (list (nat * Module_))) :=
  match acc with
  | Some modulesByLevel =>
      if bool_decide (level module.2 ∈ objectPrototypeKeys) then None
      else
        Some (<[level module.2 :=
                  default [] (modulesByLevel !! level module.2) ++ [module]]>
                modulesByLevel)
  | None => None
  end.

(** [getModulesByLevel]; [None] when the getter throws. *)
Definition getModulesByLevel (ms : ModuleStore)
    : option (gmap string (list (nat * Module_))) :=
  match foldl pushByLevel (Some ∅) (ms_modules ms) with
  | Some modulesByLevel => Some (Array_sort orderCompare <$> modulesByLevel)
  | None => None
  end.

(** [state.modules.filter(m => m.completed)] *)
Definition getCompletedModules (ms : ModuleStore) : list (nat * Module_) :=
  filter (fun m => completed m.2 = true) (ms_modules ms).

(** [m => m.progress < 100] *)
Definition unfinished (m : nat * Module_) : bool := SFltb (progress m.2) (of_Z 100).

(** [getNextModuleToStudy]: [state.modules.sort(...)] sorts the list of the
    store itself, which is returned with the module found. *)
Definition getNextModuleToStudy (ms : ModuleStore)
    : ModuleStore * option (nat * Module_) :=
  let sorted := Array_sort orderCompare (ms_modules ms) in
  (mkModuleStore sorted (ms_error ms), List.find unfinished sorted).

(** [addModule(module)], [key] being the key the table issues. *)
Definition addModule (key : nat) (module : Module_) (a : App) : App * option nat :=
  let a1 := set_db (set_modules (<[key := module]> (modules (db a))) (db a)) a in
  (set_moduleStore
     (mkModuleStore (ms_modules (moduleStore a1) ++ [(key, module)])
        (ms_error (moduleStore a1))) a1,
   Some key).

(** ** Vocabulary store (stores/vocabularyStore.ts) *)

(** [fetchAllVocabulary] *)
Definition fetchAllVocabulary (a : App) : App :=
  set_vocabularyStore
    (mkVocabularyStore (vocabulary (db a))
       (currentModuleVocabulary (vocabularyStore a)) None) a.

Definition getLearnedWords (vs : VocabularyStore) : list Vocabulary :=
  filter isLearned (vocabularyItems vs).

Definition getWordsByModule (vs : VocabularyStore) (moduleId : nat) : list Vocabulary :=
  filter (inModule moduleId) (vocabularyItems vs).

Definition getWordById (vs : VocabularyStore) (id : nat) : option Vocabulary :=
  List.find (fun item => Nat.eqb (voc_id item) id) (vocabularyItems vs).

(** [item => item.moduleId === moduleId && !item.learned] *)
Definition toLearn (moduleId : nat) (item : Vocabulary) : Prop :=
  voc_moduleId item = moduleId /\ learned item = false.

Global Instance toLearn_dec moduleId item : Decision (toLearn moduleId item).
Proof. unfold toLearn. apply _. Defined.

Definition getWordsToLearn (vs : VocabularyStore) (moduleId : nat) : list Vocabulary :=
  filter (toLearn moduleId) (vocabularyItems vs).

(** [item => item.difficulty && item.difficulty > 2] *)
Definition difficult (item : Vocabulary) : Prop :=
  match difficulty item with
  | Some n => (2 < n)%nat
  | None => False
  end.

Global Instance difficult_dec item : Decision (difficult item).
Proof. unfold difficult. destruct (difficulty item); apply _. Defined.

(** [(a, b) => (b.difficulty || 0) - (a.difficulty || 0)] *)
Definition difficultyCompare (a b : Vocabulary) : Z :=
  Z.of_nat (default 0%nat (difficulty b)) - Z.of_nat (default 0%nat (difficulty a)).

Definition getDifficultWords (vs : VocabularyStore) : list Vocabulary :=
  Array_sort difficultyCompare (filter difficult (vocabularyItems vs)).

(** An item before the table gives it a key ([Omit<Vocabulary, 'id'>]). *)
Record NewVocabulary : Type := mkNewVocabulary {
  nv_portuguese : string;
  nv_french : string;
  nv_audioUrl : option string;
  nv_examples : option (list string);
  nv_learned : bool;
  nv_lastReviewed : option Date;
  nv_reviewCount : nat;
  nv_moduleId : nat;
  nv_difficulty : option nat
}.

(** [{ ...item, id }] *)
Definition vocWithId (id : nat) (item : NewVocabulary) : Vocabulary :=
  mkVocabulary id (nv_portuguese item) (nv_french item) (nv_audioUrl item)
    (nv_examples item) (nv_learned item) (nv_lastReviewed item)
    (nv_reviewCount item) (nv_moduleId item) (nv_difficulty item).

(** [{ wordCount: n }] *)
Definition setWordCount (n : nat) (m : Module_) : Module_ :=
  mkModule (title m) (description m) (level m) (theme m) (order m)
    (completed m) (progress m) n.

Definition pushItem (v : Vocabulary) (vs : VocabularyStore) : VocabularyStore :=
  mkVocabularyStore (vocabularyItems vs ++ [v]) (currentModuleVocabulary vs)
    (vs_error vs).

(** [addVocabularyItem(item)], [key] being the key the table issues. *)
Definition addVocabularyItem (key : nat) (item : NewVocabulary) (a : App)
    : App * option nat :=
  let v := vocWithId key item in
  let a1 := set_db (set_vocabulary (vocabulary (db a) ++ [v]) (db a)) a in
  let a2 := set_vocabularyStore (pushItem v (vocabularyStore a1)) a1 in
  match getModuleById (moduleStore a2) (nv_moduleId item) with
  | Some module =>
      (updateModule (nv_moduleId item) (setWordCount (wordCount module.2 + 1)) a2,
       Some key)
  | None => (a2, Some key)
  end.

(** [this.vocabularyItems[index].learned = true; ...lastReviewed = new Date()]
    for the first item with the key. *)
Fixpoint updateFirstItem (id : nat) (f : Vocabulary -> Vocabulary)
    (l : list Vocabulary) : list Vocabulary :=
  match l with
  | [] => []
  | v :: l' => if Nat.eqb (voc_id v) id then f v :: l'
               else v :: updateFirstItem id f l'
  end.

(** [markAsLearned(id)] of the store; [now1] is the clock reading of
    [markWordAsLearned], [now2] the one of the store.  Without the word in
    the loaded list, [this.vocabularyItems[-1].moduleId] throws, which the
    action catches to answer [false]. *)
Definition markAsLearned (now1 now2 : Date) (id : nat) (st : App * UserStore)
    : App * UserStore * bool :=
  let a1 := set_db (markWordAsLearned now1 id (db st.1)) st.1 in
  let vs := vocabularyStore a1 in
  match getWordById vs id with
  | None => (a1, st.2, false)
  | Some item =>
      let a2 :=
        set_vocabularyStore
          (mkVocabularyStore
             (updateFirstItem id (setLearned now2) (vocabularyItems vs))
             (currentModuleVocabulary vs) (vs_error vs)) a1 in
      let a3 := updateProgress (voc_moduleId item) a2 in
      (a3, fetchUserProgress (db a3) st.2, true)
  end.

(** [{ ...item, learned: false, reviewCount: 0 }] *)
Definition asNew (item : NewVocabulary) : NewVocabulary :=
  mkNewVocabulary (nv_portuguese item) (nv_french item) (nv_audioUrl item)
    (nv_examples item) false (nv_lastReviewed item) 0 (nv_moduleId item)
    (nv_difficulty item).

(** [[...new Set(l)]]: the distinct elements, in the order of their first
    occurrence. *)
Definition distinct (l : list nat) : list nat :=
  foldl (fun seen x => if bool_decide (x ∈ seen) then seen else seen ++ [x]) [] l.

(** One turn of the word-count loop of [bulkImport]. *)
Definition addWordCount (items : list NewVocabulary) (a : App) (moduleId : nat) : App :=
  let moduleItems := filter (fun item => nv_moduleId item = moduleId) items in
  match getModuleById (moduleStore a) moduleId with
  | Some module =>
      updateModule moduleId
        (setWordCount (wordCount module.2 + length moduleItems)) a
  | None => a
  end.

(** [bulkImport(items)]: the rows get the keys [key], [key + 1], ...; the
    call resolves to the last one. *)
Definition bulkImport (key : nat) (items : list NewVocabulary) (a : App)
    : App * option nat :=
  let ids := seq key (length items) in
  let rows := zip_with vocWithId ids (asNew <$> items) in
  let a1 := set_db (set_vocabulary (vocabulary (db a) ++ rows) (db a)) a in
  let moduleIds := distinct (nv_moduleId <$> items) in
  let a2 := foldl (addWordCount items) a1 moduleIds in
  (fetchAllVocabulary a2, last ids).

(** ** Dashboard (views/Dashboard.vue) *)

(** [module => module.progress > 0 && module.progress < 100] *)
Definition inProgress (m : nat * Module_) : bool :=
  SFltb (of_Z 0) (progress m.2) && SFltb (progress m.2) (of_Z 100).

(** [moduleStore.getModulesSortedByOrder.filter(...).slice(0, 3)] *)
Definition recentModules (ms : ModuleStore) : list (nat * Module_) :=
  take 3 (filter (fun m => inProgress m = true) (getModulesSortedByOrder ms)).

(** ** Quiz store, continued (stores/quizStore.ts) *)

Definition getQuizzesByModule (qs : QuizStore) (moduleId : nat) : list Quiz :=
  filter (ofModule moduleId) (qs_quizzes qs).

(** [getCurrentScore] *)
Definition getCurrentScore (qs : QuizStore) : number :=
  if (length (quizResults qs) =? 0)%nat then of_Z 0
  else
    let correct := length (filter (fun result => result.2 = true) (quizResults qs)) in
    Math_round (mul (div (of_Z (Z.of_nat correct))
                         (of_Z (Z.of_nat (length (quizResults qs)))))
                    (of_Z 100)).

Definition isQuizComplete (qs : QuizStore) : bool :=
  (length (qs_quizzes qs) <=? length (quizResults qs))%nat.

Definition getNextQuestion (qs : QuizStore) : option Quiz :=
  if (length (qs_quizzes qs) <=? currentQuizIndex qs)%nat then None
  else qs_quizzes qs !! currentQuizIndex qs.

(** [resetQuiz] *)
Definition resetQuiz (qs : QuizStore) : QuizStore :=
  mkQuizStore (qs_quizzes qs)
    (if (0 <? length (qs_quizzes qs))%nat then qs_quizzes qs !! 0%nat else None)
    0 [] (qs_error qs).

(** [nextQuestion] of the store; the test is
    [this.currentQuizIndex < this.quizzes.length - 1]. *)
Definition nextQuestion (qs : QuizStore) : QuizStore * bool :=
  if Z.of_nat (currentQuizIndex qs) <? Z.of_nat (length (qs_quizzes qs)) - 1 then
    (mkQuizStore (qs_quizzes qs) (qs_quizzes qs !! S (currentQuizIndex qs))
       (S (currentQuizIndex qs)) (quizResults qs) (qs_error qs),
     true)
  else (qs, false).

(** ** Quiz session, continued (views/Quiz.vue) *)

Module QuizView.

Definition isLastQuestion (s : Session) : bool :=
  match quiz s with
  | Some q =>
      match questions q with
      | Some qs => Z.of_nat (currentQuestionIndex s) =? Z.of_nat (length qs) - 1
      | None => true
      end
  | None => true
  end.

(** [nextQuestion]: on the last question the completion handler is
    started (its rejection is not awaited); otherwise the index moves on
    and the question state is reset. *)
Definition nextQuestion (moduleId : nat) (st : Session * App) : Session * App :=
  if isLastQuestion st.1 then (viewCompleteQuiz moduleId st.1 st.2).1
  else
    (resetQuestion
       (mkSession (quiz st.1) (S (currentQuestionIndex st.1)) (selectedAnswer st.1)
          (isAnswerCorrect st.1) (hasAnswered st.1) (results st.1)),
     st.2).

(** [restartQuiz]: [quiz.value.questions.length] throws without a quiz or
    without its questions, the index and the question state being reset
    already. *)
Definition restartQuiz (st : Session * App) : Session * App * Outcome :=
  let s1 :=
    resetQuestion
      (mkSession (quiz st.1) 0 (selectedAnswer st.1) (isAnswerCorrect st.1)
         (hasAnswered st.1) (results st.1)) in
  match q ← quiz st.1; questions q with
  | Some qs =>
      (mkSession (quiz s1) (currentQuestionIndex s1) (selectedAnswer s1)
         (isAnswerCorrect s1) (hasAnswered s1)
         (mkResults 0 (length qs) 0 0 false),
       set_quizStore (resetQuiz (quizStore st.2)) st.2, Returned)
  | None => (s1, st.2, Threw)
  end.

(** [getAnswerClass(answer)]; [None] when reading [correctAnswer] of a
    missing question throws. *)
Definition getAnswerClass (answer : string) (s : Session) : option string :=
  if negb (hasAnswered s) then Some EmptyString
  else
    match currentQuestion s with
    | Some q =>
        if String.eqb answer (correctAnswer q) then Some "correct"%string
        else if bool_decide (Some answer = selectedAnswer s) then Some "incorrect"%string
        else Some EmptyString
    | None => None
    end.

(** What the user can do on the page. *)
Inductive Event : Type :=
  | SelectAnswer (answer : string)
  | NextQuestion
  | RestartQuiz.

Definition handle (moduleId : nat) (st : Session * App) (e : Event) : Session * App :=
  match e with
  | SelectAnswer answer => ((selectAnswer answer st.1).1, st.2)
  | NextQuestion => nextQuestion moduleId st
  | RestartQuiz => (restartQuiz st).1
  end.

Definition run (moduleId : nat) (st : Session * App) (events : list Event)
    : Session * App :=
  foldl (handle moduleId) st events.

End QuizView.

(** ** Lesson page (views/LessonDetail.vue) *)

Module LessonDetail.

(** The page state next to the stores: the index of the word shown and the
    translation toggle; [vocabulary] is [currentModuleVocabulary] of the
    vocabulary store. *)
Record Page : Type := mkPage {
  activeWordIndex : nat;
  showWordTranslation : bool
}.

Definition currentWord (vocabulary : list Vocabulary) (p : Page) : option Vocabulary :=
  vocabulary !! activeWordIndex p.

(** [activeWordIndex.value < vocabulary.value.length - 1] *)
Definition hasNextWord (vocabulary : list Vocabulary) (p : Page) : bool :=
  Z.of_nat (activeWordIndex p) <? Z.of_nat (length vocabulary) - 1.

Definition hasPreviousWord (p : Page) : bool := (0 <? activeWordIndex p)%nat.

Definition nextWord (vocabulary : list Vocabulary) (p : Page) : Page :=
  if hasNextWord vocabulary p then mkPage (S (activeWordIndex p)) false else p.

Definition previousWord (p : Page) : Page :=
  if hasPreviousWord p then mkPage (activeWordIndex p - 1) false else p.

(** [markAsLearned(wordId)] of the page, for the module [moduleId] of the
    route; [now1], [now2] are the clock readings of the store action. *)
Definition markAsLearned (moduleId : nat) (now1 now2 : Date) (wordId : nat)
    (st : Page * (App * UserStore)) : Page * (App * UserStore) :=
  if Nat.eqb wordId 0 then st
  else
    let r := markAsLearned now1 now2 wordId st.2 in
    let vocabulary := currentModuleVocabulary (vocabularyStore r.1.1) in
    if hasNextWord vocabulary st.1
    then (nextWord vocabulary st.1, r.1)
    else (st.1, (updateProgress moduleId r.1.1, r.1.2)).

(** A click on the button of the word shown:
    [@click="markAsLearned(currentWord.id)"], the button being there only
    with a word. *)
Definition learnCurrentWord (moduleId : nat) (st : Page * (App * UserStore))
    (clock : Date * Date) : Page * (App * UserStore) :=
  match currentWord (currentModuleVocabulary (vocabularyStore st.2.1)) st.1 with
  | Some word => markAsLearned moduleId clock.1 clock.2 (voc_id word) st
  | None => st
  end.

End LessonDetail.

(** ** Flashcards page (views/Flashcards.vue) *)

Module Flashcards.

Section Shuffle.

Context {A : Type}.

(** [random i] is the value of [Math.floor(Math.random() * (i + 1))] drawn in
    the turn of index [i]. *)
Context (random : nat -> nat).

(** [[l[i], l[j]] = [l[j], l[i]]]; [None] stands for an index outside the
    list, where the assignment would leave a hole in the array. *)
Definition swap (i j : nat) (l : list A) : option (list A) :=
  match l !! i, l !! j with
  | Some x, Some y => Some (<[j := x]> (<[i := y]> l))
  | _, _ => None
  end.

(** The turns of index [i], [i - 1], ..., 1. *)
Fixpoint shuffleFrom (i : nat) (l : list A) : option (list A) :=
  match i with
  | 0%nat => Some l
  | S i' =>
      match swap i (random i) l with
      | Some l' => shuffleFrom i' l'
      | None => None
      end
  end.

(** [shuffleVocabulary]: the loop starts at [length - 1]. *)
Definition shuffleVocabulary (l : list A) : option (list A) :=
  shuffleFrom (length l - 1) l.

End Shuffle.

End Flashcards.

(** * Properties *)

(** ** Binary64 arithmetic

    The operations of [SpecFloat] used by the percentage, on positive
    doubles: each result is the exact result rounded to 53 bits. *)

Section Binary64Facts.

Local Open Scope R_scope.

Definition bpow (e : Z) : R := powerRZ 2 e.

(** The real number a positive finite double stands for. *)
Definition F2R (m : positive) (e : Z) : R := IZR (Z.pos m) * bpow e.

Lemma bpow_pos (e : Z) : 0 < bpow e.
Proof. apply powerRZ_lt. lra. Qed.

Lemma bpow_add (a b : Z) : bpow (a + b) = bpow a * bpow b.
Proof. apply powerRZ_add. lra. Qed.

Lemma bpow_IZR (k : Z) : (0 <= k)%Z -> bpow k = IZR (2 ^ k).
Proof.
  intros Hk. unfold bpow. destruct k as [|p|p]; [done| |lia].
  by rewrite <- Zpower_pos_powerRZ.
Qed.

Lemma bpow_0 : bpow 0 = 1.
Proof. done. Qed.

Lemma bpow_1 : bpow 1 = 2.
Proof. unfold bpow. simpl. lra. Qed.

Lemma bpow_m1 : bpow (-1) = / 2.
Proof. unfold bpow. simpl. lra. Qed.

Lemma bpow_opp (e : Z) : bpow (- e) = / bpow e.
Proof. apply powerRZ_neg'. Qed.

Lemma bpow_le (a b : Z) : (a <= b)%Z -> bpow a <= bpow b.
Proof.
  intros Hab. replace b with (a + (b - a))%Z by lia.
  rewrite bpow_add, (bpow_IZR (b - a)) by lia.
  assert (1 <= IZR (2 ^ (b - a))).
  { apply IZR_le. assert (0 < 2 ^ (b - a))%Z by (apply Z.pow_pos_nonneg; lia). lia. }
  pose proof (bpow_pos a). nra.
Qed.

Lemma bpow_lt (a b : Z) : (a < b)%Z -> bpow a < bpow b.
Proof.
  intros Hab. replace b with (a + 1 + (b - a - 1))%Z by lia.
  rewrite !bpow_add, bpow_1, (bpow_IZR (b - a - 1)) by lia.
  assert (1 <= IZR (2 ^ (b - a - 1))).
  { apply IZR_le. assert (0 < 2 ^ (b - a - 1))%Z by (apply Z.pow_pos_nonneg; lia). lia. }
  pose proof (bpow_pos a). nra.
Qed.

(** *** Number of binary digits *)

Definition digits (m : positive) : Z := Z.pos (digits2_pos m).

Lemma digits2_pos_size (m : positive) : digits2_pos m = Pos.size m.
Proof. induction m; simpl; congruence. Qed.

Lemma digits_bounds (m : positive) :
  (2 ^ (digits m - 1) <= Z.pos m < 2 ^ digits m)%Z.
Proof.
  unfold digits. rewrite digits2_pos_size.
  pose proof (Pos.size_gt m) as Hgt. pose proof (Pos.size_le m) as Hle.
  apply Pos2Z.pos_lt_pos in Hgt. apply Pos2Z.pos_le_pos in Hle.
  rewrite Pos2Z.inj_pow in Hgt, Hle.
  split; [|done].
  replace (Z.pos (Pos.size m)) with (Z.pos (Pos.size m) - 1 + 1)%Z in Hle by lia.
  rewrite Z.pow_add_r, Z.pow_1_r in Hle by lia. lia.
Qed.

Lemma digits_unique (m : positive) (d : Z) :
  (2 ^ (d - 1) <= Z.pos m < 2 ^ d)%Z -> digits m = d.
Proof.
  intros [Hlo Hhi]. pose proof (digits_bounds m) as [Hlo' Hhi'].
  assert (0 < digits m)%Z by (unfold digits; lia).
  destruct (Z.lt_trichotomy (digits m) d) as [Hlt|[Heq|Hgt]]; [|done|].
  - assert (2 ^ digits m <= 2 ^ (d - 1))%Z by (apply Z.pow_le_mono_r; lia). lia.
  - assert (d <= 0 \/ 0 < d)%Z as [Hd|Hd] by lia.
    + assert (2 ^ d <= 2 ^ 0)%Z by (apply Z.pow_le_mono_r_iff; lia). lia.
    + assert (2 ^ d <= 2 ^ (digits m - 1))%Z by (apply Z.pow_le_mono_r; lia). lia.
Qed.


(** *** Shifting with a round and a sticky bit *)

(** Where a real [x] lies with respect to the integer [q] below it. *)
Definition locates (x : R) (q : Z) (l : location) : Prop :=
  match l with
  | loc_Exact => x = IZR q
  | loc_Inexact Lt => IZR q < x < IZR q + / 2
  | loc_Inexact Eq => x = IZR q + / 2
  | loc_Inexact Gt => IZR q + / 2 < x < IZR q + 1
  end.

Lemma shr_record_of_loc_m (m : Z) (l : location) : shr_m (shr_record_of_loc m l) = m.
Proof. by destruct l as [|[]]. Qed.

Lemma loc_of_shr_record_of_loc (m : Z) (l : location) :
  loc_of_shr_record (shr_record_of_loc m l) = l.
Proof. by destruct l as [|[]]. Qed.

Lemma IZR_xO (p : positive) : IZR (Z.pos p~0) = 2 * IZR (Z.pos p).
Proof. by rewrite Pos2Z.inj_xO, mult_IZR. Qed.

Lemma IZR_xI (p : positive) : IZR (Z.pos p~1) = 2 * IZR (Z.pos p) + 1.
Proof. by rewrite Pos2Z.inj_xI, plus_IZR, mult_IZR. Qed.

Lemma shr_1_locates (x : R) (mrs : shr_record) :
  (0 <= shr_m mrs)%Z ->
  locates x (shr_m mrs) (loc_of_shr_record mrs) ->
  locates (x * / 2) (shr_m (shr_1 mrs)) (loc_of_shr_record (shr_1 mrs))
  /\ shr_m (shr_1 mrs) = (shr_m mrs / 2)%Z.
Proof.
  destruct mrs as [m r s]. cbn [shr_m]. intros Hm Hx.
  destruct m as [|[p|p|]|p]; [| | | |lia]; cbn [shr_1 shr_m].
  - split; [|done].
    destruct r, s; cbn [locates loc_of_shr_record orb] in *; lra.
  - split; [|rewrite Pos2Z.inj_xI; Z.div_mod_to_equations; lia].
    destruct r, s; cbn [locates loc_of_shr_record orb] in *;
      rewrite IZR_xI in Hx; lra.
  - split; [|rewrite Pos2Z.inj_xO; Z.div_mod_to_equations; lia].
    destruct r, s; cbn [locates loc_of_shr_record orb] in *;
      rewrite IZR_xO in Hx; lra.
  - split; [|done].
    destruct r, s; cbn [locates loc_of_shr_record orb] in *; lra.
Qed.

Lemma pow2_xO (n : positive) : (2 ^ Z.pos n~0 = 2 ^ Z.pos n * 2 ^ Z.pos n)%Z.
Proof. rewrite <- Z.pow_add_r by lia. by rewrite Pos2Z.inj_xO, Z.add_diag. Qed.

Lemma pow2_xI (n : positive) : (2 ^ Z.pos n~1 = 2 * (2 ^ Z.pos n * 2 ^ Z.pos n))%Z.
Proof.
  rewrite <- Z.pow_add_r, <- Z.pow_succ_r by lia.
  by rewrite Pos2Z.inj_xI, Z.add_diag.
Qed.

Lemma iter_shr_1_locates (n : positive) (x : R) (mrs : shr_record) :
  (0 <= shr_m mrs)%Z ->
  locates x (shr_m mrs) (loc_of_shr_record mrs) ->
  locates (x * bpow (- Z.pos n)) (shr_m (SpecFloat.iter_pos shr_1 n mrs))
    (loc_of_shr_record (SpecFloat.iter_pos shr_1 n mrs))
  /\ shr_m (SpecFloat.iter_pos shr_1 n mrs) = (shr_m mrs / 2 ^ Z.pos n)%Z.
Proof.
  revert x mrs. induction n as [n IH|n IH|]; intros x mrs Hm Hx;
    cbn [SpecFloat.iter_pos].
  - destruct (shr_1_locates x mrs Hm Hx) as [H1 E1].
    assert (0 <= shr_m (shr_1 mrs))%Z as Hm1
      by (rewrite E1; apply Z.div_pos; lia).
    destruct (IH _ _ Hm1 H1) as [H2 E2].
    assert (0 <= shr_m (SpecFloat.iter_pos shr_1 n (shr_1 mrs)))%Z as Hm2
      by (rewrite E2; apply Z.div_pos; [lia | apply Z.pow_pos_nonneg; lia]).
    destruct (IH _ _ Hm2 H2) as [H3 E3]. split.
    + replace (x * bpow (- Z.pos n~1))
        with (x * / 2 * bpow (- Z.pos n) * bpow (- Z.pos n)); [done|].
      rewrite Pos2Z.inj_xI.
      replace (- (2 * Z.pos n + 1))%Z with (- Z.pos n + - Z.pos n + - 1)%Z by lia.
      rewrite !bpow_add, bpow_m1. lra.
    + rewrite E3, E2, E1, !Z.div_div by (try apply Z.pow_pos_nonneg; lia).
      by rewrite pow2_xI.
  - destruct (IH _ _ Hm Hx) as [H2 E2].
    assert (0 <= shr_m (SpecFloat.iter_pos shr_1 n mrs))%Z as Hm2
      by (rewrite E2; apply Z.div_pos; [lia | apply Z.pow_pos_nonneg; lia]).
    destruct (IH _ _ Hm2 H2) as [H3 E3]. split.
    + replace (x * bpow (- Z.pos n~0))
        with (x * bpow (- Z.pos n) * bpow (- Z.pos n)); [done|].
      rewrite Pos2Z.inj_xO.
      replace (- (2 * Z.pos n))%Z with (- Z.pos n + - Z.pos n)%Z by lia.
      rewrite !bpow_add. lra.
    + rewrite E3, E2, !Z.div_div by (try apply Z.pow_pos_nonneg; lia).
      by rewrite pow2_xO.
  - destruct (shr_1_locates x mrs Hm Hx) as [H1 E1]. split.
    + by rewrite (bpow_opp 1), bpow_1.
    + by rewrite E1.
Qed.


Lemma round_nearest_even_spec (x : R) (q : Z) (l : location) :
  locates x q l ->
  (q <= round_nearest_even q l <= q + 1)%Z
  /\ x - / 2 <= IZR (round_nearest_even q l) <= x + / 2
  /\ (l = loc_Exact -> round_nearest_even q l = q).
Proof.
  destruct l as [|[]]; cbn [locates round_nearest_even]; intros Hx;
    try destruct (Z.even q); rewrite ?plus_IZR;
    (split; [lia|split; [lra|done]]).
Qed.

(** *** Rounding to 53 bits *)

Lemma fexp_normal (e : Z) : (-1021 <= e)%Z -> fexp prec emax e = (e - 53)%Z.
Proof. unfold fexp, emin, prec, emax. lia. Qed.

Lemma shr_fexp_spec (p : positive) (e : Z) (l : location) (x : R) :
  locates x (Z.pos p) l -> (53 <= digits p)%Z -> (-1021 <= digits p + e)%Z ->
  exists mrs,
    shr_fexp prec emax (Z.pos p) e l = (mrs, (e + (digits p - 53))%Z)
    /\ locates (x * bpow (- (digits p - 53))) (shr_m mrs) (loc_of_shr_record mrs)
    /\ shr_m mrs = (Z.pos p / 2 ^ (digits p - 53))%Z
    /\ (digits p = 53%Z -> loc_of_shr_record mrs = l).
Proof.
  intros Hx Hd He. unfold shr_fexp. cbn [Zdigits2]. fold (digits p).
  rewrite fexp_normal by done.
  replace (digits p + e - 53 - e)%Z with (digits p - 53)%Z by lia.
  destruct (digits p - 53)%Z as [|n|n] eqn:Hn; [| |lia]; cbn [shr].
  - eexists. split; [by rewrite Z.add_0_r|].
    rewrite shr_record_of_loc_m, loc_of_shr_record_of_loc.
    split; [|split; [|done]].
    + replace (x * bpow (- 0)) with x; [done|]. rewrite bpow_opp, bpow_0. lra.
    + by rewrite Z.pow_0_r, Z.div_1_r.
  - eexists. split; [done|].
    destruct (iter_shr_1_locates n x (shr_record_of_loc (Z.pos p) l)) as [H1 H2].
    + by rewrite shr_record_of_loc_m.
    + by rewrite shr_record_of_loc_m, loc_of_shr_record_of_loc.
    + rewrite shr_record_of_loc_m in H2. split; [done|]. split; [done|lia].
Qed.

Lemma shifted_mantissa_range (p : positive) :
  (53 <= digits p)%Z ->
  (2 ^ 52 <= Z.pos p / 2 ^ (digits p - 53) < 2 ^ 53)%Z.
Proof.
  intros Hd. pose proof (digits_bounds p) as [Hlo Hhi].
  assert (0 < 2 ^ (digits p - 53))%Z by (apply Z.pow_pos_nonneg; lia).
  split.
  - apply Z.div_le_lower_bound; [done|].
    rewrite <- Z.pow_add_r by lia.
    by replace (digits p - 53 + 52)%Z with (digits p - 1)%Z by lia.
  - apply Z.div_lt_upper_bound; [done|].
    rewrite <- Z.pow_add_r by lia.
    by replace (digits p - 53 + 53)%Z with (digits p) by lia.
Qed.


Lemma bpow_cancel (k : Z) : bpow (- k) * bpow k = 1.
Proof. rewrite <- bpow_add. by replace (- k + k)%Z with 0%Z by lia. Qed.

(** [binary_round_aux] on a mantissa of at least 53 bits, in the range of
    the normal numbers: the result is the value located by [lx] rounded
    to 53 bits, within half a unit in the last place. *)
Lemma binary_round_aux_spec (mx : positive) (ex : Z) (lx : location) (x : R) :
  locates x (Z.pos mx) lx -> (53 <= digits mx)%Z ->
  (-1021 <= digits mx + ex)%Z -> (digits mx + ex <= 1023)%Z ->
  exists m e,
    binary_round_aux prec emax false (Z.pos mx) ex lx = S754_finite false m e
    /\ digits m = 53%Z
    /\ (ex + digits mx - 53 <= e <= ex + digits mx - 52)%Z
    /\ - bpow (ex + digits mx - 54) <= F2R m e - x * bpow ex
       <= bpow (ex + digits mx - 54)
    /\ (lx = loc_Exact -> digits mx = 53%Z -> m = mx /\ e = ex).
Proof.
  intros Hx Hd Hlo Hhi. unfold binary_round_aux.
  destruct (shr_fexp_spec mx ex lx x Hx Hd Hlo) as (mrs & -> & Hloc & Hq & Hl).
  pose proof (shifted_mantissa_range mx Hd) as Hrange. rewrite <- Hq in Hrange.
  destruct (round_nearest_even_spec _ _ _ Hloc) as (Hmr & Herr & Hexact).
  set (k := (digits mx - 53)%Z) in *.
  assert (Hscale : x * bpow ex = x * bpow (- k) * bpow (ex + k)).
  { transitivity (x * bpow (- k + (ex + k))); [do 2 f_equal; lia|].
    rewrite (bpow_add (- k)). lra. }
  assert (Hhalf : bpow (ex + digits mx - 54) = bpow (ex + k) * / 2).
  { replace (ex + digits mx - 54)%Z with (ex + k + -1)%Z by lia.
    by rewrite bpow_add, bpow_m1. }
  pose proof (bpow_pos (ex + k)) as Hpos.
  destruct (round_nearest_even (shr_m mrs) (loc_of_shr_record mrs))
    as [|pr|pr] eqn:Hpr; [lia| |lia].
  assert (Z.pos pr < 2 ^ 53 \/ Z.pos pr = 2 ^ 53)%Z as [Hlt|Heq] by lia.
  - assert (digits pr = 53%Z) as Hdr by (apply digits_unique; lia).
    destruct (shr_fexp_spec pr (ex + k) loc_Exact (IZR (Z.pos pr)))
      as (mrs2 & -> & _ & Hq2 & _); [done|lia|lia|].
    rewrite Hq2, Hdr, Z.sub_diag, Z.pow_0_r, Z.div_1_r, Z.add_0_r.
    replace (ex + k <=? emax - prec)%Z with true
      by (symmetry; apply Z.leb_le; unfold emax, prec; lia).
    exists pr, (ex + k)%Z. split; [done|]. split; [done|]. split; [lia|].
    split.
    + unfold F2R. rewrite Hhalf, Hscale. nra.
    + intros -> Hd53. specialize (Hexact (Hl Hd53)). subst k.
      rewrite Hd53, Z.sub_diag, Z.pow_0_r, Z.div_1_r in Hq.
      rewrite Hq in Hexact. injection Hexact as ->. split; [done|lia].
  - assert (pr = 9007199254740992%positive) as -> by lia.
    destruct (shr_fexp_spec 9007199254740992 (ex + k) loc_Exact
                (IZR (Z.pos 9007199254740992)))
      as (mrs2 & -> & _ & Hq2 & _); [done|done|unfold digits; simpl; lia|].
    rewrite Hq2.
    replace (digits 9007199254740992) with 54%Z by done.
    replace (Z.pos 9007199254740992 / 2 ^ (54 - 53))%Z
      with (Z.pos 4503599627370496) by done.
    replace (ex + k + (54 - 53) <=? emax - prec)%Z with true
      by (symmetry; apply Z.leb_le; unfold emax, prec; lia).
    exists 4503599627370496%positive, (ex + k + (54 - 53))%Z.
    split; [done|]. split; [done|]. split; [lia|]. split.
    + unfold F2R. rewrite Hhalf, Hscale.
      replace (ex + k + (54 - 53))%Z with (ex + k + 1)%Z by lia.
      rewrite (bpow_add (ex + k) 1), bpow_1.
      replace (IZR (Z.pos 4503599627370496) * (bpow (ex + k) * 2))
        with (IZR (Z.pos 9007199254740992) * bpow (ex + k)); [nra|].
      replace (Z.pos 9007199254740992) with (Z.pos 4503599627370496 * 2)%Z by done.
      rewrite mult_IZR. lra.
    + intros -> Hd53. specialize (Hexact (Hl Hd53)). lia.
Qed.


(** The same bound, relative to the value rounded. *)
Lemma binary_round_aux_rel (mx : positive) (ex : Z) (lx : location) (x : R) :
  locates x (Z.pos mx) lx -> (53 <= digits mx)%Z ->
  (-1021 <= digits mx + ex)%Z -> (digits mx + ex <= 1023)%Z ->
  exists m e,
    binary_round_aux prec emax false (Z.pos mx) ex lx = S754_finite false m e
    /\ digits m = 53%Z
    /\ (ex + digits mx - 53 <= e <= ex + digits mx - 52)%Z
    /\ - (x * bpow ex * bpow (-53)) <= F2R m e - x * bpow ex
       <= x * bpow ex * bpow (-53).
Proof.
  intros Hx Hd Hlo Hhi.
  destruct (binary_round_aux_spec mx ex lx x Hx Hd Hlo Hhi)
    as (m & e & Hr & Hm & He & Herr & _).
  exists m, e. split; [done|]. split; [done|]. split; [done|].
  assert (bpow (ex + digits mx - 54) <= x * bpow ex * bpow (-53)); [|lra].
  replace (ex + digits mx - 54)%Z with (digits mx - 1 + ex + -53)%Z by lia.
  rewrite !bpow_add, (bpow_IZR (digits mx - 1)) by lia.
  pose proof (digits_bounds mx) as [Hb _]. apply IZR_le in Hb.
  assert (IZR (Z.pos mx) <= x).
  { destruct lx as [|[]]; cbn [locates] in Hx; lra. }
  pose proof (bpow_pos ex). pose proof (bpow_pos (-53)).
  apply Rmult_le_compat_r; [lra|]. apply Rmult_le_compat_r; lra.
Qed.

(** *** Integers as doubles *)

Lemma iter_xO (p k : positive) : Z.pos (Pos.iter xO p k) = (Z.pos p * 2 ^ Z.pos k)%Z.
Proof.
  change (Pos.iter xO p k) with (shift_pos k p).
  rewrite shift_pos_correct. change (Z.pow_pos 2 k) with (2 ^ Z.pos k)%Z. lia.
Qed.

Lemma digits_shift (p : positive) (k : Z) (q : positive) :
  (0 <= k)%Z -> Z.pos q = (Z.pos p * 2 ^ k)%Z -> digits q = (digits p + k)%Z.
Proof.
  intros Hk Hq. apply digits_unique. rewrite Hq.
  pose proof (digits_bounds p) as [Hlo Hhi].
  assert (0 < digits p)%Z by (unfold digits; lia).
  assert (0 < 2 ^ k)%Z by (apply Z.pow_pos_nonneg; lia).
  replace (digits p + k - 1)%Z with (digits p - 1 + k)%Z by lia.
  rewrite !Z.pow_add_r by lia. nia.
Qed.

Lemma of_Z_spec (n : Z) :
  (0 < n < 2 ^ 53)%Z ->
  exists m e, of_Z n = S754_finite false m e
              /\ digits m = 53%Z /\ (-52 <= e <= 0)%Z /\ F2R m e = IZR n.
Proof.
  intros [Hn0 Hn]. destruct n as [|p|p]; [lia| |lia].
  unfold of_Z, binary_normalize, binary_round.
  fold (digits p). rewrite Z.add_0_r, fexp_normal by (unfold digits; lia).
  assert (0 < digits p <= 53)%Z as Hd.
  { split; [unfold digits; lia|].
    pose proof (digits_bounds p) as [Hlo _].
    destruct (Z.le_gt_cases (digits p) 53) as [|Hgt]; [done|].
    assert (2 ^ 53 <= 2 ^ (digits p - 1))%Z by (apply Z.pow_le_mono_r; lia). lia. }
  unfold shl_align. rewrite Z.sub_0_r.
  destruct (digits p - 53)%Z as [|k|k] eqn:Hk; [|lia|].
  - destruct (binary_round_aux_spec p 0 loc_Exact (IZR (Z.pos p)))
      as (m & e & -> & Hm & He & _ & Hex); [done|lia|lia|lia|].
    destruct Hex as [-> ->]; [done|lia|].
    exists p, 0%Z. repeat split; try done; try lia.
    unfold F2R. rewrite bpow_0. lra.
  - pose proof (iter_xO p k) as Hq.
    pose proof (digits_shift p (Z.pos k) _ ltac:(lia) Hq) as Hdq.
    destruct (binary_round_aux_spec (Pos.iter xO p k) (Z.neg k) loc_Exact
                (IZR (Z.pos (Pos.iter xO p k))))
      as (m & e & -> & Hm & He & _ & Hex); [done|lia|lia|lia|].
    destruct Hex as [-> ->]; [done|lia|].
    eexists _, _. split; [done|]. split; [lia|]. split; [lia|].
    unfold F2R. rewrite Hq, mult_IZR, <- bpow_IZR by lia.
    change (Z.neg k) with (- Z.pos k)%Z.
    rewrite Rmult_assoc, (Rmult_comm (bpow (Z.pos k))), bpow_cancel. lra.
Qed.


(** *** Division and multiplication *)

Lemma new_location_locates (d q r : Z) :
  (0 <= r < d)%Z ->
  locates (IZR q + IZR r / IZR d) q (new_location d r).
Proof.
  intros Hr.
  assert (0 < IZR d) as Hd by (apply IZR_lt; lia).
  assert (Hy : IZR r / IZR d * IZR d = IZR r) by (field; lra).
  set (y := IZR r / IZR d) in *.
  assert (IZR r < IZR d) as Hlt by (apply IZR_lt; lia).
  assert (0 <= IZR r) as Hge by (apply IZR_le; lia).
  assert (Hzero : r = 0%Z -> y = 0).
  { intros ->. subst y. field. lra. }
  unfold new_location.
  destruct (IntDef.Z.even d) eqn:Heven;
    unfold new_location_even, new_location_odd;
    (destruct (Z.eqb_spec r 0) as [Hr0|Hr0];
     [rewrite (Hzero Hr0); cbn [locates]; lra|]).
  - destruct (Z.compare_spec (2 * r) d) as [He|Hl|Hg]; cbn [locates].
    + apply (f_equal IZR) in He. rewrite mult_IZR in He.
      assert (y = / 2) as -> by (subst y; rewrite <- He; field; lra). lra.
    + apply IZR_lt in Hl. rewrite mult_IZR in Hl.
      assert (1 <= IZR r) as Hr1 by (apply IZR_le; lia). split; nra.
    + apply IZR_lt in Hg. rewrite mult_IZR in Hg. split; nra.
  - assert (2 * r <> d)%Z as Hodd.
    { intros <-. change (Z.even (2 * r) = false) in Heven.
      rewrite Z.even_mul in Heven. done. }
    assert (1 <= IZR r) as Hr1 by (apply IZR_le; lia).
    destruct (Z.compare_spec (2 * r + 1) d) as [He|Hl|Hg]; cbn [locates].
    + assert (2 * r < d)%Z as Hl by lia.
      apply IZR_lt in Hl. rewrite mult_IZR in Hl. split; nra.
    + assert (2 * r < d)%Z as Hl' by lia.
      apply IZR_lt in Hl'. rewrite mult_IZR in Hl'. split; nra.
    + assert (d < 2 * r)%Z as Hg' by lia.
      apply IZR_lt in Hg'. rewrite mult_IZR in Hg'. split; nra.
Qed.

(** The quotient of two positive doubles with moderate exponents is the
    exact quotient rounded, with a relative error of at most 2^-53. *)
Lemma div_spec (mx : positive) (ex : Z) (my : positive) (ey : Z) :
  digits mx = 53%Z -> digits my = 53%Z ->
  (-400 <= ex <= 400)%Z -> (-400 <= ey <= 400)%Z ->
  exists m e,
    div (S754_finite false mx ex) (S754_finite false my ey) = S754_finite false m e
    /\ digits m = 53%Z
    /\ (ex - ey - 53 <= e <= ex - ey - 51)%Z
    /\ - (F2R mx ex / F2R my ey * bpow (-53))
       <= F2R m e - F2R mx ex / F2R my ey
       <= F2R mx ex / F2R my ey * bpow (-53).
Proof.
  intros Hdx Hdy Hex Hey. unfold div, SFdiv, SFdiv_core_binary.
  cbn [Zdigits2]. fold (digits mx) (digits my). rewrite Hdx, Hdy.
  replace (53 + ex - (53 + ey))%Z with (ex - ey)%Z by lia.
  rewrite fexp_normal by lia.
  rewrite Z.min_l by lia.
  replace (ex - ey - (ex - ey - 53))%Z with 53%Z by lia.
  rewrite Z.shiftl_mul_pow2 by lia.
  pose proof (digits_bounds mx) as Hbx. pose proof (digits_bounds my) as Hby.
  rewrite Hdx in Hbx. rewrite Hdy in Hby.
  pose proof (Z.div_eucl_eq (Z.pos mx * 2 ^ 53) (Z.pos my) ltac:(lia)) as Heq.
  pose proof (Z.mod_pos_bound (Z.pos mx * 2 ^ 53) (Z.pos my) ltac:(lia)) as Hmod.
  unfold Z.modulo in Hmod.
  destruct (Z.div_eucl (Z.pos mx * 2 ^ 53) (Z.pos my)) as [q r].
  assert (2 ^ 52 <= q < 2 ^ 54)%Z as Hq by nia.
  destruct q as [|pq|pq]; [lia| |lia].
  assert (53 <= digits pq <= 54)%Z as Hdq.
  { pose proof (digits_bounds pq) as [Hlo Hhi].
    split.
    - destruct (Z.le_gt_cases 53 (digits pq)) as [|Hlt]; [done|].
      assert (2 ^ digits pq <= 2 ^ 52)%Z
        by (apply Z.pow_le_mono_r; unfold digits in *; lia). lia.
    - destruct (Z.le_gt_cases (digits pq) 54) as [|Hgt]; [done|].
      assert (2 ^ 54 <= 2 ^ (digits pq - 1))%Z by (apply Z.pow_le_mono_r; lia).
      lia. }
  pose proof (new_location_locates (Z.pos my) (Z.pos pq) r Hmod) as Hloc.
  destruct (binary_round_aux_rel pq (ex - ey - 53) _ _ Hloc)
    as (m & e & Hr & Hm & He & Herr); [lia|lia|lia|].
  cbn [xorb]. exists m, e. split; [done|]. split; [done|]. split; [lia|].
  assert (Hval : (IZR (Z.pos pq) + IZR r / IZR (Z.pos my)) * bpow (ex - ey - 53)
                 = F2R mx ex / F2R my ey); [|by rewrite <- Hval].
  unfold F2R.
  assert (0 < IZR (Z.pos my)) by (apply IZR_lt; lia).
  pose proof (bpow_pos ey). pose proof (bpow_pos ex).
  apply (f_equal IZR) in Heq. rewrite plus_IZR, !mult_IZR in Heq.
  rewrite <- bpow_IZR in Heq by lia.
  replace (ex - ey - 53)%Z with (ex + - ey + - (53))%Z by lia.
  rewrite !bpow_add, !bpow_opp.
  pose proof (bpow_pos 53).
  replace (IZR (Z.pos pq) + IZR r / IZR (Z.pos my))
    with (IZR (Z.pos mx) * bpow 53 / IZR (Z.pos my))
    by (rewrite Heq; field; lra).
  field. lra.
Qed.


Lemma mul_spec (mx : positive) (ex : Z) (my : positive) (ey : Z) :
  digits mx = 53%Z -> digits my = 53%Z ->
  (-400 <= ex <= 400)%Z -> (-400 <= ey <= 400)%Z ->
  exists m e,
    mul (S754_finite false mx ex) (S754_finite false my ey) = S754_finite false m e
    /\ digits m = 53%Z
    /\ - (F2R mx ex * F2R my ey * bpow (-53))
       <= F2R m e - F2R mx ex * F2R my ey
       <= F2R mx ex * F2R my ey * bpow (-53).
Proof.
  intros Hdx Hdy Hex Hey. unfold mul, SFmul. cbn [xorb].
  pose proof (digits_bounds mx) as Hbx. pose proof (digits_bounds my) as Hby.
  rewrite Hdx in Hbx. rewrite Hdy in Hby.
  assert (105 <= digits (mx * my) <= 106)%Z as Hd.
  { pose proof (digits_bounds (mx * my)) as [Hlo Hhi].
    rewrite Pos2Z.inj_mul in Hlo, Hhi.
    assert (2 ^ 104 <= Z.pos mx * Z.pos my < 2 ^ 106)%Z as Hp by nia.
    split.
    - destruct (Z.le_gt_cases 105 (digits (mx * my))) as [|Hlt]; [done|].
      assert (2 ^ digits (mx * my) <= 2 ^ 104)%Z
        by (apply Z.pow_le_mono_r; unfold digits in *; lia). lia.
    - destruct (Z.le_gt_cases (digits (mx * my)) 106) as [|Hgt]; [done|].
      assert (2 ^ 106 <= 2 ^ (digits (mx * my) - 1))%Z
        by (apply Z.pow_le_mono_r; lia). lia. }
  destruct (binary_round_aux_rel (mx * my) (ex + ey) loc_Exact
              (IZR (Z.pos (mx * my))))
    as (m & e & Hr & Hm & He & Herr); [done|lia|lia|lia|].
  exists m, e. split; [done|]. split; [done|].
  assert (Hval : IZR (Z.pos (mx * my)) * bpow (ex + ey) = F2R mx ex * F2R my ey);
    [|by rewrite <- Hval].
  unfold F2R. rewrite Pos2Z.inj_mul, mult_IZR, bpow_add. lra.
Qed.

(** *** Math.round *)

Lemma Math_round_spec (m : positive) (e : Z) :
  (e < 0)%Z ->
  exists r : Z,
    Math_round (S754_finite false m e) = of_Z r
    /\ IZR r <= F2R m e + / 2 < IZR r + 1.
Proof.
  intros He. unfold Math_round.
  destruct (Z.leb_spec 0 e) as [|_]; [lia|].
  set (r := ((2 * Z.pos m + 2 ^ (- e)) / 2 ^ (1 - e))%Z).
  exists r. split; [by destruct (Z.eqb_spec r 0) as [->|]|].
  assert (0 < 2 ^ (- e))%Z as Hpow by (apply Z.pow_pos_nonneg; lia).
  assert (2 ^ (1 - e) = 2 * 2 ^ (- e))%Z as Hpow2.
  { replace (1 - e)%Z with (1 + - e)%Z by lia. by rewrite Z.pow_add_r by lia. }
  pose proof (Z.div_mod (2 * Z.pos m + 2 ^ (- e)) (2 ^ (1 - e)) ltac:(lia)) as Hdiv.
  pose proof (Z.mod_pos_bound (2 * Z.pos m + 2 ^ (- e)) (2 ^ (1 - e)) ltac:(lia))
    as Hmod.
  fold r in Hdiv. set (s := ((2 * Z.pos m + 2 ^ (- e)) mod 2 ^ (1 - e))%Z) in *.
  rewrite Hpow2 in Hdiv, Hmod.
  apply (f_equal IZR) in Hdiv. rewrite !plus_IZR, !mult_IZR in Hdiv.
  destruct Hmod as [Hs0 Hs1]. apply IZR_le in Hs0. apply IZR_lt in Hs1.
  rewrite mult_IZR in Hs1. rewrite <- !bpow_IZR in * by lia.
  unfold F2R. pose proof (bpow_cancel e) as Hc. pose proof (bpow_pos (- e)).
  pose proof (bpow_pos e).
  assert (Hm : IZR (Z.pos m) = IZR (Z.pos m) * bpow e * bpow (- e)).
  { rewrite Rmult_assoc, (Rmult_comm (bpow e)), Hc. lra. }
  set (y := IZR (Z.pos m) * bpow e) in *. rewrite Hm in Hdiv.
  split; nra.
Qed.


(** *** The percentage *)

Lemma bpow_m53 : bpow (-53) = / 9007199254740992.
Proof. change (-53)%Z with (- (53))%Z. by rewrite bpow_opp, bpow_IZR. Qed.

(** The percentage computed in doubles is the exact percentage rounded
    half up, except that an exact half may be rounded down. *)
Theorem percentage_spec (l t : nat) :
  (0 < t)%nat -> (l <= t)%nat -> (Z.of_nat t < 2 ^ 44)%Z ->
  exists p : Z,
    percentage l t = of_Z p
    /\ (p = round_half_up (100 * Z.of_nat l) (Z.of_nat t)
        \/ ((200 * Z.of_nat l + Z.of_nat t) mod (2 * Z.of_nat t) = 0%Z
            /\ p = (round_half_up (100 * Z.of_nat l) (Z.of_nat t) - 1)%Z)).
Proof.
  intros Ht Hlt Hbound. unfold percentage.
  apply Nat.ltb_lt in Ht as Ht'. rewrite Ht'. clear Ht'.
  change (2 ^ 44)%Z with 17592186044416%Z in Hbound.
  assert (Hpow : (2 ^ 53 = 9007199254740992)%Z) by done.
  destruct (of_Z_spec (Z.of_nat t)) as (mt & et & -> & Hdt & Het & Hvt); [lia|].
  destruct (Nat.eq_dec l 0%nat) as [->|Hl0].
  { exists 0%Z. split; [done|]. left. unfold round_half_up.
    symmetry. apply Z.div_small. lia. }
  destruct (of_Z_spec (Z.of_nat l)) as (ml & el & -> & Hdl & Hel & Hvl); [lia|].
  destruct (of_Z_spec 100) as (mc & ec & -> & Hdc & Hec & Hvc); [done|].
  destruct (div_spec ml el mt et) as (mq & eq & -> & Hdq & Heq & Hq);
    [done|done|lia|lia|].
  destruct (mul_spec mq eq mc ec) as (mp & ep & -> & Hdp & Hp);
    [done|done|lia|lia|].
  rewrite Hvl, Hvt in Hq. rewrite Hvc in Hp. rewrite bpow_m53 in Hq, Hp.
  set (L := IZR (Z.of_nat l)) in *. set (T := IZR (Z.of_nat t)) in *.
  set (Q := F2R mq eq) in *.
  assert (1 <= L) as HL by (apply IZR_le; lia).
  assert (L <= T) as HLT by (apply IZR_le; lia).
  assert (T <= 17592186044415) as HT.
  { apply IZR_le. lia. }
  assert (HX : L / T * T = L) by (field; lra).
  set (X := L / T) in *.
  assert (0 < X <= 1) as [HX0 HX1] by (split; nra).
  assert (Hep : (ep < 0)%Z).
  { destruct (Z.lt_ge_cases ep 0) as [|Hge]; [done|]. exfalso.
    apply bpow_le in Hge. rewrite bpow_0 in Hge.
    pose proof (digits_bounds mp) as [Hlo _]. rewrite Hdp in Hlo.
    apply IZR_le in Hlo. change (2 ^ (53 - 1))%Z with 4503599627370496%Z in Hlo.
    assert (4503599627370496 <= F2R mp ep) by (unfold F2R; nra).
    lra. }
  destruct (Math_round_spec mp ep Hep) as (r & -> & Hr).
  exists r. split; [done|].
  set (P := F2R mp ep) in *.
  (* the exact percentage *)
  unfold round_half_up.
  pose proof (Z.div_mod (2 * (100 * Z.of_nat l) + Z.of_nat t) (2 * Z.of_nat t)
                ltac:(lia)) as Hdiv.
  pose proof (Z.mod_pos_bound (2 * (100 * Z.of_nat l) + Z.of_nat t)
                (2 * Z.of_nat t) ltac:(lia)) as Hmod.
  replace (200 * Z.of_nat l + Z.of_nat t)%Z
    with (2 * (100 * Z.of_nat l) + Z.of_nat t)%Z by lia.
  set (R := ((2 * (100 * Z.of_nat l) + Z.of_nat t) / (2 * Z.of_nat t))%Z) in *.
  set (rem := ((2 * (100 * Z.of_nat l) + Z.of_nat t) mod (2 * Z.of_nat t))%Z) in *.
  apply (f_equal IZR) in Hdiv.
  rewrite !plus_IZR, !mult_IZR in Hdiv. fold L T in Hdiv.
  (* the error of the double computation, scaled by 2T *)
  set (D := (P - 100 * X) * (2 * T)).
  assert (-1 < D < 1) as HD.
  { assert (- (201 / 9007199254740992) <= P - 100 * X <= 201 / 9007199254740992)
      as Herr by lra.
    assert (0 < T) by lra.
    subst D. split; nra. }
  assert (HP : (P + / 2) * (2 * T) = 2 * T * IZR R + IZR rem + D).
  { subst D. rewrite <- Hdiv. nra. }
  destruct (Z.eq_dec rem 0%Z) as [Hrem|Hrem].
  - (* an exact half *)
    assert (IZR rem = 0) as Hrem' by by rewrite Hrem.
    assert (0 < T) as HT0 by lra.
    assert (IZR R < IZR r + 2 /\ IZR r < IZR R + 1) as [H1 H2] by (split; nra).
    rewrite <- !plus_IZR in *. apply lt_IZR in H1, H2. lia.
  - left.
    assert (1 <= IZR rem) as Hr1 by (apply IZR_le; lia).
    assert (IZR rem <= 2 * T - 1) as Hr2.
    { subst T. rewrite <- mult_IZR, <- minus_IZR. apply IZR_le. lia. }
    assert (0 < T) as HT0 by lra.
    assert (IZR R < IZR r + 1 /\ IZR r < IZR R + 1) as [H1 H2] by (split; nra).
    rewrite <- !plus_IZR in *. apply lt_IZR in H1, H2. lia.
Qed.

End Binary64Facts.

(** ** Progress aggregator *)

Lemma percentage_empty (l : nat) : percentage l 0 = of_Z 0.
Proof. reflexivity. Qed.

(** The learned query matches no row: its filter compares two booleans,
    which [indexedDB.cmp] refuses. *)
Lemma whereModuleLearned_nil (moduleId : nat) (rows : list Vocabulary) :
  whereModuleLearned moduleId rows = [].
Proof.
  unfold whereModuleLearned.
  induction (filter (inModule moduleId) rows) as [|v l IH]; [done|].
  rewrite filter_cons. by case_decide.
Qed.

Lemma learnedWords_zero (moduleId : nat) (d : DB) : learnedWords moduleId d = 0%nat.
Proof. unfold learnedWords. by rewrite whereModuleLearned_nil. Qed.

(** No word counted as learned: the progress is 0. *)
Lemma percentage_none_learned (t : nat) :
  Z.of_nat t < 2 ^ 53 -> percentage 0 t = of_Z 0.
Proof.
  intros Ht. destruct t as [|t]; [reflexivity|].
  unfold percentage. destruct (Nat.ltb_spec 0 (S t)) as [_|]; [|lia].
  destruct (of_Z_spec (Z.of_nat (S t))) as (m & e & -> & _); [lia|].
  vm_compute. reflexivity.
Qed.

(** What [updateModuleProgress] writes, the learned query counting no row:
    a progress of 0 and no completion, into the row of the module. *)
Lemma updateModuleProgress_zero (moduleId : nat) (d : DB) :
  Z.of_nat (totalWords moduleId d) < 2 ^ 53 ->
  updateModuleProgress moduleId d
  = set_modules (alter (setProgress (of_Z 0) false) moduleId (modules d)) d.
Proof.
  intros Ht. unfold updateModuleProgress.
  by rewrite learnedWords_zero, percentage_none_learned.
Qed.

(** ** Streak calculator *)

Section CalendarFacts.

Lemma Day_MakeDate (d t : Z) : 0 <= t < msPerDay -> Day (MakeDate d t) = d.
Proof.
  intros Ht. unfold Day, MakeDate.
  rewrite Z.add_comm, Z.div_add by (unfold msPerDay; lia).
  rewrite Z.div_small by lia. lia.
Qed.

Lemma TimeWithinDay_range (t : Date) : 0 <= TimeWithinDay t < msPerDay.
Proof. unfold TimeWithinDay. apply Z.mod_pos_bound. unfold msPerDay. lia. Qed.

(** A day number is recovered from its three calendar components. *)
Lemma Day_components (t : Date) :
  Day t = MakeDay (getFullYear t) (getMonth t) (getDate t).
Proof.
  unfold MakeDay, getDate, getMonth, getFullYear, DateFromDay, DayWithinYear. lia.
Qed.

Lemma sameCalendarDay_iff (a b : Date) :
  sameCalendarDay a b = true <-> Day a = Day b.
Proof.
  unfold sameCalendarDay. rewrite !andb_true_iff, !Z.eqb_eq. split.
  - intros [[Hd Hm] Hy]. rewrite (Day_components a), (Day_components b).
    by rewrite Hd, Hm, Hy.
  - intros H. unfold getDate, getMonth, getFullYear. by rewrite H.
Qed.

(** [yesterday.setDate(yesterday.getDate() - 1)] steps back one day. *)
Lemma Day_yesterday (t : Date) : Day (setDate t (getDate t - 1)) = Day t - 1.
Proof.
  unfold setDate. rewrite Day_MakeDate by apply TimeWithinDay_range.
  rewrite (Day_components t). unfold MakeDay. lia.
Qed.

Lemma TimeWithinDay_yesterday (t : Date) :
  TimeWithinDay (setDate t (getDate t - 1)) = TimeWithinDay t.
Proof.
  unfold setDate, MakeDate, TimeWithinDay.
  rewrite Z.add_comm, Z.mod_add by (unfold msPerDay; lia).
  apply Z.mod_mod. unfold msPerDay. lia.
Qed.

(** The year computed is the one the ECMAScript definition asks for. *)
Lemma YearFromDay_spec (d : Z) :
  DayFromYear (YearFromDay d) <= d < DayFromYear (YearFromDay d + 1).
Proof.
  unfold YearFromDay.
  set (y := 400 * d / 146097).
  assert (Hy : 146097 * y <= 400 * d < 146097 * y + 146097)
    by (subst y; Z.div_mod_to_equations; lia).
  clearbody y.
  destruct (Z.ltb_spec d (DayFromYear (1970 + y))) as [H1|H1];
    [| destruct (Z.leb_spec (DayFromYear (1970 + y + 1)) d) as [H2|H2]].
  - replace (1970 + y - 1 + 1) with (1970 + y) by lia.
    split; [|lia]. unfold DayFromYear in *. Z.div_mod_to_equations. lia.
  - split; [lia|]. unfold DayFromYear in *. Z.div_mod_to_equations. lia.
  - lia.
Qed.

End CalendarFacts.

Lemma updateUserProgressRow_head (f : UserProgress -> UserProgress)
    (p : UserProgress) (rest : list UserProgress) :
  updateUserProgressRow (up_id p) f (p :: rest)
  = f p :: updateUserProgressRow (up_id p) f rest.
Proof. unfold updateUserProgressRow. simpl. by rewrite Nat.eqb_refl. Qed.

Lemma updateUserProgressRow_other (key : nat) (f : UserProgress -> UserProgress)
    (rows : list UserProgress) :
  Forall (fun r => up_id r <> key) rows -> updateUserProgressRow key f rows = rows.
Proof.
  induction 1 as [|r rows Hr _ IH]; simpl; [done|].
  apply Nat.eqb_neq in Hr. by rewrite Hr, IH.
Qed.

(** The test of the code, read on day numbers. *)
Lemma isLastStudyYesterday_iff (lastStudy now : Date) :
  sameCalendarDay lastStudy (setDate now (getDate now - 1)) = true
  <-> Day lastStudy = Day now - 1.
Proof. by rewrite sameCalendarDay_iff, Day_yesterday. Qed.

(** The streak after the update, in terms of the day numbers. *)
Definition nextStreak (p : UserProgress) (today : Date) : Z :=
  match lastStudyDate p with
  | Some lastStudy =>
      if decide (Day lastStudy = Day today - 1) then streakDays p + 1
      else streakDays p
  | None => streakDays p
  end.

(** C5: with a user-progress record [p] in the table and both readings of
    the clock on the same calendar day, [incrementStreakDays] stamps
    [lastStudyDate] with today in every case; [streakDays] grows by exactly
    one when the previous study date has the year, month and day of
    yesterday (equivalently, lies on the day before today) and is left as it
    was when the date is unset, on the same day, or two or more days back;
    it is never reset, and no other field or table changes. *)
Theorem incrementStreakDays_spec (today now : Date) (d : DB)
    (p : UserProgress) (rest : list UserProgress) :
  userProgress d = p :: rest ->
  Day now = Day today ->
  Forall (fun r => up_id r <> up_id p) rest ->
  let d' := incrementStreakDays today now d in
  userProgress d' = setStreak (nextStreak p today) today p :: rest
  /\ lastStudyDate (setStreak (nextStreak p today) today p) = Some today
  /\ (lastStudyDate p = None -> nextStreak p today = streakDays p)
  /\ (forall lastStudy, lastStudyDate p = Some lastStudy ->
        (sameCalendarDay lastStudy (setDate today (getDate today - 1)) = true
           <-> Day lastStudy = Day today - 1)
        /\ (Day lastStudy = Day today - 1 -> nextStreak p today = streakDays p + 1)
        /\ (Day lastStudy = Day today -> nextStreak p today = streakDays p)
        /\ (Day lastStudy <= Day today - 2 -> nextStreak p today = streakDays p))
  /\ streakDays p <= nextStreak p today
  /\ vocabulary d' = vocabulary d /\ modules d' = modules d
  /\ quizzes d' = quizzes d.
Proof.
  intros Hup Hday Hrest d'.
  assert (Hd' : userProgress d' = setStreak (nextStreak p today) today p :: rest
                /\ vocabulary d' = vocabulary d /\ modules d' = modules d
                /\ quizzes d' = quizzes d).
  { subst d'. unfold incrementStreakDays, nextStreak. rewrite Hup.
    cbv beta iota zeta.
    destruct (lastStudyDate p) as [lastStudy|] eqn:Hlast.
    - destruct (sameCalendarDay lastStudy (setDate now (getDate now - 1))) eqn:Hs.
      + apply isLastStudyYesterday_iff in Hs. rewrite Hday in Hs.
        rewrite decide_True by done.
        rewrite updateUserProgressRow_head, updateUserProgressRow_other by done.
        done.
      + assert (Day lastStudy <> Day today - 1) as Hne.
        { intros He. rewrite <- Hday in He. apply isLastStudyYesterday_iff in He.
          congruence. }
        rewrite decide_False by done.
        rewrite updateUserProgressRow_head, updateUserProgressRow_other by done.
        done.
    - rewrite updateUserProgressRow_head, updateUserProgressRow_other by done.
      done. }
  destruct Hd' as (H1 & H2 & H3 & H4).
  repeat split; try done.
  - unfold nextStreak. by intros ->.
  - by apply isLastStudyYesterday_iff.
  - by apply isLastStudyYesterday_iff.
  - unfold nextStreak. rewrite H. intros ?. by rewrite decide_True.
  - unfold nextStreak. rewrite H. intros ?. rewrite decide_False; [done|lia].
  - unfold nextStreak. rewrite H. intros ?. rewrite decide_False; [done|lia].
  - unfold nextStreak. destruct (lastStudyDate p); [case_decide|]; lia.
Qed.

Definition streakExampleDB : DB :=
  mkDB [] ∅
    [mkUserProgress 1 12 30 (Some (mkDate 2024 1 29 21 15 0)) 95 6 None] [] 1.

Lemma incrementStreakDays_spec_witness :
  userProgress
    (incrementStreakDays (mkDate 2024 2 1 8 30 0) (mkDate 2024 2 1 8 30 0 + 2)
       streakExampleDB)
  = [mkUserProgress 1 12 30 (Some (mkDate 2024 2 1 8 30 0)) 95 7 None].
Proof.
  apply (incrementStreakDays_spec (mkDate 2024 2 1 8 30 0)
           (mkDate 2024 2 1 8 30 0 + 2) streakExampleDB
           (mkUserProgress 1 12 30 (Some (mkDate 2024 1 29 21 15 0)) 95 6 None) []).
  - reflexivity.
  - vm_compute. reflexivity.
  - constructor.
Defined.

(** ** Review scheduler *)

Section ArraySortFacts.
Context {A : Type} (comparefn : A -> A -> Z).

Lemma sortInsert_perm (x : A) (l : list A) : sortInsert comparefn x l ≡ₚ x :: l.
Proof.
  induction l as [|y l IH]; simpl; [done|].
  destruct (comparefn x y <=? 0); [done|].
  rewrite IH. apply Permutation_swap.
Qed.

Lemma Array_sort_perm (l : list A) : Array_sort comparefn l ≡ₚ l.
Proof.
  induction l as [|x l IH]; simpl; [done|].
  by rewrite sortInsert_perm, IH.
Qed.

Hypothesis before_trans :
  forall a b c, before comparefn a b -> before comparefn b c -> before comparefn a c.
Hypothesis before_total : forall a b, 0 < comparefn a b -> before comparefn b a.

Lemma sortInsert_sorted (x : A) (l : list A) :
  StronglySorted (before comparefn) l ->
  StronglySorted (before comparefn) (sortInsert comparefn x l).
Proof.
  induction 1 as [|y l Hl IH Hy]; simpl.
  - repeat constructor.
  - destruct (Z.leb_spec (comparefn x y) 0) as [Hle|Hgt].
    + constructor; [by constructor|].
      constructor; [done|].
      eapply Forall_impl; [exact Hy|]. intros z Hz. by eapply before_trans.
    + constructor; [done|].
      rewrite sortInsert_perm. constructor; [by apply before_total | done].
Qed.

Lemma Array_sort_sorted (l : list A) :
  StronglySorted (before comparefn) (Array_sort comparefn l).
Proof.
  induction l as [|x l IH]; simpl; [constructor | by apply sortInsert_sorted].
Qed.

End ArraySortFacts.

Lemma reviewCompare_trans (a b c : Vocabulary) :
  before reviewCompare a b -> before reviewCompare b c -> before reviewCompare a c.
Proof.
  unfold before, reviewCompare.
  destruct (lastReviewed a), (lastReviewed b), (lastReviewed c); lia.
Qed.

Lemma reviewCompare_total (a b : Vocabulary) :
  0 < reviewCompare a b -> before reviewCompare b a.
Proof.
  unfold before, reviewCompare.
  destruct (lastReviewed a), (lastReviewed b); lia.
Qed.

Lemma StronglySorted_lookup {A} (R : A -> A -> Prop) (l : list A) (i j : nat) (a b : A) :
  StronglySorted R l -> (i < j)%nat -> l !! i = Some a -> l !! j = Some b -> R a b.
Proof.
  intros Hs. revert i j. induction Hs as [|x l Hl IH Hx]; intros i j Hij Hi Hj.
  - by rewrite lookup_nil in Hi.
  - destruct j as [|j]; [lia|]. destruct i as [|i]; simpl in *.
    + injection Hi as ->. rewrite Forall_forall in Hx. apply Hx.
      by eapply list_elem_of_lookup_2.
    + eapply (IH i j); [lia|done|done].
  Qed.

Lemma StronglySorted_take {A} (R : A -> A -> Prop) (n : nat) (l : list A) :
  StronglySorted R l -> StronglySorted R (take n l).
Proof.
  intros Hs. revert n. induction Hs as [|x l Hl IH Hx]; intros [|n]; simpl; try constructor.
  - apply IH.
  - rewrite Forall_forall in *. intros y Hy. apply Hx.
    by apply (subseteq_take n l).
Qed.

(** What the queue owes to the order alone: the first ten places of any
    arrangement of the learned items that the comparator accepts have the
    properties of the queue, whichever sorting procedure produced it. *)
Lemma reviewQueue_of_sorted (vocabularyItems sorted : list Vocabulary) :
  sorted ≡ₚ filter isLearned vocabularyItems ->
  StronglySorted (before reviewCompare) sorted ->
  let out := take 10 sorted in
  Forall (fun v => learned v = true /\ v ∈ vocabularyItems) out
  /\ (forall i j a b, (i < j)%nat -> out !! i = Some a -> out !! j = Some b ->
        lastReviewed b = None -> lastReviewed a = None)
  /\ (forall i j a b ta tb, (i < j)%nat -> out !! i = Some a -> out !! j = Some b ->
        lastReviewed a = Some ta -> lastReviewed b = Some tb -> ta <= tb)
  /\ length out = (10 `min` length (filter isLearned vocabularyItems))%nat.
Proof.
  intros Hperm Hsorted out. subst out.
  assert (Hpair : forall i j a b, (i < j)%nat -> take 10 sorted !! i = Some a ->
            take 10 sorted !! j = Some b -> reviewCompare a b <= 0).
  { intros i j a b Hij Hi Hj.
    apply (StronglySorted_lookup (before reviewCompare) (take 10 sorted) i j a b);
      [by apply StronglySorted_take | done..]. }
  split; [|split; [|split]].
  - apply Forall_forall. intros v Hv.
    apply (subseteq_take 10 sorted) in Hv. rewrite Hperm in Hv.
    by apply list_elem_of_filter in Hv.
  - intros i j a b Hij Hi Hj Hb. specialize (Hpair i j a b Hij Hi Hj).
    unfold reviewCompare in Hpair. rewrite Hb in Hpair.
    destruct (lastReviewed a); [lia | done].
  - intros i j a b ta tb Hij Hi Hj Ha Hb. specialize (Hpair i j a b Hij Hi Hj).
    unfold reviewCompare in Hpair. rewrite Ha, Hb in Hpair. lia.
  - rewrite length_take, Hperm. done.
Qed.

(** C6: the review queue of the dashboard getter holds learned items of
    the snapshot only; an item never reviewed stands before every item with
    a review date; the review dates that are set do not decrease along the
    queue; the queue is what the first ten places of the ordered learned
    items hold. *)
Theorem getNextWordsToReview_spec (vocabularyItems : list Vocabulary) :
  let out := getNextWordsToReview vocabularyItems in
  Forall (fun v => learned v = true /\ v ∈ vocabularyItems) out
  /\ (forall i j a b, (i < j)%nat -> out !! i = Some a -> out !! j = Some b ->
        lastReviewed b = None -> lastReviewed a = None)
  /\ (forall i j a b ta tb, (i < j)%nat -> out !! i = Some a -> out !! j = Some b ->
        lastReviewed a = Some ta -> lastReviewed b = Some tb -> ta <= tb)
  /\ length out = (10 `min` length (filter isLearned vocabularyItems))%nat
  /\ exists rest,
       out ++ rest ≡ₚ filter isLearned vocabularyItems
       /\ StronglySorted (before reviewCompare) (out ++ rest).
Proof.
  intros out. subst out. unfold getNextWordsToReview.
  set (eligible := filter isLearned vocabularyItems).
  set (sorted := Array_sort reviewCompare eligible).
  assert (Hperm : sorted ≡ₚ eligible) by apply Array_sort_perm.
  assert (Hsorted : StronglySorted (before reviewCompare) sorted)
    by (apply Array_sort_sorted; [apply reviewCompare_trans | apply reviewCompare_total]).
  destruct (reviewQueue_of_sorted vocabularyItems sorted Hperm Hsorted)
    as (H1 & H2 & H3 & H4).
  repeat split; try assumption.
  exists (drop 10 sorted). by rewrite take_drop.
Qed.

Lemma wordsToReview_prefix (vocabularyItems : list Vocabulary) :
  wordsToReview vocabularyItems `prefix_of` getNextWordsToReview vocabularyItems.
Proof. apply prefix_take. Qed.

(** ** Quiz generator *)

Section QuizGeneratorFacts.

Context (shuffle : forall A : Type, nat -> list A -> list A).

(** The pool a generation works on. *)
Definition pool (moduleId : nat) (a : App) : list Vocabulary :=
  filter (inModule moduleId) (vocabulary (db a)).

Lemma filter_ofModule_deleted (moduleId : nat) (l : list Quiz) :
  filter (ofModule moduleId) (filter (fun q => ~ ofModule moduleId q) l) = [].
Proof.
  induction l as [|q l IH]; [done|].
  rewrite filter_cons. case_decide; [|done].
  rewrite filter_cons. by case_decide.
Qed.

Lemma deleteQuizzes_none (moduleId : nat) (d : DB) :
  filter (ofModule moduleId) (quizzes (deleteQuizzes moduleId d)) = [].
Proof. apply filter_ofModule_deleted. Qed.

Lemma generateQuizForModule_insufficient_eq (moduleId : nat) (a : App) :
  (length (pool moduleId a) < 4)%nat ->
  generateQuizForModule shuffle moduleId a
  = (let a2 := fetchVocabularyByModule moduleId
                 (set_db (deleteQuizzes moduleId (db a)) a) in
     set_quizStore
       (mkQuizStore (qs_quizzes (quizStore a)) (currentQuiz (quizStore a))
          (currentQuizIndex (quizStore a)) (quizResults (quizStore a))
          (Some notEnoughVocabulary)) a2,
     ReturnedFalse).
Proof.
  intros Hlen. unfold generateQuizForModule.
  cbn [fetchVocabularyByModule set_vocabularyStore vocabularyStore
         currentModuleVocabulary set_db db deleteQuizzes set_quizzes vocabulary
         quizStore].
  fold (pool moduleId a).
  apply Nat.ltb_lt in Hlen. by rewrite Hlen.
Qed.

(** C2: when the module has fewer than four vocabulary items the
    generation fails: it answers [false], leaves the message "Not enough
    vocabulary items to generate a quiz" in the error field of the quiz
    store for the caller, and emits no question: no row is added to the
    quizzes table (its key generator does not move) and the question list
    of the store is not replaced. *)
Theorem generateQuizForModule_insufficient (moduleId : nat) (a : App) :
  (length (pool moduleId a) < 4)%nat ->
  let a' := (generateQuizForModule shuffle moduleId a).1 in
  (generateQuizForModule shuffle moduleId a).2 = ReturnedFalse
  /\ qs_error (quizStore a') = Some notEnoughVocabulary
  /\ quizzes (db a') `sublist_of` quizzes (db a)
  /\ quizNextId (db a') = quizNextId (db a)
  /\ qs_quizzes (quizStore a') = qs_quizzes (quizStore a).
Proof.
  intros Hlen a'. subst a'.
  rewrite (generateQuizForModule_insufficient_eq moduleId a Hlen). simpl.
  repeat split. apply sublist_filter.
Qed.

(** C10: when the module has fewer than four vocabulary items, the
    questions stored for it are deleted before the shortage is noticed:
    after the failed call the quizzes table holds no question of that
    module, whatever it held before, and keeps the questions of the other
    modules. *)
Theorem generateQuizForModule_failure_deletes (moduleId : nat) (a : App) :
  (length (pool moduleId a) < 4)%nat ->
  let a' := (generateQuizForModule shuffle moduleId a).1 in
  filter (ofModule moduleId) (quizzes (db a')) = []
  /\ quizzes (db a')
     = filter (fun q => ~ ofModule moduleId q) (quizzes (db a)).
Proof.
  intros Hlen a'. subst a'.
  rewrite (generateQuizForModule_insufficient_eq moduleId a Hlen). simpl.
  split; [apply (deleteQuizzes_none moduleId (db a)) | done].
Qed.

End QuizGeneratorFacts.

(** *** Lists *)

Lemma filter_Forall_id {A} (P : A -> Prop) `{forall x, Decision (P x)} (l : list A) :
  Forall P l -> filter P l = l.
Proof.
  induction 1 as [|x l Hx _ IH]; [done|].
  by rewrite filter_cons_True, IH.
Qed.

Lemma filter_Forall_nil {A} (P : A -> Prop) `{forall x, Decision (P x)} (l : list A) :
  Forall (fun x => ~ P x) l -> filter P l = [].
Proof.
  induction 1 as [|x l Hx _ IH]; [done|].
  by rewrite filter_cons_False.
Qed.

Lemma NoDup_of_submseteq {A} (l k : list A) : l ⊆+ k -> NoDup k -> NoDup l.
Proof.
  intros [k' Hk]%submseteq_Permutation. rewrite Hk.
  by intros (? & _ & _)%NoDup_app.
Qed.

Lemma count_eq_NoDup `{EqDecision A} (x : A) (l : list A) :
  NoDup l -> x ∈ l -> count (fun y => y = x) l = 1%nat.
Proof.
  unfold count. induction 1 as [|y l Hy Hl IH]; intros Hx.
  - by apply not_elem_of_nil in Hx.
  - rewrite filter_cons. destruct (decide (y = x)) as [->|Hne].
    + rewrite filter_Forall_nil; [done|].
      apply Forall_forall. intros z Hz ->. done.
    + apply elem_of_cons in Hx as [->|Hx]; [done | by apply IH].
Qed.

(** *** The multiple-choice step *)

(** Filtering on the key removes the correct item and nothing else. *)
Lemma otherItems_middle (l1 : list Vocabulary) (c : Vocabulary) (l2 : list Vocabulary) :
  NoDup (voc_id <$> l1 ++ c :: l2) -> otherItems c (l1 ++ c :: l2) = l1 ++ l2.
Proof.
  rewrite fmap_app, fmap_cons. intros (_ & Hl & (Hr & _)%NoDup_cons)%NoDup_app.
  unfold otherItems.
  rewrite filter_app, filter_cons_False by (intros Hc; by apply Hc).
  f_equal; apply filter_Forall_id, Forall_forall; intros x Hx Heq.
  - apply (Hl (voc_id x)); [by apply list_elem_of_fmap_2|].
    rewrite Heq. apply elem_of_cons. by left.
  - apply Hr. rewrite <- Heq. by apply list_elem_of_fmap_2.
Qed.

Section MultipleChoiceFacts.

Context (shuffle : forall A : Type, nat -> list A -> list A).
Hypothesis shuffle_perm : forall (A : Type) (k : nat) (l : list A), shuffle A k l ≡ₚ l.

Context (moduleId : nat) (vocabulary : list Vocabulary).
Hypothesis keys_unique : NoDup (voc_id <$> vocabulary).

Lemma otherItems_split (i : nat) (c : Vocabulary) :
  vocabulary !! i = Some c ->
  otherItems c vocabulary = take i vocabulary ++ drop (S i) vocabulary.
Proof using keys_unique.
  intros Hi. pose proof (take_drop_middle vocabulary i c Hi) as Hsplit.
  rewrite <- (otherItems_middle (take i vocabulary) c (drop (S i) vocabulary));
    by rewrite Hsplit.
Qed.

Lemma otherItems_perm (i : nat) (c : Vocabulary) :
  vocabulary !! i = Some c -> c :: otherItems c vocabulary ≡ₚ vocabulary.
Proof using keys_unique.
  intros Hi. rewrite (otherItems_split i c Hi).
  rewrite <- (take_drop_middle vocabulary i c Hi) at 3.
  by rewrite Permutation_middle.
Qed.

Lemma otherItems_length (i : nat) (c : Vocabulary) :
  vocabulary !! i = Some c ->
  length (otherItems c vocabulary) = (length vocabulary - 1)%nat.
Proof using keys_unique.
  intros Hi. rewrite <- (otherItems_perm i c Hi) at 2. simpl. lia.
Qed.

Lemma distractors_submseteq (i : nat) (c : Vocabulary) :
  distractors shuffle i c vocabulary ⊆+ otherItems c vocabulary.
Proof using shuffle_perm.
  unfold distractors. etrans; [apply submseteq_take|].
  apply Permutation_submseteq, shuffle_perm.
Qed.

Lemma distractors_length (i : nat) (c : Vocabulary) :
  vocabulary !! i = Some c -> (4 <= length vocabulary)%nat ->
  length (distractors shuffle i c vocabulary) = 3%nat.
Proof using shuffle_perm keys_unique.
  intros Hi Hlen. unfold distractors.
  rewrite length_take, shuffle_perm, (otherItems_length i c Hi). lia.
Qed.

(** With a pool of four the three other items are all taken. *)
Lemma distractors_all (i : nat) (c : Vocabulary) :
  vocabulary !! i = Some c -> length vocabulary = 4%nat ->
  distractors shuffle i c vocabulary ≡ₚ otherItems c vocabulary.
Proof using shuffle_perm keys_unique.
  intros Hi Hlen. unfold distractors.
  rewrite take_ge; [apply shuffle_perm|].
  rewrite shuffle_perm, (otherItems_length i c Hi). lia.
Qed.

End MultipleChoiceFacts.

(** What a multiple-choice question built from the pool item [c] offers:
    four options, a shuffle of the target texts of three distinct pool
    items other than [c] followed by the target text of [c]. *)
Definition choiceFrom (vocabulary : list Vocabulary) (c : Vocabulary) (q : NewQuiz) : Prop :=
  nq_type q = MultipleChoice /\ nq_answer q = french c /\
  exists (ds : list Vocabulary) (opts : list string),
    nq_options q = Some opts
    /\ length opts = 4%nat
    /\ french c ∈ opts
    /\ length ds = 3%nat
    /\ NoDup (voc_id <$> ds)
    /\ (forall d, d ∈ ds -> d ∈ vocabulary /\ voc_id d <> voc_id c)
    /\ opts ≡ₚ (french <$> ds) ++ [french c]
    /\ ((forall d, d ∈ vocabulary -> voc_id d <> voc_id c -> french d <> french c) ->
        count (fun o => o = french c) opts = 1%nat)
    /\ (NoDup (french <$> vocabulary) -> NoDup opts).

Lemma multipleChoice_choiceFrom (shuffle : forall A : Type, nat -> list A -> list A)
    (moduleId : nat) (vocabulary : list Vocabulary) (i : nat) (c : Vocabulary) :
  (forall (A : Type) (k : nat) (l : list A), shuffle A k l ≡ₚ l) ->
  NoDup (voc_id <$> vocabulary) ->
  (4 <= length vocabulary)%nat ->
  vocabulary !! i = Some c ->
  exists q, multipleChoice shuffle moduleId vocabulary i = Some q
            /\ choiceFrom vocabulary c q.
Proof.
  intros Hperm Hkeys Hlen Hi. unfold multipleChoice. rewrite Hi. simpl.
  eexists. split; [reflexivity|].
  set (ds := distractors shuffle i c vocabulary).
  assert (Hsub : ds ⊆+ otherItems c vocabulary)
    by by apply distractors_submseteq.
  assert (Hsubv : c :: ds ⊆+ vocabulary).
  { rewrite <- (otherItems_perm vocabulary Hkeys i c Hi).
    by apply (submseteq_skips_l [c]). }
  assert (Hopts : shuffle string (2 * i + 1)%nat ((french <$> ds) ++ [french c])
                  ≡ₚ (french <$> ds) ++ [french c]) by apply Hperm.
  split; [done|]. split; [done|]. exists ds. eexists.
  split; [reflexivity|]. cbn [nq_options nq_answer nq_type].
  split; [|split; [|split; [|split; [|split; [|split; [|split]]]]]].
  - rewrite Hopts, length_app, length_fmap. subst ds.
    rewrite (distractors_length shuffle Hperm vocabulary Hkeys i c Hi Hlen). done.
  - rewrite Hopts. apply elem_of_app. right. by apply list_elem_of_singleton.
  - by apply (distractors_length shuffle Hperm vocabulary Hkeys i c Hi Hlen).
  - apply (NoDup_of_submseteq _ (voc_id <$> vocabulary)); [|done].
    apply fmap_submseteq. etrans; [|exact Hsubv]. by apply submseteq_cons.
  - intros d Hd. apply (elem_of_submseteq _ _ _ Hd) in Hsub.
    apply list_elem_of_filter in Hsub as [Hne Hin]. done.
  - done.
  - intros Hother. unfold count. rewrite Hopts, filter_app, length_app.
    rewrite filter_Forall_nil.
    + rewrite filter_cons_True by done. done.
    + apply Forall_forall. intros o (d & -> & Hd)%list_elem_of_fmap.
      apply (elem_of_submseteq _ _ _ Hd) in Hsub.
      apply list_elem_of_filter in Hsub as [Hne Hin]. by apply Hother.
  - intros Hfr. rewrite Hopts, <- Permutation_cons_append.
    apply (NoDup_of_submseteq _ (french <$> vocabulary)); [|done].
    change (french c :: (french <$> ds)) with (french <$> c :: ds).
    by apply fmap_submseteq.
Qed.

Lemma forPush_Some {A} (n : nat) (body : nat -> option A) :
  (forall i, (i < n)%nat -> is_Some (body i)) ->
  exists l, forPush n body = Some l /\ length l = n
            /\ forall i x, l !! i = Some x -> (i < n)%nat /\ body i = Some x.
Proof.
  intros Hbody. unfold forPush.
  destruct (mapM_is_Some_2 body (seq 0 n)) as [l Hl].
  { apply Forall_forall. intros i [_ Hi]%elem_of_seq. apply Hbody. lia. }
  exists l. split; [done|]. apply mapM_Some_1 in Hl.
  split.
  - apply Forall2_length in Hl. by rewrite length_seq in Hl.
  - intros i x Hx.
    destruct (Forall2_lookup_r _ _ _ _ _ Hl Hx) as (j & Hj & Hb).
    apply lookup_seq in Hj as [-> Hlt]. done.
Qed.

Lemma forPush_None {A} (n : nat) (body : nat -> option A) (i : nat) :
  (i < n)%nat -> body i = None -> forPush n body = None.
Proof.
  intros Hi Hb. unfold forPush. apply mapM_None_2, Exists_exists.
  exists i. split; [|done]. apply elem_of_seq. lia.
Qed.

(** The questions of the multiple-choice step, one by one. *)
Lemma multipleChoice_questions (shuffle : forall A : Type, nat -> list A -> list A)
    (moduleId : nat) (vocabulary : list Vocabulary) :
  (forall (A : Type) (k : nat) (l : list A), shuffle A k l ≡ₚ l) ->
  NoDup (voc_id <$> vocabulary) ->
  (4 <= length vocabulary)%nat ->
  exists mc,
    forPush (length vocabulary `min` 5) (multipleChoice shuffle moduleId vocabulary)
    = Some mc
    /\ length mc = (length vocabulary `min` 5)%nat
    /\ forall i q, mc !! i = Some q ->
         exists c, vocabulary !! i = Some c /\ choiceFrom vocabulary c q.
Proof.
  intros Hperm Hkeys Hlen.
  destruct (forPush_Some (length vocabulary `min` 5)
              (multipleChoice shuffle moduleId vocabulary)) as (mc & Hmc & Hn & Hq).
  { intros i Hi.
    destruct (lookup_lt_is_Some_2 vocabulary i) as [c Hc]; [lia|].
    destruct (multipleChoice_choiceFrom shuffle moduleId vocabulary i c)
      as (q & -> & _); done. }
  exists mc. split; [done|]. split; [done|].
  intros i q Hi. apply Hq in Hi as [Hlt Hi].
  destruct (lookup_lt_is_Some_2 vocabulary i) as [c Hc]; [lia|].
  exists c. split; [done|].
  destruct (multipleChoice_choiceFrom shuffle moduleId vocabulary i c)
    as (q' & Hq' & Hch); try done.
  congruence.
Qed.

(** C3 (as it holds): for a pool of at least four items with distinct
    keys, the multiple-choice step emits one question for each of the first
    min(5, length) items; each has exactly four options, a shuffle of the
    target text of the item and the target texts of three distractors; the
    distractors are three distinct pool items, none of them the correct
    item, so none is drawn twice; the correct answer is among the options,
    and it is there exactly once when no other pool item has the same
    target text; no option is repeated when no two pool items share a
    target text. *)
Theorem multipleChoice_spec (shuffle : forall A : Type, nat -> list A -> list A)
    (moduleId : nat) (vocabulary : list Vocabulary) :
  (forall (A : Type) (k : nat) (l : list A), shuffle A k l ≡ₚ l) ->
  NoDup (voc_id <$> vocabulary) ->
  (4 <= length vocabulary)%nat ->
  exists mc,
    forPush (length vocabulary `min` 5) (multipleChoice shuffle moduleId vocabulary)
    = Some mc
    /\ length mc = (length vocabulary `min` 5)%nat
    /\ forall i q, mc !! i = Some q ->
         exists c, vocabulary !! i = Some c /\ choiceFrom vocabulary c q.
Proof. apply multipleChoice_questions. Qed.

(** *** The fill-in-blank and audio steps *)

Lemma windowIndex_wrap (off : nat) (vocabulary : list Vocabulary) (i : nat) :
  (length vocabulary < i + off)%nat -> windowIndex off vocabulary i = i.
Proof. intros H. unfold windowIndex. apply Nat.ltb_lt in H. by rewrite H. Qed.

Lemma windowIndex_offset (off : nat) (vocabulary : list Vocabulary) (i : nat) :
  (i + off <= length vocabulary)%nat -> windowIndex off vocabulary i = (i + off)%nat.
Proof. intros H. unfold windowIndex. apply Nat.ltb_ge in H. by rewrite H. Qed.

(** The guard [i + off > length] lets the index [length] itself through. *)
Lemma windowIndex_outside (off : nat) (vocabulary : list Vocabulary) (i : nat) :
  length vocabulary = (i + off)%nat ->
  vocabulary !! windowIndex off vocabulary i = None.
Proof.
  intros H. rewrite windowIndex_offset by lia. apply lookup_ge_None. lia.
Qed.

Lemma windowIndex_inside (off : nat) (vocabulary : list Vocabulary) (i : nat) :
  (i < length vocabulary)%nat -> length vocabulary <> (i + off)%nat ->
  is_Some (vocabulary !! windowIndex off vocabulary i).
Proof.
  intros Hi Hne. apply lookup_lt_is_Some.
  destruct (Nat.ltb_spec (length vocabulary) (i + off)) as [Hlt|Hge].
  - by rewrite windowIndex_wrap.
  - rewrite windowIndex_offset by done. lia.
Qed.

Section GenerationFacts.

Context (shuffle : forall A : Type, nat -> list A -> list A).
Context (moduleId : nat) (vocabulary : list Vocabulary).

Lemma multipleChoice_is_Some (i : nat) :
  (i < length vocabulary)%nat ->
  is_Some (multipleChoice shuffle moduleId vocabulary i).
Proof.
  intros Hi. apply lookup_lt_is_Some in Hi as [c Hc].
  unfold multipleChoice. rewrite Hc. by eexists.
Qed.

(** Pools of five to nine items make one of the two windows read the
    element just past the end of the pool. *)
Lemma newQuizzes_throws :
  (5 <= length vocabulary <= 9)%nat ->
  newQuizzes shuffle moduleId vocabulary = None.
Proof.
  intros Hlen. unfold newQuizzes.
  destruct (forPush _ (multipleChoice _ _ _)) as [mc|]; [simpl|done].
  destruct (decide (length vocabulary <= 7)%nat) as [H7|H7].
  - rewrite (forPush_None (length vocabulary `min` 3)
               (fillInBlank moduleId vocabulary) (length vocabulary - 5));
      [reflexivity| |].
    + apply Nat.min_glb_lt; lia.
    + unfold fillInBlank. rewrite windowIndex_outside; [done|lia].
  - destruct (forPush _ (fillInBlank _ _)) as [fib|]; [simpl|done].
    rewrite (forPush_None (length vocabulary `min` 2)
               (audio moduleId vocabulary) (length vocabulary - 8));
      [reflexivity| |].
    + apply Nat.min_glb_lt; lia.
    + unfold audio. rewrite windowIndex_outside; [done|lia].
Qed.

(** All other pools go through the three steps. *)
Lemma newQuizzes_Some :
  ~ (5 <= length vocabulary <= 9)%nat ->
  exists mc fib au,
    newQuizzes shuffle moduleId vocabulary = Some (mc ++ fib ++ au)
    /\ forPush (length vocabulary `min` 5)
         (multipleChoice shuffle moduleId vocabulary) = Some mc
    /\ length mc = (length vocabulary `min` 5)%nat
    /\ length fib = (length vocabulary `min` 3)%nat
    /\ length au = (length vocabulary `min` 2)%nat
    /\ (forall i q, fib !! i = Some q ->
          exists item, vocabulary !! windowIndex 5 vocabulary i = Some item
            /\ q = mkNewQuiz moduleId FillInBlank
                     ("Complétez: ___ (" +:+ french item +:+ ")")
                     None (portuguese item) false)
    /\ (forall i q, au !! i = Some q ->
          exists item, vocabulary !! windowIndex 8 vocabulary i = Some item
            /\ q = mkNewQuiz moduleId Audio
                     ("Écoutez et écrivez: (audio: " +:+ quote
                        +:+ portuguese item +:+ quote +:+ ")")
                     None (portuguese item) false).
Proof.
  intros Hlen. unfold newQuizzes.
  destruct (forPush_Some (length vocabulary `min` 5)
              (multipleChoice shuffle moduleId vocabulary))
    as (mc & Hmc & Hnmc & _).
  { intros i Hi. apply multipleChoice_is_Some. lia. }
  destruct (forPush_Some (length vocabulary `min` 3)
              (fillInBlank moduleId vocabulary)) as (fib & Hfib & Hnfib & Hqfib).
  { intros i Hi. unfold fillInBlank.
    destruct (windowIndex_inside 5 vocabulary i) as [item ->]; [lia|lia|].
    by eexists. }
  destruct (forPush_Some (length vocabulary `min` 2)
              (audio moduleId vocabulary)) as (au & Hau & Hnau & Hqau).
  { intros i Hi. unfold audio.
    destruct (windowIndex_inside 8 vocabulary i) as [item ->]; [lia|lia|].
    by eexists. }
  exists mc, fib, au. rewrite Hmc, Hfib, Hau. simpl.
  repeat split; try done.
  - intros i q Hq. apply Hqfib in Hq as [_ Hq]. unfold fillInBlank in Hq.
    destruct (vocabulary !! windowIndex 5 vocabulary i) as [item|]; [|done].
    exists item. simpl in Hq. by injection Hq as <-.
  - intros i q Hq. apply Hqau in Hq as [_ Hq]. unfold audio in Hq.
    destruct (vocabulary !! windowIndex 8 vocabulary i) as [item|]; [|done].
    exists item. simpl in Hq. by injection Hq as <-.
Qed.

Lemma newQuizzes_moduleId (news : list NewQuiz) :
  newQuizzes shuffle moduleId vocabulary = Some news ->
  Forall (fun q => nq_moduleId q = moduleId) news.
Proof.
  unfold newQuizzes, forPush. intros H.
  destruct (mapM (multipleChoice _ _ _) _) as [mc|] eqn:Hmc; [simpl in H|done].
  destruct (mapM (fillInBlank _ _) _) as [fib|] eqn:Hfib; [simpl in H|done].
  destruct (mapM (audio _ _) _) as [au|] eqn:Hau; [simpl in H|done].
  injection H as <-. rewrite !Forall_app. repeat split.
  - apply mapM_Some_1 in Hmc. apply Forall_forall. intros q Hq.
    apply list_elem_of_lookup_1 in Hq as [i Hq].
    destruct (Forall2_lookup_r _ _ _ _ _ Hmc Hq) as (j & _ & Hb).
    unfold multipleChoice in Hb.
    destruct (vocabulary !! j); simpl in Hb; [by injection Hb as <- | done].
  - apply mapM_Some_1 in Hfib. apply Forall_forall. intros q Hq.
    apply list_elem_of_lookup_1 in Hq as [i Hq].
    destruct (Forall2_lookup_r _ _ _ _ _ Hfib Hq) as (j & _ & Hb).
    unfold fillInBlank in Hb.
    destruct (vocabulary !! _); simpl in Hb; [by injection Hb as <- | done].
  - apply mapM_Some_1 in Hau. apply Forall_forall. intros q Hq.
    apply list_elem_of_lookup_1 in Hq as [i Hq].
    destruct (Forall2_lookup_r _ _ _ _ _ Hau Hq) as (j & _ & Hb).
    unfold audio in Hb.
    destruct (vocabulary !! _); simpl in Hb; [by injection Hb as <- | done].
Qed.

End GenerationFacts.

(** *** The whole generation *)

(** A stored question without its key. *)
Definition withoutId (q : Quiz) : NewQuiz :=
  mkNewQuiz (quiz_moduleId q) (quiz_type q) (question q) (options q) (answer q)
    (quiz_completed q).

Lemma filter_ofModule_stored (moduleId : nat) (ids : list nat) (news : list NewQuiz) :
  Forall (fun q => nq_moduleId q = moduleId) news ->
  filter (ofModule moduleId) (zip_with withId ids news) = zip_with withId ids news.
Proof.
  intros Hnews. apply filter_Forall_id, Forall_forall. intros q Hq.
  apply list_elem_of_lookup in Hq as [i Hq].
  apply lookup_zip_with_Some in Hq as (id & nq & -> & _ & Hnq).
  rewrite Forall_forall in Hnews. apply Hnews.
  by eapply list_elem_of_lookup_2.
Qed.

Section WholeGeneration.

Context (shuffle : forall A : Type, nat -> list A -> list A).
Context (moduleId : nat) (a : App).

Let result := generateQuizForModule shuffle moduleId a.

Lemma generateQuizForModule_unfold :
  (4 <= length (pool moduleId a))%nat ->
  result
  = let a2 := fetchVocabularyByModule moduleId
                (set_db (deleteQuizzes moduleId (db a)) a) in
    match newQuizzes shuffle moduleId (pool moduleId a) with
    | None => (a2, ThrewTypeError)
    | Some news =>
        let '(d, lastKey) := bulkAdd news (db a2) in
        (fetchQuizzesByModule moduleId (set_db d a2), Generated lastKey)
    end.
Proof.
  intros Hlen. unfold result, generateQuizForModule.
  cbn [fetchVocabularyByModule set_vocabularyStore vocabularyStore
         currentModuleVocabulary set_db db deleteQuizzes set_quizzes vocabulary].
  fold (pool moduleId a).
  apply Nat.ltb_ge in Hlen. by rewrite Hlen.
Qed.

(** A pool of five to nine items: the call throws after the deletion. *)
Lemma generateQuizForModule_throws :
  (5 <= length (pool moduleId a) <= 9)%nat ->
  result.2 = ThrewTypeError
  /\ filter (ofModule moduleId) (quizzes (db result.1)) = []
  /\ quizNextId (db result.1) = quizNextId (db a).
Proof.
  intros Hlen. rewrite generateQuizForModule_unfold by lia.
  rewrite newQuizzes_throws by done. simpl.
  split; [done|]. split; [|done]. apply (deleteQuizzes_none moduleId (db a)).
Qed.

(** Any other pool of four or more: the questions are stored under fresh
    keys and loaded into the quiz store. *)
Lemma generateQuizForModule_stored (news : list NewQuiz) :
  (4 <= length (pool moduleId a))%nat ->
  newQuizzes shuffle moduleId (pool moduleId a) = Some news ->
  (exists lastKey, result.2 = Generated lastKey)
  /\ filter (ofModule moduleId) (quizzes (db result.1))
     = qs_quizzes (quizStore result.1)
  /\ withoutId <$> qs_quizzes (quizStore result.1) = news
  /\ quiz_id <$> qs_quizzes (quizStore result.1)
     = seq (quizNextId (db a)) (length news)
  /\ qs_error (quizStore result.1) = None.
Proof.
  intros Hlen Hnews. rewrite generateQuizForModule_unfold by done.
  rewrite Hnews. simpl.
  pose proof (newQuizzes_moduleId shuffle moduleId _ news Hnews) as Hmod.
  rewrite filter_app, filter_ofModule_deleted, filter_ofModule_stored by done.
  simpl.
  split; [by eexists|]. split; [done|].
  split; [|split; [|done]].
  - apply fmap_zip_with_r; [by intros ? []|]. by rewrite length_seq.
  - apply fmap_zip_with_l; [by intros ? []|]. by rewrite length_seq.
Qed.

End WholeGeneration.

Lemma pool_keys_unique (moduleId : nat) (a : App) :
  NoDup (voc_id <$> vocabulary (db a)) -> NoDup (voc_id <$> pool moduleId a).
Proof.
  apply NoDup_of_submseteq, fmap_submseteq, sublist_submseteq, sublist_filter.
Qed.

(** C9 (as it holds): for a pool of exactly four items (with distinct
    keys) the generation succeeds and stores nine questions for the module:
    four multiple-choice questions, one per pool item, followed by three
    fill-in-blank and two audio questions.  Each multiple-choice question
    has four options, a shuffle of the four target texts of the pool, so
    its three distractors are the three other items; the correct answer is
    among the options, exactly once when no other pool item has the same
    target text, and no option is repeated when the four target texts
    differ. *)
Theorem generateQuizForModule_four (shuffle : forall A : Type, nat -> list A -> list A)
    (moduleId : nat) (a : App) :
  (forall (A : Type) (k : nat) (l : list A), shuffle A k l ≡ₚ l) ->
  NoDup (voc_id <$> vocabulary (db a)) ->
  length (pool moduleId a) = 4%nat ->
  let result := generateQuizForModule shuffle moduleId a in
  let stored := qs_quizzes (quizStore result.1) in
  (exists lastKey, result.2 = Generated lastKey)
  /\ filter (ofModule moduleId) (quizzes (db result.1)) = stored
  /\ exists mc rest,
       withoutId <$> stored = mc ++ rest
       /\ length mc = 4%nat /\ length rest = 5%nat
       /\ Forall (fun q => nq_type q <> MultipleChoice) rest
       /\ nq_type <$> rest = [FillInBlank; FillInBlank; FillInBlank; Audio; Audio]
       /\ forall i q, mc !! i = Some q ->
            exists c opts,
              pool moduleId a !! i = Some c
              /\ nq_type q = MultipleChoice
              /\ nq_answer q = french c
              /\ nq_options q = Some opts
              /\ length opts = 4%nat
              /\ opts ≡ₚ french <$> pool moduleId a
              /\ french c ∈ opts
              /\ ((forall d, d ∈ pool moduleId a -> voc_id d <> voc_id c ->
                             french d <> french c) ->
                  count (fun o => o = french c) opts = 1%nat)
              /\ (NoDup (french <$> pool moduleId a) -> NoDup opts).
Proof.
  intros Hperm Hkeys Hlen result stored.
  apply (pool_keys_unique moduleId) in Hkeys.
  destruct (newQuizzes_Some shuffle moduleId (pool moduleId a))
    as (mc & fib & au & Hnew & Hmc & Hnmc & Hnfib & Hnau & Hfib & Hau); [lia|].
  destruct (generateQuizForModule_stored shuffle moduleId a _ ltac:(lia) Hnew)
    as (Hres & Hdb & Hstored & _).
  destruct (multipleChoice_questions shuffle moduleId (pool moduleId a) Hperm Hkeys)
    as (mc' & Hmc' & _ & Hch); [lia|].
  rewrite Hmc in Hmc'. injection Hmc' as <-.
  split; [done|]. split; [done|]. exists mc, (fib ++ au).
  split; [done|]. split; [lia|]. split; [rewrite length_app; lia|].
  split; [|split].
  - apply Forall_app. split; apply Forall_forall; intros q Hq;
      apply list_elem_of_lookup in Hq as [i Hq].
    + by destruct (Hfib i q Hq) as (item & _ & ->).
    + by destruct (Hau i q Hq) as (item & _ & ->).
  - rewrite Hlen in Hnfib, Hnau. rewrite fmap_app.
    destruct fib as [|f1 [|f2 [|f3 [|? ?]]]]; try (simpl in Hnfib; lia).
    destruct au as [|a1 [|a2 [|? ?]]]; try (simpl in Hnau; lia).
    destruct (Hfib 0%nat f1 eq_refl) as (? & _ & ->).
    destruct (Hfib 1%nat f2 eq_refl) as (? & _ & ->).
    destruct (Hfib 2%nat f3 eq_refl) as (? & _ & ->).
    destruct (Hau 0%nat a1 eq_refl) as (? & _ & ->).
    destruct (Hau 1%nat a2 eq_refl) as (? & _ & ->).
    reflexivity.
  - intros i q Hq.
    destruct (Hch i q Hq)
      as (c & Hc & Hty & Hans & ds & opts & Hopts & Hn & Hin & Hnds & Hkds & Hds
          & Hshuf & Honce & Hfr).
    exists c, opts. repeat (split; [done|]). split; [|split; [done|split; done]].
    assert (ds ≡ₚ otherItems c (pool moduleId a)) as Hall.
    { apply submseteq_length_Permutation.
      - apply NoDup_submseteq; [by eapply NoDup_fmap_1|].
        intros d Hd. apply list_elem_of_filter. by apply Hds in Hd as [? ?].
      - rewrite (otherItems_length _ Hkeys i c Hc). lia. }
    rewrite Hshuf, Hall, <- Permutation_cons_append.
    change (french c :: (french <$> otherItems c (pool moduleId a)))
      with (french <$> c :: otherItems c (pool moduleId a)).
    by rewrite (otherItems_perm _ Hkeys i c Hc).
Qed.

(** *** Sample data *)

Definition word (id moduleId : nat) (pt fr : string) (isLearnt : bool)
    (reviewed : option Date) : Vocabulary :=
  mkVocabulary id pt fr None None isLearnt reviewed 0 moduleId (Some 1%nat).

Definition casa : Vocabulary := word 1 1 "casa" "maison" false None.
Definition carro : Vocabulary := word 2 1 "carro" "voiture" false None.
Definition livro : Vocabulary := word 3 1 "livro" "livre" false None.
Definition agua : Vocabulary := word 4 1 "agua" "eau" false None.
Definition gato : Vocabulary := word 5 1 "gato" "chat" false None.
(** A second word for "maison". *)
Definition lar : Vocabulary := word 2 1 "lar" "maison" false None.

Definition emptyQuizStore : QuizStore := mkQuizStore [] None 0 [] None.

Definition oldQuestion (id moduleId : nat) : Quiz :=
  mkQuiz id moduleId Audio "old" None "casa" false.

(** An application whose module 1 has the given words and two stored
    questions, and whose module 2 has one stored question. *)
Definition appWith (words : list Vocabulary) : App :=
  mkApp
    (mkDB words ∅ [] [oldQuestion 1 1; oldQuestion 2 2; oldQuestion 3 1] 4)
    (mkVocabularyStore [] [] None) emptyQuizStore (mkModuleStore [] None).

(** A shuffle that turns every list round. *)
Definition reverseShuffle : forall A : Type, nat -> list A -> list A :=
  fun _ _ l => reverse l.

Lemma reverseShuffle_perm (A : Type) (k : nat) (l : list A) :
  reverseShuffle A k l ≡ₚ l.
Proof. apply reverse_Permutation. Qed.

Lemma generateQuizForModule_insufficient_witness :
  (generateQuizForModule reverseShuffle 1 (appWith [casa; carro; livro])).2
  = ReturnedFalse.
Proof.
  apply (generateQuizForModule_insufficient reverseShuffle 1
           (appWith [casa; carro; livro])).
  vm_compute. lia.
Defined.

Lemma generateQuizForModule_failure_deletes_witness :
  filter (ofModule 1) (quizzes (db (appWith [casa; carro; livro])))
  = [oldQuestion 1 1; oldQuestion 3 1]
  /\ filter (ofModule 1)
       (quizzes (db (generateQuizForModule reverseShuffle 1
                       (appWith [casa; carro; livro])).1)) = [].
Proof.
  split; [reflexivity|].
  apply (generateQuizForModule_failure_deletes reverseShuffle 1
           (appWith [casa; carro; livro])).
  vm_compute. lia.
Defined.

(** C3, the claim as stated fails: in a pool of four items where two words
    share the target text "maison", the question for "casa" offers its
    correct answer twice. *)
Lemma multipleChoice_answer_twice :
  exists q,
    multipleChoice reverseShuffle 1 [casa; lar; livro; agua] 0 = Some q
    /\ nq_answer q = "maison"
    /\ nq_options q = Some ["maison"; "maison"; "livre"; "eau"]
    /\ count (fun o => o = "maison") ["maison"; "maison"; "livre"; "eau"] = 2%nat.
Proof. eexists. repeat split. Qed.

Lemma multipleChoice_spec_witness :
  exists mc,
    forPush 4 (multipleChoice reverseShuffle 1 [casa; carro; livro; agua]) = Some mc
    /\ length mc = 4%nat
    /\ forall i q, mc !! i = Some q ->
         exists c, [casa; carro; livro; agua] !! i = Some c
                   /\ choiceFrom [casa; carro; livro; agua] c q.
Proof.
  apply (multipleChoice_spec reverseShuffle 1 [casa; carro; livro; agua]).
  - apply reverseShuffle_perm.
  - apply (bool_decide_unpack _). vm_compute. exact I.
  - simpl. lia.
Defined.

(** C9, the claim as stated fails: a pool of exactly four items yields
    four multiple-choice questions, not one. *)
Lemma generateQuizForModule_four_not_one :
  let stored :=
    qs_quizzes (quizStore (generateQuizForModule reverseShuffle 1
                             (appWith [casa; carro; livro; agua])).1) in
  length (pool 1 (appWith [casa; carro; livro; agua])) = 4%nat
  /\ quiz_type <$> stored
     = [MultipleChoice; MultipleChoice; MultipleChoice; MultipleChoice;
        FillInBlank; FillInBlank; FillInBlank; Audio; Audio]
  /\ count (fun q => quiz_type q = MultipleChoice) stored <> 1%nat.
Proof. vm_compute. repeat split. lia. Qed.

Lemma generateQuizForModule_four_witness :
  exists lastKey,
    (generateQuizForModule reverseShuffle 1 (appWith [casa; carro; livro; agua])).2
    = Generated lastKey.
Proof.
  apply (generateQuizForModule_four reverseShuffle 1
           (appWith [casa; carro; livro; agua])).
  - apply reverseShuffle_perm.
  - apply (bool_decide_unpack _). vm_compute. exact I.
  - reflexivity.
Defined.

(** C4, the code at a pool of five items: the first fill-in-blank index is
    5, one past the last item, the lookup yields [undefined] and the
    generation throws; the earlier questions of the module are gone and
    none is stored. *)
Theorem generateQuizForModule_five_throws
    (shuffle : forall A : Type, nat -> list A -> list A) :
  let words := [casa; carro; livro; agua; gato] in
  let result := generateQuizForModule shuffle 1 (appWith words) in
  windowIndex 5 words 0 = 5%nat
  /\ words !! windowIndex 5 words 0 = None
  /\ result.2 = ThrewTypeError
  /\ filter (ofModule 1) (quizzes (db result.1)) = [].
Proof.
  intros words result. split; [done|]. split; [done|].
  destruct (generateQuizForModule_throws shuffle 1 (appWith words)) as (H1 & H2 & _).
  - vm_compute. lia.
  - done.
Qed.

(** ** Quiz completion *)

Lemma find_updateFirst (id : nat) (f : Module_ -> Module_) (l : list (nat * Module_)) :
  List.find (fun m => Nat.eqb m.1 id) (updateFirst id f l)
  = (fun m => (m.1, f m.2)) <$> List.find (fun m => Nat.eqb m.1 id) l.
Proof.
  induction l as [|m l IH]; simpl; [done|].
  destruct (Nat.eqb m.1 id) eqn:Hm; simpl; by rewrite Hm.
Qed.

Lemma getModuleById_key (ms : ModuleStore) (id : nat) (m : nat * Module_) :
  getModuleById ms id = Some m -> m.1 = id.
Proof.
  unfold getModuleById. intros [_ H]%find_some. by apply Nat.eqb_eq.
Qed.

(** C7, the claim as stated fails: a session ends with a score of 100 for
    module 1, which the database holds, while the module store has no
    module loaded; the module is not marked. *)
Lemma completeQuiz_unloaded_module :
  let m := mkModule "Maison" "La maison" "A1" "maison" 1 false (of_Z 50) 4 in
  let a := mkApp (mkDB [] {[ 1%nat := m ]} [] [] 1)
             (mkVocabularyStore [] [] None) emptyQuizStore (mkModuleStore [] None) in
  modules (db (completeQuiz 1 100 a)) !! 1%nat = Some m
  /\ completed m = false /\ progress m = of_Z 50.
Proof. repeat split. Qed.

(** C7 (as it holds): [completeQuiz] marks the module completed, with a
    progress of 100, in the database and in the module store, when the
    score is at least 70 and the module store has the module loaded; with
    a score below 70, or a module that is not loaded, it changes nothing. *)
Theorem completeQuiz_spec (moduleId : nat) (score : Z) (a : App) :
  let a' := completeQuiz moduleId score a in
  (70 <= score -> is_Some (getModuleById (moduleStore a) moduleId) ->
     modules (db a') = alter markCompleted moduleId (modules (db a))
     /\ (forall m, modules (db a) !! moduleId = Some m ->
           modules (db a') !! moduleId = Some (markCompleted m))
     /\ (exists m, getModuleById (moduleStore a') moduleId
                   = Some (moduleId, markCompleted m))
     /\ (forall m, completed (markCompleted m) = true
                   /\ progress (markCompleted m) = of_Z 100)
     /\ vocabulary (db a') = vocabulary (db a)
     /\ quizzes (db a') = quizzes (db a))
  /\ (score < 70 \/ getModuleById (moduleStore a) moduleId = None -> a' = a).
Proof.
  intros a'. subst a'. unfold completeQuiz. split.
  - intros Hscore [m Hm]. rewrite Hm.
    apply Z.leb_le in Hscore. rewrite Hscore.
    unfold updateModule. cbn [db set_db set_moduleStore moduleStore modules
      set_modules vocabulary quizzes ms_modules].
    split; [done|]. split; [|split; [|done]].
    + intros m0 Hm0. by rewrite lookup_alter_eq, Hm0.
    + exists m.2. unfold getModuleById in *. cbn [ms_modules].
      rewrite find_updateFirst, Hm. simpl.
      by rewrite (getModuleById_key (moduleStore a) moduleId m Hm).
  - intros [Hscore|Hnone].
    + apply Z.leb_gt in Hscore. rewrite Hscore. by destruct (getModuleById _ _).
    + by rewrite Hnone.
Qed.

Lemma completeQuiz_spec_witness :
  let m := mkModule "Maison" "La maison" "A1" "maison" 1 false (of_Z 50) 4 in
  let a := mkApp (mkDB [] {[ 1%nat := m ]} [] [] 1)
             (mkVocabularyStore [] [] None) emptyQuizStore
             (mkModuleStore [(1%nat, m)] None) in
  modules (db (completeQuiz 1 70 a)) !! 1%nat = Some (markCompleted m)
  /\ completeQuiz 1 60 a = a.
Proof.
  intros m a.
  destruct (completeQuiz_spec 1 70 a) as [Hpass _].
  destruct (completeQuiz_spec 1 60 a) as [_ Hfail].
  split.
  - destruct Hpass as (_ & H & _); [lia | by eexists |]. by apply H.
  - apply Hfail. left. lia.
Defined.

(** The completion handler of the view: whatever the points of the session
    and the id of the quiz object, the module of the route ends with what
    [updateModuleProgress] recomputes, which is a progress of 0 and no
    completion, the learned query counting no row: a completion that the
    quiz store wrote a moment before is overwritten. *)
Lemma viewCompleteQuiz_recomputes (moduleId : nat) (s : Session) (a : App) (q : ViewQuiz) :
  quiz s = Some q ->
  Z.of_nat (totalWords moduleId (db a)) < 2 ^ 53 ->
  let a' := (viewCompleteQuiz moduleId s a).1.2 in
  modules (db a') !! moduleId
  = setProgress (of_Z 0) false <$> modules (db a) !! moduleId.
Proof.
  intros Hq Hb. unfold viewCompleteQuiz. rewrite Hq. cbn [fst snd].
  unfold updateProgress, fetchModules.
  cbn [db set_db set_moduleStore].
  set (a1 := completeQuiz (vq_id q) (score (results s)) a).
  assert (Hvoc : vocabulary (db a1) = vocabulary (db a)).
  { subst a1. unfold completeQuiz, updateModule.
    destruct (getModuleById _ _); [|done]. by destruct (70 <=? _). }
  assert (Hmod : modules (db a1) = modules (db a)
                 \/ modules (db a1) = alter markCompleted (vq_id q) (modules (db a))).
  { subst a1. unfold completeQuiz, updateModule.
    destruct (getModuleById _ _); [|by left].
    destruct (70 <=? _); [by right | by left]. }
  rewrite updateModuleProgress_zero by (unfold totalWords; by rewrite Hvoc).
  cbn [modules set_modules]. rewrite lookup_alter_eq.
  destruct Hmod as [-> | ->]; [done|].
  destruct (decide (vq_id q = moduleId)) as [-> | Hne].
  - rewrite lookup_alter_eq. by destruct (modules (db a) !! moduleId).
  - by rewrite lookup_alter_ne.
Qed.

(** A session of 100 points on module 1, whose four words are all learned,
    the module being loaded in the store: the quiz store marks the module
    completed, and after the handler of the view the module holds a
    progress of 0 and is not completed. *)
Lemma viewCompleteQuiz_sample :
  let m := mkModule "Maison" "La maison" "A1" "maison" 1 false (of_Z 0) 4 in
  let words := [word 1 1 "casa" "maison" true None; word 2 1 "carro" "voiture" true None;
                word 3 1 "livro" "livre" true None; word 4 1 "agua" "eau" true None] in
  let a := mkApp (mkDB words {[ 1%nat := m ]} [] [] 1)
             (mkVocabularyStore [] [] None) emptyQuizStore
             (mkModuleStore [(1%nat, m)] None) in
  let s := mkSession (Some (mkViewQuiz 1 (Some []))) 0 None false false
             (mkResults 100 10 10 0 false) in
  modules (db (completeQuiz 1 100 a)) !! 1%nat = Some (markCompleted m)
  /\ modules (db (viewCompleteQuiz 1 s a).1.2) !! 1%nat
     = Some (setProgress (of_Z 0) false m).
Proof. vm_compute. split; reflexivity. Qed.

(** ** Quiz session *)

(** C8: an answer is taken once per question: once [hasAnswered] is set a
    further call leaves the whole session, counts and score included, as it
    is.  The first answer to the current question is compared with
    [correctAnswer] by string equality, case included: when equal,
    [correctAnswers] grows by one and [score] by ten; when different,
    [incorrectAnswers] grows by one; nothing else in the results moves. *)
Theorem selectAnswer_spec (answer : string) (s : Session) :
  (hasAnswered s = true -> selectAnswer answer s = (s, Returned))
  /\ (hasAnswered s = false ->
      forall q, currentQuestion s = Some q ->
        let s' := (selectAnswer answer s).1 in
        hasAnswered s' = true
        /\ selectedAnswer s' = Some answer
        /\ quiz s' = quiz s
        /\ currentQuestionIndex s' = currentQuestionIndex s
        /\ total (results s') = total (results s)
        /\ r_completed (results s') = r_completed (results s)
        /\ (correctAnswer q = answer ->
              isAnswerCorrect s' = true
              /\ correctAnswers (results s') = correctAnswers (results s) + 1
              /\ score (results s') = score (results s) + 10
              /\ incorrectAnswers (results s') = incorrectAnswers (results s))
        /\ (correctAnswer q <> answer ->
              isAnswerCorrect s' = false
              /\ incorrectAnswers (results s') = incorrectAnswers (results s) + 1
              /\ correctAnswers (results s') = correctAnswers (results s)
              /\ score (results s') = score (results s))
        /\ (forall again, selectAnswer again s' = (s', Returned))).
Proof.
  split.
  - intros H. unfold selectAnswer. by rewrite H.
  - intros H q Hq. unfold selectAnswer. rewrite H, Hq.
    destruct (String.eqb_spec (correctAnswer q) answer) as [Heq|Hne]; simpl;
      repeat split; try done.
Qed.

Definition sampleSession : Session :=
  mkSession
    (Some (mkViewQuiz 1
       (Some [mkQuestion "Traduisez: casa" ["eau"; "maison"; "livre"; "voiture"] "maison";
              mkQuestion "Traduisez: livro" ["livre"; "eau"; "maison"; "voiture"] "livre"])))
    0 None false false (mkResults 0 2 0 0 false).

Lemma selectAnswer_spec_witness :
  let s1 := (selectAnswer "maison" sampleSession).1 in
  results s1 = mkResults 10 2 1 0 false
  /\ selectAnswer "eau" s1 = (s1, Returned)
  /\ results (selectAnswer "Maison" sampleSession).1 = mkResults 0 2 0 1 false.
Proof.
  intros s1.
  destruct (selectAnswer_spec "maison" sampleSession) as [_ Hfirst].
  destruct (Hfirst eq_refl _ eq_refl) as (_ & _ & _ & _ & _ & _ & _ & _ & Hagain).
  destruct (selectAnswer_spec "Maison" sampleSession) as [_ Hcase].
  destruct (Hcase eq_refl _ eq_refl) as (_ & _ & _ & _ & _ & _ & _ & Hwrong & _).
  split; [reflexivity|]. split; [apply Hagain|].
  destruct Hwrong as (_ & Hi & Hc & Hs); [done|].
  reflexivity.
Defined.

(** The answer check of the quiz store is another operation: it compares
    after [toLowerCase], records every call and keeps no score. *)
Lemma submitAnswer_lowercase (toLowerCase : string -> string) (questionId : nat)
    (ans : string) (a : App) (q : Quiz) :
  List.find (fun q => Nat.eqb (quiz_id q) questionId) (qs_quizzes (quizStore a)) = Some q ->
  (submitAnswer toLowerCase questionId ans a).2
  = bool_decide (toLowerCase ans = toLowerCase (answer q))
  /\ quizResults (quizStore (submitAnswer toLowerCase questionId ans a).1)
     = quizResults (quizStore a)
       ++ [(questionId, bool_decide (toLowerCase ans = toLowerCase (answer q)))].
Proof.
  intros Hq. unfold submitAnswer. rewrite Hq.
  destruct (String.eqb_spec (toLowerCase ans) (toLowerCase (answer q))) as [He|Hne].
  - rewrite bool_decide_eq_true_2 by done. done.
  - rewrite bool_decide_eq_false_2 by done. done.
Qed.

(** ** Progress aggregator, continued *)

(** The percentage formula on doubles: with 23 of 40 the exact percentage
    57.5 rounds to 58, while the formula, which divides first and multiplies
    the rounded quotient by 100, gets 57.49999999999999 and gives 57. *)
Lemma percentage_23_of_40 :
  specPercentage 23 40 = 58
  /\ percentage 23 40 = of_Z 57
  /\ percentage 23 40 <> of_Z (specPercentage 23 40).
Proof. vm_compute. repeat split. discriminate. Qed.

Lemma eqb_of_Z_100 (p : Z) :
  0 <= p <= 100 -> eqb (of_Z p) (of_Z 100) = (p =? 100).
Proof.
  intros Hp.
  assert (Hall : forallb (fun p => Bool.eqb (eqb (of_Z p) (of_Z 100)) (p =? 100))
                   (seqZ 0 101) = true) by (vm_compute; reflexivity).
  rewrite forallb_forall in Hall.
  apply Bool.eqb_prop, Hall, list_elem_of_In, elem_of_seqZ. lia.
Qed.

(** The exact percentage lies between 0 and 100, and a tie is at least 1. *)
Lemma round_half_up_range (l t : Z) :
  0 < t -> 0 <= l <= t ->
  0 <= round_half_up (100 * l) t <= 100
  /\ ((200 * l + t) mod (2 * t) = 0 -> 0 < l -> 1 <= round_half_up (100 * l) t).
Proof.
  intros Ht Hl. unfold round_half_up.
  replace (200 * l + t) with (2 * (100 * l) + t) by lia.
  pose proof (Z.div_mod (2 * (100 * l) + t) (2 * t) ltac:(lia)) as Hdiv.
  pose proof (Z.mod_pos_bound (2 * (100 * l) + t) (2 * t) ltac:(lia)) as Hmod.
  split; [nia|]. intros Hz Hl0. rewrite Hz in Hdiv. nia.
Qed.

Definition progressExampleDB : DB :=
  mkDB [word 1 1 "casa" "maison" true None; word 2 1 "carro" "voiture" false None;
        word 3 1 "livro" "livre" true None; word 4 2 "agua" "eau" true None]
    {[ 1%nat := mkModule "Maison" "La maison" "A1" "maison" 1 false (of_Z 0) 3 ]} [] [] 1.

(** Module 1 with two words, both learned, its row at a progress of 50. *)
Definition allLearnedDB : DB :=
  mkDB [word 1 1 "casa" "maison" true None; word 2 1 "carro" "voiture" true None]
    {[ 1%nat := mkModule "Maison" "La maison" "A1" "maison" 1 false (of_Z 50) 2 ]} [] [] 1.

(** C1, a defect of the code: the learned count is asked of the table by
    [where({ moduleId, learned: true })], whose filter on [learned]
    compares booleans through [indexedDB.cmp] and so matches no row.  On a
    module of two words, both learned, the matching items are 2, those with
    [learned] true are 2 and the claim asks for a progress of
    [round(100 * 2 / 2) = 100] and [completed]; the code counts 0 learned
    words and stores a progress of 0 with [completed] false.  The call does
    not fail, and the other fields of the row stay. *)
Theorem updateModuleProgress_all_learned :
  let row := mkModule "Maison" "La maison" "A1" "maison" 1 false (of_Z 50) 2 in
  totalWords 1 allLearnedDB = 2%nat
  /\ learnedRows 1 allLearnedDB = 2%nat
  /\ specPercentage (learnedRows 1 allLearnedDB) (totalWords 1 allLearnedDB) = 100
  /\ learnedWords 1 allLearnedDB = 0%nat
  /\ modules (updateModuleProgress 1 allLearnedDB) !! 1%nat
     = Some (setProgress (of_Z 0) false row)
  /\ setProgress (of_Z 0) false row
     <> setProgress (of_Z (specPercentage 2 2)) (specPercentage 2 2 =? 100) row.
Proof.
  intros row. split; [done|]. split; [done|]. split; [done|].
  split; [apply learnedWords_zero|]. split.
  - rewrite updateModuleProgress_zero by (vm_compute; reflexivity).
    cbn [modules set_modules allLearnedDB]. by rewrite lookup_alter_eq, lookup_singleton_eq.
  - vm_compute. discriminate.
Qed.

(** Sample percentages: an exact half that survives the two roundings goes
    up, one that does not goes down; every word learned gives 100. *)
Example percentage_samples :
  percentage 1 8 = of_Z 13 /\ percentage 29 200 = of_Z 14
  /\ percentage 2 3 = of_Z 67 /\ percentage 4 4 = of_Z 100
  /\ percentage 0 4 = of_Z 0 /\ percentage 0 0 = of_Z 0.
Proof. vm_compute. repeat split. Qed.

(** Sample dates: the day before 1 March 2024 is 29 February, the day
    before 1 January 2023 is 31 December 2022. *)
Example yesterday_samples :
  let y1 := setDate (mkDate 2024 2 1 10 0 0) (getDate (mkDate 2024 2 1 10 0 0) - 1) in
  let y2 := setDate (mkDate 2023 0 1 0 0 0) (getDate (mkDate 2023 0 1 0 0 0) - 1) in
  (getFullYear y1, getMonth y1, getDate y1) = (2024, 1, 29)
  /\ (getFullYear y2, getMonth y2, getDate y2) = (2022, 11, 31).
Proof. vm_compute. split; reflexivity. Qed.

(** * Further properties *)

(** ** Streak over successive visits *)

(** The row [incrementStreakDays] leaves in the table. *)
Lemma incrementStreakDays_row (today now : Date) (d : DB)
    (p : UserProgress) (rest : list UserProgress) :
  userProgress d = p :: rest ->
  Day now = Day today ->
  Forall (fun r => up_id r <> up_id p) rest ->
  incrementStreakDays today now d
  = set_userProgress (setStreak (nextStreak p today) today p :: rest) d.
Proof.
  intros Hup Hday Hrest. unfold incrementStreakDays, nextStreak. rewrite Hup.
  cbv beta iota zeta.
  destruct (lastStudyDate p) as [lastStudy|] eqn:Hlast.
  - destruct (sameCalendarDay lastStudy (setDate now (getDate now - 1))) eqn:Hs.
    + apply isLastStudyYesterday_iff in Hs. rewrite Hday in Hs.
      rewrite decide_True by done.
      by rewrite updateUserProgressRow_head, updateUserProgressRow_other.
    + assert (Day lastStudy <> Day today - 1) as Hne.
      { intros He. rewrite <- Hday in He. apply isLastStudyYesterday_iff in He.
        congruence. }
      rewrite decide_False by done.
      by rewrite updateUserProgressRow_head, updateUserProgressRow_other.
  - by rewrite updateUserProgressRow_head, updateUserProgressRow_other.
Qed.

(** Two calls of [incrementStreakDays], at [t1] and then at [t2]: what the
    second call does to the streak depends on the two call days only.  It
    adds one when [t2] falls on the day after [t1]; on the same day, after
    a gap of two days or more, or with a clock set back, it leaves the
    streak as the first call left it: a missed day does not reset it. *)
Theorem incrementStreakDays_twice (t1 n1 t2 n2 : Date) (d : DB)
    (p : UserProgress) (rest : list UserProgress) :
  userProgress d = p :: rest ->
  Forall (fun r => up_id r <> up_id p) rest ->
  Day n1 = Day t1 -> Day n2 = Day t2 ->
  let d1 := incrementStreakDays t1 n1 d in
  let d2 := incrementStreakDays t2 n2 d1 in
  exists p1 p2,
    userProgress d1 = p1 :: rest /\ userProgress d2 = p2 :: rest
    /\ lastStudyDate p2 = Some t2
    /\ (Day t2 = Day t1 + 1 -> streakDays p2 = streakDays p1 + 1)
    /\ (Day t2 <> Day t1 + 1 -> streakDays p2 = streakDays p1)
    /\ streakDays p <= streakDays p1 <= streakDays p2.
Proof.
  intros Hup Hrest H1 H2 d1 d2. subst d1 d2.
  rewrite (incrementStreakDays_row t1 n1 d p rest) by done.
  set (p1 := setStreak (nextStreak p t1) t1 p).
  rewrite (incrementStreakDays_row t2 n2 _ p1 rest) by done.
  exists p1, (setStreak (nextStreak p1 t2) t2 p1).
  split; [done|]. split; [done|]. split; [done|].
  assert (Hp1 : streakDays p <= streakDays p1).
  { subst p1. unfold nextStreak. simpl.
    destruct (lastStudyDate p); [case_decide|]; lia. }
  unfold nextStreak. simpl. repeat split.
  - intros Hd. rewrite decide_True; [done|lia].
  - intros Hd. rewrite decide_False; [done|lia].
  - done.
  - case_decide; lia.
Qed.

Lemma incrementStreakDays_twice_witness :
  let d := mkDB [] ∅ [mkUserProgress 1 0 0 (Some (mkDate 2024 0 10 9 0 0)) 0 4 None] [] 1 in
  let t1 := mkDate 2024 1 28 22 0 0 in
  let t2 := mkDate 2024 1 29 7 30 0 in
  exists p1 p2,
    userProgress (incrementStreakDays t1 t1 d) = p1 :: []
    /\ userProgress (incrementStreakDays t2 t2 (incrementStreakDays t1 t1 d)) = p2 :: []
    /\ lastStudyDate p2 = Some t2
    /\ (Day t2 = Day t1 + 1 -> streakDays p2 = streakDays p1 + 1)
    /\ (Day t2 <> Day t1 + 1 -> streakDays p2 = streakDays p1)
    /\ 4 <= streakDays p1 <= streakDays p2.
Proof.
  intros d t1 t2.
  apply (incrementStreakDays_twice t1 t1 t2 t2 d
           (mkUserProgress 1 0 0 (Some (mkDate 2024 0 10 9 0 0)) 0 4 None) []);
    [reflexivity | constructor | reflexivity | reflexivity].
Defined.

(** Successive calls of [updateStreak], one for each pair of clock
    readings. *)
Definition updateStreaks (clock : list (Date * Date)) (st : DB * UserStore)
    : DB * UserStore :=
  foldl (fun st t => updateStreak t.1 t.2 st) st clock.

Lemma updateStreaks_consecutive (clock : list (Date * Date)) :
  forall (t : Date * Date) (d : DB) (us : UserStore) (p : UserProgress),
    userProgress d = [p] ->
    Forall (fun t => Day t.2 = Day t.1) (t :: clock) ->
    (forall i a b, (t :: clock) !! i = Some a -> (t :: clock) !! S i = Some b ->
                   Day b.1 = Day a.1 + 1) ->
    exists p',
      userProgress (updateStreaks (t :: clock) (d, us)).1 = [p']
      /\ us_progress (updateStreaks (t :: clock) (d, us)).2 = Some p'
      /\ streakDays p' = nextStreak p t.1 + Z.of_nat (length clock)
      /\ lastStudyDate p' = fst <$> last (t :: clock).
Proof.
  induction clock as [|t' clock IH]; intros t d us p Hup Hsame Hnext.
  - apply Forall_cons in Hsame as [Ht _].
    unfold updateStreaks, updateStreak. simpl.
    rewrite (incrementStreakDays_row t.1 t.2 d p []) by done.
    eexists. split; [reflexivity|]. simpl. split; [done|]. split; [lia|done].
  - apply Forall_cons in Hsame as [Ht Hsame].
    change (updateStreaks (t :: t' :: clock) (d, us))
      with (updateStreaks (t' :: clock) (updateStreak t.1 t.2 (d, us))).
    unfold updateStreak. cbn [fst snd].
    rewrite (incrementStreakDays_row t.1 t.2 d p []) by done.
    set (p1 := setStreak (nextStreak p t.1) t.1 p).
    destruct (IH t' (set_userProgress [p1] d) (fetchUserProgress (set_userProgress [p1] d) us) p1)
      as (p' & H1 & H2 & H3 & H4); [done|done| |].
    { intros i a b Ha Hb. by apply (Hnext (S i) a b). }
    exists p'. split; [done|]. split; [done|]. split; [|done].
    rewrite H3. unfold nextStreak at 1. subst p1. cbn [lastStudyDate setStreak streakDays].
    rewrite decide_True.
    + cbn [length]. lia.
    + specialize (Hnext 0%nat t t' eq_refl eq_refl). lia.
Qed.

(** From a database without a progress record: after the initialisation
    and one [updateStreak] on each of [n] consecutive days (n >= 1), the
    streak the store shows is [n - 1], the first visit counting for
    nothing, and the record carries the date of the last visit. *)
Theorem updateStreak_consecutive_days (key : nat) (d : DB) (us : UserStore)
    (clock : list (Date * Date)) :
  userProgress d = [] ->
  clock <> [] ->
  Forall (fun t => Day t.2 = Day t.1) clock ->
  (forall i a b, clock !! i = Some a -> clock !! S i = Some b ->
                 Day b.1 = Day a.1 + 1) ->
  let st := updateStreaks clock (initializeDatabase key d, us) in
  getStreak st.2 = Z.of_nat (length clock) - 1
  /\ exists p, userProgress st.1 = [p] /\ us_progress st.2 = Some p
               /\ lastStudyDate p = fst <$> last clock.
Proof.
  intros Hup Hne Hsame Hnext st. subst st.
  destruct clock as [|t clock]; [done|].
  destruct (updateStreaks_consecutive clock t (initializeDatabase key d) us
              (defaultUserProgress key)) as (p' & H1 & H2 & H3 & H4); [|done|done|].
  { unfold initializeDatabase. by rewrite Hup. }
  split.
  - unfold getStreak. rewrite H2, H3. unfold nextStreak. cbn [length]. simpl. lia.
  - by exists p'.
Qed.

Lemma updateStreak_consecutive_days_witness :
  let clock := [(mkDate 2023 11 30 20 0 0, mkDate 2023 11 30 20 0 0 + 1);
                (mkDate 2023 11 31 8 0 0, mkDate 2023 11 31 8 0 0 + 1);
                (mkDate 2024 0 1 23 59 59, mkDate 2024 0 1 23 59 59 + 1)] in
  getStreak (updateStreaks clock
               (initializeDatabase 1 (mkDB [] ∅ [] [] 1), mkUserStore None None false)).2
  = 2.
Proof.
  intros clock.
  apply (updateStreak_consecutive_days 1 (mkDB [] ∅ [] [] 1)
           (mkUserStore None None false) clock).
  - reflexivity.
  - discriminate.
  - repeat constructor.
  - intros [|[|[|i]]] a b Ha Hb; simpl in Ha, Hb; try discriminate;
      injection Ha as <-; injection Hb as <-; vm_compute; reflexivity.
Defined.

(** ** Dark-mode preference *)

(** [toggleDarkMode] flips the mode and leaves the body class and the
    stored item in step with it; a later [loadDarkModePreference], on a
    store and a document that start afresh with the same stored item,
    restores the mode and the class; toggling twice restores the mode. *)
Theorem darkMode_round_trip (us fresh : UserStore) (br : Browser) :
  let st := toggleDarkMode (us, br) in
  let st' := loadDarkModePreference (fresh, mkBrowser (darkModeItem st.2) false) in
  isDarkMode st.1 = negb (isDarkMode us)
  /\ bodyDarkClass st.2 = isDarkMode st.1
  /\ isDarkMode st'.1 = isDarkMode st.1
  /\ bodyDarkClass st'.2 = isDarkMode st.1
  /\ isDarkMode (toggleDarkMode st).1 = isDarkMode us
  /\ bodyDarkClass (toggleDarkMode st).2 = isDarkMode us.
Proof.
  unfold toggleDarkMode, loadDarkModePreference. simpl.
  destruct (isDarkMode us); simpl; repeat split.
Qed.

(** ** The percentage and the recomputation of a module *)

(** The percentage as an integer of 0..100. *)
Lemma percentage_range (l t : nat) :
  (l <= t)%nat -> Z.of_nat t < 2 ^ 44 ->
  exists p : Z,
    percentage l t = of_Z p /\ 0 <= p <= 100
    /\ (t = 0%nat -> p = 0)
    /\ ((0 < t)%nat ->
        p = round_half_up (100 * Z.of_nat l) (Z.of_nat t)
        \/ ((200 * Z.of_nat l + Z.of_nat t) mod (2 * Z.of_nat t) = 0
            /\ p = round_half_up (100 * Z.of_nat l) (Z.of_nat t) - 1)).
Proof.
  intros Hle Hbound.
  destruct (Nat.eq_dec t 0%nat) as [->|H0].
  - exists 0. repeat split; try done; lia.
  - destruct (percentage_spec l t) as (p & Hp & Hcases); [lia|done|done|].
    pose proof (round_half_up_range (Z.of_nat l) (Z.of_nat t)
                  ltac:(lia) ltac:(lia)) as [Hrange Htie].
    exists p. split; [done|]. split; [|split; [lia|done]].
    destruct Hcases as [->|[Hz ->]]; [done|].
    destruct (Nat.eq_dec l 0%nat) as [Hl0|Hl0]; [|lia].
    exfalso. rewrite Hl0 in Hz. simpl in Hz.
    rewrite Z.mod_small in Hz by lia. lia.
Qed.

(** Every word learned gives exactly 100. *)
Lemma percentage_all (t : nat) :
  (0 < t)%nat -> Z.of_nat t < 2 ^ 44 -> percentage t t = of_Z 100.
Proof.
  intros Ht Hb.
  destruct (percentage_spec t t) as (p & -> & Hp); [done|done|done|].
  f_equal.
  assert (round_half_up (100 * Z.of_nat t) (Z.of_nat t) = 100) as Hr.
  { unfold round_half_up. symmetry.
    apply (Z.div_unique _ _ 100 (Z.of_nat t)); lia. }
  destruct Hp as [->|[Hz _]]; [done|].
  exfalso.
  rewrite <- (Z.mod_unique (200 * Z.of_nat t + Z.of_nat t) (2 * Z.of_nat t) 100
                (Z.of_nat t)) in Hz; lia.
Qed.

(** A percentage of 100 leaves at most one word in two hundred unlearned. *)
Lemma percentage_100_inv (l t : nat) :
  (l <= t)%nat -> Z.of_nat t < 2 ^ 44 ->
  eqb (percentage l t) (of_Z 100) = true ->
  (0 < t)%nat /\ 200 * (Z.of_nat t - Z.of_nat l) <= Z.of_nat t.
Proof.
  intros Hle Hb He.
  destruct (percentage_range l t Hle Hb) as (p & Hp & Hrange & H0 & Hcases).
  rewrite Hp, eqb_of_Z_100 in He by done. apply Z.eqb_eq in He. subst p.
  destruct (Nat.eq_dec t 0%nat) as [Ht|Ht]; [specialize (H0 Ht); lia|].
  split; [lia|].
  pose proof (round_half_up_range (Z.of_nat l) (Z.of_nat t)
                ltac:(lia) ltac:(lia)) as [Hr _].
  destruct Hcases as [Hex|[_ Hex]]; [lia| |lia].
  unfold round_half_up in Hex.
  pose proof (Z.div_mod (2 * (100 * Z.of_nat l) + Z.of_nat t) (2 * Z.of_nat t)
                ltac:(lia)) as Hdiv.
  pose proof (Z.mod_pos_bound (2 * (100 * Z.of_nat l) + Z.of_nat t)
                (2 * Z.of_nat t) ltac:(lia)) as Hmod.
  rewrite <- Hex in Hdiv. lia.
Qed.

(** [updateModuleProgress] on a module of fewer than 2^53 words never
    records a learned word: whatever the rows of the module, the row of the
    module ends with a progress of 0 and [completed] false, a completion
    it held being taken back, its other fields kept; without a row of the
    module nothing changes; the other rows and tables stay as they were,
    and a second call changes nothing more. *)
Theorem updateModuleProgress_resets (moduleId : nat) (d : DB) :
  Z.of_nat (totalWords moduleId d) < 2 ^ 53 ->
  let d' := updateModuleProgress moduleId d in
  (forall row, modules d !! moduleId = Some row ->
               modules d' !! moduleId = Some (setProgress (of_Z 0) false row))
  /\ (modules d !! moduleId = None -> d' = d)
  /\ (forall k, k <> moduleId -> modules d' !! k = modules d !! k)
  /\ vocabulary d' = vocabulary d /\ userProgress d' = userProgress d
  /\ quizzes d' = quizzes d /\ quizNextId d' = quizNextId d
  /\ updateModuleProgress moduleId d' = d'.
Proof.
  intros Hb d'. subst d'. rewrite updateModuleProgress_zero by done.
  split; [|split; [|split; [|split; [|split; [|split; [|split]]]]]]; try done.
  - intros row Hrow. cbn [modules set_modules]. by rewrite lookup_alter_eq, Hrow.
  - intros Hnone. destruct d as [v ms up qs n]. unfold set_modules. cbn in *.
    f_equal. apply map_eq. intros k.
    destruct (decide (k = moduleId)) as [->|Hk].
    + by rewrite lookup_alter_eq, Hnone.
    + by rewrite lookup_alter_ne.
  - intros k Hk. cbn [modules set_modules]. by rewrite lookup_alter_ne.
  - rewrite updateModuleProgress_zero by done.
    unfold set_modules. cbn [vocabulary modules userProgress quizzes quizNextId].
    f_equal. apply map_eq. intros k.
    destruct (decide (k = moduleId)) as [->|Hk].
    + rewrite !lookup_alter_eq. by destruct (modules d !! moduleId).
    + by rewrite !lookup_alter_ne.
Qed.

Lemma updateModuleProgress_resets_witness :
  modules (updateModuleProgress 1 allLearnedDB) !! 1%nat
  = Some (mkModule "Maison" "La maison" "A1" "maison" 1 false (of_Z 0) 2).
Proof.
  destruct (updateModuleProgress_resets 1 allLearnedDB) as [H _].
  - vm_compute. reflexivity.
  - apply (H (mkModule "Maison" "La maison" "A1" "maison" 1 false (of_Z 50) 2)).
    reflexivity.
Defined.

(** The formula itself: with 199 of 200 it already gives 100. *)
Example percentage_199_of_200 : percentage 199 200 = of_Z 100.
Proof. vm_compute. reflexivity. Qed.

(** ** Marking a word as learned *)

Lemma count_app {A} (P : A -> Prop) `{forall x, Decision (P x)} (l k : list A) :
  count P (l ++ k) = (count P l + count P k)%nat.
Proof. unfold count. by rewrite filter_app, length_app. Qed.

Lemma count_cons {A} (P : A -> Prop) `{forall x, Decision (P x)} (x : A) (l : list A) :
  count P (x :: l) = ((if decide (P x) then 1 else 0) + count P l)%nat.
Proof. unfold count. rewrite filter_cons. by destruct (decide (P x)). Qed.

Lemma updateVocabularyRow_absent (id : nat) (f : Vocabulary -> Vocabulary)
    (rows : list Vocabulary) :
  id ∉ voc_id <$> rows -> updateVocabularyRow id f rows = rows.
Proof.
  induction rows as [|v rows IH]; [done|]. intros Hid.
  rewrite fmap_cons, not_elem_of_cons in Hid. destruct Hid as [Hv Hrows].
  simpl. fold (updateVocabularyRow id f rows). rewrite (IH Hrows).
  destruct (Nat.eqb_spec (voc_id v) id); [by subst|done].
Qed.

Lemma updateVocabularyRow_split (id : nat) (f : Vocabulary -> Vocabulary)
    (rows : list Vocabulary) (w : Vocabulary) :
  NoDup (voc_id <$> rows) -> w ∈ rows -> voc_id w = id ->
  exists l1 l2, rows = l1 ++ w :: l2
                /\ updateVocabularyRow id f rows = l1 ++ f w :: l2.
Proof.
  intros Hnd Hw Hid.
  apply list_elem_of_split in Hw as (l1 & l2 & ->).
  exists l1, l2. split; [done|].
  rewrite fmap_app, fmap_cons in Hnd.
  apply NoDup_app in Hnd as (_ & Hl1 & Hnd).
  apply NoDup_cons in Hnd as [Hl2 _].
  unfold updateVocabularyRow. rewrite map_app. simpl.
  fold (updateVocabularyRow id f l1). fold (updateVocabularyRow id f l2).
  rewrite Hid, Nat.eqb_refl.
  rewrite !updateVocabularyRow_absent; [done| |].
  - by rewrite <- Hid.
  - intros Hin. apply (Hl1 _ Hin). rewrite Hid. by left.
Qed.

Lemma markWordAsLearned_effect (now : Date) (id : nat) (d : DB) :
  NoDup (voc_id <$> vocabulary d) ->
  let d' := markWordAsLearned now id d in
  (id ∉ voc_id <$> vocabulary d -> d' = d)
  /\ forall w, w ∈ vocabulary d -> voc_id w = id ->
       setLearned now w ∈ vocabulary d'
       /\ (forall m, totalWords m d' = totalWords m d)
       /\ learnedRows (voc_moduleId w) d'
          = (learnedRows (voc_moduleId w) d + (if learned w then 0 else 1))%nat
       /\ (forall m, m <> voc_moduleId w -> learnedRows m d' = learnedRows m d)
       /\ modules d' = modules d /\ userProgress d' = userProgress d
       /\ quizzes d' = quizzes d.
Proof.
  intros Hnd d'. subst d'. unfold markWordAsLearned. split.
  - intros Hid. rewrite updateVocabularyRow_absent by done. by destruct d.
  - intros w Hw Hid.
    destruct (updateVocabularyRow_split id (setLearned now) _ w Hnd Hw Hid)
      as (l1 & l2 & Hrows & Hupd).
    unfold totalWords, learnedRows. cbn [vocabulary set_vocabulary modules
      userProgress quizzes]. rewrite Hupd, Hrows.
    split; [|split; [|split; [|split]]]; try done.
    + apply elem_of_app. right. by left.
    + intros m. rewrite !count_app, !count_cons. unfold inModule. simpl. done.
    + rewrite !count_app, !count_cons.
      destruct (decide (learnedInModule (voc_moduleId w) (setLearned now w)))
        as [_|Hn]; [|by destruct Hn].
      destruct (decide (learnedInModule (voc_moduleId w) w)) as [[_ Hl]|Hn].
      * rewrite Hl. lia.
      * destruct (learned w) eqn:Hl; [by destruct Hn|lia].
    + intros m Hm. rewrite !count_app, !count_cons.
      destruct (decide (learnedInModule m (setLearned now w))) as [[? _]|_];
        [simpl in *; congruence|].
      destruct (decide (learnedInModule m w)) as [[? _]|_]; [congruence|done].
Qed.

(** [markWordAsLearned] on a table with distinct keys: a key that is not in
    the table changes nothing; for the key of a word [w], the row becomes
    learned and dated, the number of words of every module stays the same,
    the number of rows of the module of [w] that are learned grows by one
    when [w] was not learned (and stays otherwise), those numbers for the
    other modules and the other tables stay as they were. *)
Theorem markWordAsLearned_counts (now : Date) (id : nat) (d : DB) :
  NoDup (voc_id <$> vocabulary d) ->
  let d' := markWordAsLearned now id d in
  (id ∉ voc_id <$> vocabulary d -> d' = d)
  /\ forall w, w ∈ vocabulary d -> voc_id w = id ->
       setLearned now w ∈ vocabulary d'
       /\ (forall m, totalWords m d' = totalWords m d)
       /\ learnedRows (voc_moduleId w) d'
          = (learnedRows (voc_moduleId w) d + (if learned w then 0 else 1))%nat
       /\ (forall m, m <> voc_moduleId w -> learnedRows m d' = learnedRows m d)
       /\ modules d' = modules d /\ userProgress d' = userProgress d
       /\ quizzes d' = quizzes d.
Proof. apply markWordAsLearned_effect. Qed.

Lemma markWordAsLearned_counts_witness :
  learnedRows 1 (markWordAsLearned (mkDate 2024 4 2 10 0 0) 2 progressExampleDB)
  = 3%nat.
Proof.
  destruct (markWordAsLearned_counts (mkDate 2024 4 2 10 0 0) 2 progressExampleDB)
    as [_ H].
  - apply (bool_decide_unpack _). vm_compute. exact I.
  - destruct (H (word 2 1 "carro" "voiture" false None)) as (_ & _ & Hl & _).
    + apply elem_of_cons. right. apply elem_of_cons. by left.
    + reflexivity.
    + exact Hl.
Defined.

(** ** The module store and the modules table *)

Lemma elem_of_toArray (rows : gmap nat Module_) (id : nat) (m : Module_) :
  (id, m) ∈ toArray rows <-> rows !! id = Some m.
Proof.
  unfold toArray. rewrite merge_sort_Permutation. apply elem_of_map_to_list.
Qed.

Lemma NoDup_toArray (rows : gmap nat Module_) : NoDup (toArray rows).*1.
Proof.
  unfold toArray. rewrite merge_sort_Permutation. apply NoDup_fst_map_to_list.
Qed.

Lemma find_key (l : list (nat * Module_)) (id : nat) (m : Module_) :
  NoDup l.*1 -> (id, m) ∈ l ->
  List.find (fun x => Nat.eqb x.1 id) l = Some (id, m).
Proof.
  induction l as [|x l IH]; intros Hnd Hin; [by apply elem_of_nil in Hin|].
  rewrite fmap_cons in Hnd. apply NoDup_cons in Hnd as [Hx Hnd].
  apply elem_of_cons in Hin as [<-|Hin]; simpl.
  - by rewrite Nat.eqb_refl.
  - destruct (Nat.eqb_spec x.1 id) as [He|_]; [|by apply IH].
    exfalso. apply Hx. rewrite He.
    apply list_elem_of_fmap. by exists (id, m).
Qed.

Lemma find_key_None (l : list (nat * Module_)) (id : nat) :
  List.find (fun x => Nat.eqb x.1 id) l = None <-> id ∉ l.*1.
Proof.
  induction l as [|x l IH]; simpl.
  - split; [|done]. intros _. apply not_elem_of_nil.
  - rewrite not_elem_of_cons.
    destruct (Nat.eqb_spec x.1 id) as [He|Hne].
    + split; [done|]. intros [? _]. done.
    + rewrite IH. split; [|by intros [_ ?]]. intros ?. split; [congruence|done].
Qed.

Lemma updateFirst_keys (id : nat) (f : Module_ -> Module_) (l : list (nat * Module_)) :
  (updateFirst id f l).*1 = l.*1.
Proof.
  induction l as [|x l IH]; [done|]. cbn [updateFirst].
  destruct (Nat.eqb x.1 id); [done|]. rewrite !fmap_cons. by rewrite IH.
Qed.

Lemma elem_of_updateFirst (id : nat) (f : Module_ -> Module_)
    (l : list (nat * Module_)) (k : nat) (m : Module_) :
  NoDup l.*1 -> (k, m) ∈ updateFirst id f l ->
  (k <> id /\ (k, m) ∈ l) \/ (k = id /\ exists m0, (id, m0) ∈ l /\ m = f m0).
Proof.
  induction l as [|x l IH]; intros Hnd Hin; [by apply elem_of_nil in Hin|].
  rewrite fmap_cons in Hnd. apply NoDup_cons in Hnd as [Hx Hnd].
  simpl in Hin. destruct (Nat.eqb_spec x.1 id) as [He|Hne].
  - apply elem_of_cons in Hin as [Hin|Hin].
    + injection Hin as -> ->. right. split; [done|]. exists x.2. split; [|done].
      rewrite <- He. destruct x. by left.
    + left. split.
      * intros ->. apply Hx. rewrite He. apply list_elem_of_fmap. by exists (id, m).
      * by right.
  - apply elem_of_cons in Hin as [Heq|Hin].
    + subst x. left. split; [done|]. by left.
    + destruct (IH Hnd Hin) as [[? ?]|(-> & m0 & ? & ->)].
      * left. split; [done|]. by right.
      * right. split; [done|]. exists m0. split; [by right|done].
Qed.

(** The list of the module store mirrors the table: no key twice, and
    every module of the list is the row of its key. *)
Definition mirrorsDB (a : App) : Prop :=
  NoDup (ms_modules (moduleStore a)).*1
  /\ forall id m, (id, m) ∈ ms_modules (moduleStore a) ->
                  modules (db a) !! id = Some m.

Lemma fetchModules_mirrors (a : App) : mirrorsDB (fetchModules a).
Proof.
  split; simpl; [apply NoDup_toArray|]. intros id m. by rewrite elem_of_toArray.
Qed.

Lemma updateModule_mirrorsDB (id : nat) (data : Module_ -> Module_) (a : App) :
  mirrorsDB a -> mirrorsDB (updateModule id data a).
Proof.
  intros [Hnd Hrows]. unfold updateModule, mirrorsDB.
  cbn [moduleStore set_moduleStore set_db db ms_modules modules set_modules].
  split; [by rewrite updateFirst_keys|].
  intros k m Hin.
  apply elem_of_updateFirst in Hin as [[Hk Hin]|(-> & m0 & Hin & ->)]; [|..|done].
  - rewrite lookup_alter_ne by done. by apply Hrows.
  - rewrite lookup_alter_eq. by rewrite (Hrows _ _ Hin).
Qed.

(** A module store that mirrors the table still mirrors it after
    [updateModule], after [completeQuiz] of the quiz store and after
    [addModule] under a key the table does not hold; and the getter
    [getModuleById] then answers with the row of the table for every key
    of the list. *)
Theorem moduleStore_mirrors (a : App) :
  mirrorsDB a ->
  (forall id data, mirrorsDB (updateModule id data a))
  /\ (forall moduleId score, mirrorsDB (completeQuiz moduleId score a))
  /\ (forall key module, modules (db a) !! key = None ->
                         mirrorsDB (addModule key module a).1)
  /\ (forall id m, getModuleById (moduleStore a) id = Some m ->
                   m.1 = id /\ modules (db a) !! id = Some m.2).
Proof.
  intros Hm. split; [|split; [|split]].
  - intros id data. by apply updateModule_mirrorsDB.
  - intros moduleId score. unfold completeQuiz.
    destruct (getModuleById _ _); [|done].
    destruct (70 <=? score); [by apply updateModule_mirrorsDB|done].
  - intros key module Hkey. destruct Hm as [Hnd Hrows].
    unfold addModule, mirrorsDB.
    cbn [fst moduleStore set_moduleStore set_db db ms_modules modules set_modules].
    split.
    + rewrite fmap_app. apply NoDup_app. split; [done|]. split.
      * intros k Hk [->|Hin%elem_of_nil]%elem_of_cons; [|done].
        apply list_elem_of_fmap in Hk as ([k m] & Hk & Hin).
        simpl in Hk. subst k. apply Hrows in Hin. congruence.
      * apply NoDup_singleton.
    + intros id m [Hin|Hin]%elem_of_app.
      * rewrite lookup_insert_ne; [by apply Hrows|].
        intros ->. apply Hrows in Hin. congruence.
      * apply list_elem_of_singleton in Hin. injection Hin as -> ->.
        by rewrite lookup_insert_eq.
  - intros id m Hget. destruct Hm as [_ Hrows].
    pose proof (getModuleById_key _ _ _ Hget) as Hk. split; [done|].
    unfold getModuleById in Hget. apply find_some in Hget as [Hin _].
    apply Hrows. destruct m. simpl in *. subst. by apply list_elem_of_In.
Qed.

Lemma moduleStore_mirrors_witness :
  let m := mkModule "Maison" "La maison" "A1" "maison" 1 false (of_Z 50) 4 in
  let a := mkApp (mkDB [] {[ 1%nat := m ]} [] [] 1)
             (mkVocabularyStore [] [] None) emptyQuizStore
             (mkModuleStore [(1%nat, m)] None) in
  mirrorsDB (completeQuiz 1 80 a).
Proof.
  intros m a.
  destruct (moduleStore_mirrors a) as (_ & H & _).
  - split; simpl.
    + apply NoDup_singleton.
    + intros id m0 Hin. apply list_elem_of_singleton in Hin. by injection Hin as -> ->.
  - apply H.
Defined.

(** ** Marking a word as learned through the vocabulary store *)

Lemma count_learned_all (m : nat) (l : list Vocabulary) :
  (forall v, v ∈ l -> voc_moduleId v = m -> learned v = true) ->
  count (learnedInModule m) l = count (inModule m) l.
Proof.
  induction l as [|v l IH]; intros Hall; [done|].
  rewrite !count_cons, IH by (intros v' Hv'; apply Hall; by right).
  destruct (decide (inModule m v)) as [Hm|Hm].
  - rewrite decide_True; [done|]. split; [done|]. apply Hall; [by left|done].
  - rewrite decide_False; [done|]. by intros [? _].
Qed.

Lemma count_pos {A} (P : A -> Prop) `{forall x, Decision (P x)} (x : A) (l : list A) :
  x ∈ l -> P x -> (0 < count P l)%nat.
Proof.
  intros Hin HP. unfold count.
  assert (x ∈ filter P l) as Hf by by apply list_elem_of_filter.
  destruct (filter P l); [by apply elem_of_nil in Hf | simpl; lia].
Qed.

Lemma getModuleById_toArray (rows : gmap nat Module_) (e : option string)
    (id : nat) (m : Module_) :
  rows !! id = Some m ->
  getModuleById (mkModuleStore (toArray rows) e) id = Some (id, m).
Proof.
  intros Hm. unfold getModuleById. cbn [ms_modules].
  apply find_key; [apply NoDup_toArray | by apply elem_of_toArray].
Qed.

(** [markAsLearned] of the store for a word the table holds but the loaded
    list of the store does not (the list is filled by [fetchAllVocabulary]
    only): the row of the table is marked, so the module has one more
    learned row, but the action answers [false] and the progress of the
    module is not recomputed: the modules table, the module store, the
    vocabulary store and the user store are as before. *)
Theorem markAsLearned_unloaded (now1 now2 : Date) (id : nat) (a : App)
    (us : UserStore) (w : Vocabulary) :
  NoDup (voc_id <$> vocabulary (db a)) ->
  w ∈ vocabulary (db a) -> voc_id w = id -> learned w = false ->
  getWordById (vocabularyStore a) id = None ->
  let r := markAsLearned now1 now2 id (a, us) in
  r.2 = false
  /\ setLearned now1 w ∈ vocabulary (db r.1.1)
  /\ learnedRows (voc_moduleId w) (db r.1.1)
     = (learnedRows (voc_moduleId w) (db a) + 1)%nat
  /\ modules (db r.1.1) = modules (db a)
  /\ moduleStore r.1.1 = moduleStore a
  /\ vocabularyStore r.1.1 = vocabularyStore a
  /\ r.1.2 = us.
Proof.
  intros Hnd Hw Hid Hl Hget r. subst r. unfold markAsLearned.
  cbn [fst snd vocabularyStore set_db]. rewrite Hget. cbn [fst snd db set_db moduleStore
    vocabularyStore].
  destruct (markWordAsLearned_effect now1 id (db a) Hnd) as [_ H].
  destruct (H w Hw Hid) as (H1 & _ & H3 & _ & H5 & _).
  rewrite Hl in H3. done.
Qed.

Lemma markAsLearned_unloaded_witness :
  let a := mkApp progressExampleDB (mkVocabularyStore [] [] None) emptyQuizStore
             (mkModuleStore [] None) in
  let r := markAsLearned 1000 1001 2 (a, mkUserStore None None false) in
  r.2 = false
  /\ learnedRows 1 (db r.1.1) = 3%nat
  /\ modules (db r.1.1) = modules progressExampleDB.
Proof.
  intros a r.
  destruct (markAsLearned_unloaded 1000 1001 2 a (mkUserStore None None false)
              (word 2 1 "carro" "voiture" false None))
    as (H1 & _ & H3 & H4 & _).
  - apply (bool_decide_unpack _). vm_compute. exact I.
  - apply elem_of_cons. right. apply elem_of_cons. by left.
  - reflexivity.
  - reflexivity.
  - reflexivity.
  - split; [exact H1|]. split; [exact H3|exact H4].
Defined.

(** [markAsLearned] of the store on the last word of a module that is not
    learned yet (the word being in the loaded list, the table having
    distinct keys and the row of the module, the module fewer than 2^53
    words): the action answers [true] and every row of the module is then
    learned, yet the module does not end completed: the recomputation
    leaves it with a progress of 0 and [completed] false, in the table and
    in the reloaded list of the module store. *)
Theorem markAsLearned_last_word (now1 now2 : Date) (id m : nat) (a : App)
    (us : UserStore) (w item : Vocabulary) (row : Module_) :
  NoDup (voc_id <$> vocabulary (db a)) ->
  w ∈ vocabulary (db a) -> voc_id w = id -> voc_moduleId w = m ->
  (forall v, v ∈ vocabulary (db a) -> voc_moduleId v = m -> voc_id v <> id ->
             learned v = true) ->
  getWordById (vocabularyStore a) id = Some item -> voc_moduleId item = m ->
  modules (db a) !! m = Some row ->
  Z.of_nat (totalWords m (db a)) < 2 ^ 53 ->
  let r := markAsLearned now1 now2 id (a, us) in
  r.2 = true
  /\ (0 < totalWords m (db r.1.1))%nat
  /\ learnedRows m (db r.1.1) = totalWords m (db r.1.1)
  /\ modules (db r.1.1) !! m = Some (setProgress (of_Z 0) false row)
  /\ getModuleById (moduleStore r.1.1) m
     = Some (m, setProgress (of_Z 0) false row)
  /\ r.1.2 = fetchUserProgress (db a) us.
Proof.
  intros Hnd Hw Hid Hm Hothers Hget Hitem Hrow Hb r. subst r.
  unfold markAsLearned. cbn [fst snd vocabularyStore set_db]. rewrite Hget, Hitem.
  set (d' := markWordAsLearned now1 id (db a)).
  assert (Hcounts : learnedRows m d' = totalWords m d'
                    /\ (0 < totalWords m d')%nat
                    /\ totalWords m d' = totalWords m (db a)).
  { destruct (markWordAsLearned_effect now1 id (db a) Hnd) as [_ H].
    destruct (H w Hw Hid) as (H1 & H2 & _). fold d' in H1, H2.
    split; [|split; [|done]].
    - apply count_learned_all. intros v Hv Hvm.
      subst d'. unfold markWordAsLearned in Hv. cbn [vocabulary set_vocabulary] in Hv.
      destruct (updateVocabularyRow_split id (setLearned now1) _ w Hnd Hw Hid)
        as (l1 & l2 & Hrows & Hupd).
      rewrite Hupd in Hv. rewrite Hrows in Hnd, Hothers.
      rewrite fmap_app, fmap_cons in Hnd.
      apply NoDup_app in Hnd as (_ & Hl1 & Hnd).
      apply NoDup_cons in Hnd as [Hl2 _].
      rewrite elem_of_app, elem_of_cons in Hv. destruct Hv as [Hv|[->|Hv]].
      + apply Hothers; [apply elem_of_app; by left | done |].
        intros He. apply (Hl1 (voc_id v)).
        * apply list_elem_of_fmap. by exists v.
        * rewrite He, Hid. by left.
      + done.
      + apply Hothers; [apply elem_of_app; right; by right | done |].
        intros He. apply Hl2. rewrite Hid, <- He.
        apply list_elem_of_fmap. by exists v.
    - apply (count_pos _ (setLearned now1 w)); [done|]. unfold inModule. by simpl. }
  destruct Hcounts as (Hall & Hpos & Htot).
  set (a2 := set_vocabularyStore
               (mkVocabularyStore
                  (updateFirstItem id (setLearned now2)
                     (vocabularyItems (vocabularyStore a)))
                  (currentModuleVocabulary (vocabularyStore a))
                  (vs_error (vocabularyStore a)))
               (set_db d' a)).
  assert (Hdb : db (updateProgress m a2)
                = set_modules (alter (setProgress (of_Z 0) false) m (modules d')) d').
  { unfold updateProgress, fetchModules. cbn [db set_db set_moduleStore].
    apply updateModuleProgress_zero. subst a2.
    cbn [db set_db set_vocabularyStore]. by rewrite Htot. }
  assert (Hmods : modules (db (updateProgress m a2)) !! m
                  = Some (setProgress (of_Z 0) false row)).
  { rewrite Hdb. cbn [modules set_modules]. rewrite lookup_alter_eq.
    replace (modules d') with (modules (db a)) by done. by rewrite Hrow. }
  cbn [fst snd]. split; [done|]. rewrite Hdb at 1 2 3.
  cbn [vocabulary set_modules totalWords learnedRows].
  split; [exact Hpos|]. split; [exact Hall|]. split; [exact Hmods|]. split.
  - unfold updateProgress at 1. unfold fetchModules at 1.
    cbn [moduleStore set_moduleStore]. apply getModuleById_toArray.
    fold (updateProgress m a2) in Hmods.
    unfold updateProgress, fetchModules in Hmods.
    cbn [db set_db set_moduleStore] in Hmods. exact Hmods.
  - rewrite Hdb. unfold fetchUserProgress. cbn [userProgress set_modules]. done.
Qed.

Lemma markAsLearned_last_word_witness :
  let a := fetchAllVocabulary
             (mkApp progressExampleDB (mkVocabularyStore [] [] None) emptyQuizStore
                (mkModuleStore [] None)) in
  let r := markAsLearned 1000 1001 2 (a, mkUserStore None None false) in
  r.2 = true
  /\ learnedRows 1 (db r.1.1) = totalWords 1 (db r.1.1)
  /\ (completed <$> modules (db r.1.1) !! 1%nat) = Some false.
Proof.
  intros a r.
  destruct (markAsLearned_last_word 1000 1001 2 1 a (mkUserStore None None false)
              (word 2 1 "carro" "voiture" false None)
              (word 2 1 "carro" "voiture" false None)
              (mkModule "Maison" "La maison" "A1" "maison" 1 false (of_Z 0) 3))
    as (H1 & _ & H2 & H3 & _).
  - apply (bool_decide_unpack _). vm_compute. exact I.
  - apply elem_of_cons. right. apply elem_of_cons. by left.
  - reflexivity.
  - reflexivity.
  - intros v Hv Hvm Hvid. cbn in Hv.
    repeat (apply elem_of_cons in Hv as [->|Hv]; [done|]).
    by apply elem_of_nil in Hv.
  - reflexivity.
  - reflexivity.
  - reflexivity.
  - vm_compute. reflexivity.
  - split; [exact H1|]. split; [exact H2|]. fold r in H3. by rewrite H3.
Defined.

(** ** Getters of the module store *)

Lemma orderCompare_trans (a b c : nat * Module_) :
  before orderCompare a b -> before orderCompare b c -> before orderCompare a c.
Proof. unfold before, orderCompare. lia. Qed.

Lemma orderCompare_total (a b : nat * Module_) :
  0 < orderCompare a b -> before orderCompare b a.
Proof. unfold before, orderCompare. lia. Qed.

Lemma sortedByOrder (l : list (nat * Module_)) :
  StronglySorted (before orderCompare) (Array_sort orderCompare l).
Proof.
  apply Array_sort_sorted; [apply orderCompare_trans | apply orderCompare_total].
Qed.

Lemma StronglySorted_filter {A} (R : A -> A -> Prop) (P : A -> Prop)
    `{forall x, Decision (P x)} (l : list A) :
  StronglySorted R l -> StronglySorted R (filter P l).
Proof.
  induction 1 as [|x l Hl IH Hx]; [constructor|].
  rewrite filter_cons. destruct (decide (P x)); [|done].
  constructor; [done|]. rewrite Forall_forall in *.
  intros y [_ Hy]%list_elem_of_filter. by apply Hx.
Qed.

(** The first element a search accepts, with what stands before it. *)
Lemma find_split {A} (f : A -> bool) (l : list A) (x : A) :
  List.find f l = Some x ->
  exists l1 l2, l = l1 ++ x :: l2 /\ f x = true /\ Forall (fun y => f y = false) l1.
Proof.
  induction l as [|y l IH]; [done|]. simpl.
  destruct (f y) eqn:Hy.
  - intros [= ->]. by exists [], l.
  - intros (l1 & l2 & -> & Hx & Hl1)%IH.
    exists (y :: l1), l2. split; [done|]. split; [done|]. by constructor.
Qed.

Lemma find_none_Forall {A} (f : A -> bool) (l : list A) :
  List.find f l = None <-> Forall (fun y => f y = false) l.
Proof.
  induction l as [|y l IH]; simpl; [by split; [constructor|]|].
  rewrite Forall_cons. destruct (f y); [|by rewrite IH; intuition].
  split; [done|]. by intros [? _].
Qed.

(** [getNextModuleToStudy] leaves the list of the store sorted by [order]
    (the getter sorts the state itself, keeping its modules); it answers
    [null] exactly when no loaded module has a progress below 100, and
    otherwise with a loaded module of progress below 100 whose [order] is
    the least among those. *)
Theorem getNextModuleToStudy_spec (ms : ModuleStore) :
  let ms' := (getNextModuleToStudy ms).1 in
  let next := (getNextModuleToStudy ms).2 in
  ms_modules ms' ≡ₚ ms_modules ms
  /\ StronglySorted (before orderCompare) (ms_modules ms')
  /\ (next = None <-> Forall (fun m => unfinished m = false) (ms_modules ms))
  /\ (forall m, next = Some m ->
        m ∈ ms_modules ms /\ unfinished m = true
        /\ forall m', m' ∈ ms_modules ms -> unfinished m' = true ->
                      order m.2 <= order m'.2).
Proof.
  unfold getNextModuleToStudy. cbn [fst snd ms_modules].
  set (sorted := Array_sort orderCompare (ms_modules ms)).
  assert (Hperm : sorted ≡ₚ ms_modules ms) by apply Array_sort_perm.
  assert (Hsorted : StronglySorted (before orderCompare) sorted) by apply sortedByOrder.
  split; [done|]. split; [done|]. split.
  - rewrite find_none_Forall. by rewrite Hperm.
  - intros m (l1 & l2 & Hl & Hm & Hl1)%find_split.
    split; [|split; [done|]].
    + rewrite <- Hperm, Hl. apply elem_of_app. right. by left.
    + intros m' Hm' Hun. rewrite <- Hperm, Hl in Hm'.
      rewrite Hl in Hsorted. apply StronglySorted_app in Hsorted as (_ & _ & Hs).
      apply StronglySorted_cons in Hs as [Hs _].
      apply elem_of_app in Hm' as [Hm'|Hm'].
      * rewrite Forall_forall in Hl1. rewrite (Hl1 _ Hm') in Hun. done.
      * apply elem_of_cons in Hm' as [->|Hm']; [lia|].
        rewrite Forall_forall in Hs. specialize (Hs _ Hm').
        unfold before, orderCompare in Hs. lia.
Qed.

(** The modules the dashboard shows as in progress: at most three, each a
    loaded module with a progress strictly between 0 and 100, in the order
    of their [order] field; and every loaded module in progress that is
    not shown has an [order] at least as large as each one shown. *)
Theorem recentModules_spec (ms : ModuleStore) :
  let shown := recentModules ms in
  (length shown <= 3)%nat
  /\ Forall (fun m => m ∈ ms_modules ms /\ inProgress m = true) shown
  /\ StronglySorted (before orderCompare) shown
  /\ (forall m m', m ∈ shown -> m' ∈ ms_modules ms -> inProgress m' = true ->
                   m' ∉ shown -> order m.2 <= order m'.2)
  /\ length shown
     = (3 `min` length (filter (fun m => inProgress m = true) (ms_modules ms)))%nat.
Proof.
  unfold recentModules, getModulesSortedByOrder.
  set (sorted := Array_sort orderCompare (ms_modules ms)).
  set (cand := filter (fun m => inProgress m = true) sorted).
  assert (Hperm : sorted ≡ₚ ms_modules ms) by apply Array_sort_perm.
  assert (Hcand : StronglySorted (before orderCompare) cand)
    by apply StronglySorted_filter, sortedByOrder.
  cbv zeta. split; [rewrite length_take; lia|]. split; [|split; [|split]].
  - apply Forall_forall. intros m Hm. apply (subseteq_take 3 cand) in Hm.
    apply list_elem_of_filter in Hm as [? Hm]. by rewrite Hperm in Hm.
  - by apply StronglySorted_take.
  - intros m m' Hm Hm' Hin Hnot.
    assert (m' ∈ cand) as Hc.
    { apply list_elem_of_filter. split; [done|]. by rewrite Hperm. }
    rewrite <- (take_drop 3 cand) in Hc, Hcand.
    apply elem_of_app in Hc as [Hc|Hc]; [done|].
    pose proof (StronglySorted_app_1_elem_of _ _ _ _ _ Hcand Hm Hc) as Hb.
    unfold before, orderCompare in Hb. lia.
  - rewrite length_take. subst cand. by rewrite Hperm.
Qed.

Lemma foldl_pushByLevel_None (l : list (nat * Module_)) :
  foldl pushByLevel None l = None.
Proof. by induction l. Qed.

(** The grouping loop: it throws exactly when a level is a name inherited
    from [Object.prototype]; otherwise every group receives, behind what it
    held, the modules of its level in the order of the list. *)
Lemma foldl_pushByLevel (l : list (nat * Module_)) :
  forall acc : gmap string (list (nat * Module_)),
    (forall lv, acc !! lv <> Some []) ->
    (Exists (fun m => level m.2 ∈ objectPrototypeKeys) l ->
       foldl pushByLevel (Some acc) l = None)
    /\ (Forall (fun m => level m.2 ∉ objectPrototypeKeys) l ->
        exists g, foldl pushByLevel (Some acc) l = Some g
          /\ (forall lv, g !! lv <> Some [])
          /\ forall lv, default [] (g !! lv)
                        = default [] (acc !! lv) ++ filter (fun m => level m.2 = lv) l).
Proof.
  induction l as [|m l IH]; intros acc Hacc.
  - split; [by intros ?%Exists_nil|]. intros _. exists acc.
    split; [done|]. split; [done|]. intros lv. by rewrite filter_nil, app_nil_r.
  - cbn [foldl]. unfold pushByLevel at 2 4.
    destruct (decide (level m.2 ∈ objectPrototypeKeys)) as [Hin|Hnin].
    + rewrite bool_decide_eq_true_2 by done. rewrite foldl_pushByLevel_None.
      split; [done|]. intros [? _]%Forall_cons. done.
    + rewrite bool_decide_eq_false_2 by done.
      set (acc' := <[level m.2 := default [] (acc !! level m.2) ++ [m]]> acc).
      assert (Hacc' : forall lv, acc' !! lv <> Some []).
      { intros lv. subst acc'. destruct (decide (lv = level m.2)) as [->|Hne].
        - rewrite lookup_insert_eq. intros [= H]. by destruct (default _ _).
        - rewrite lookup_insert_ne by done. apply Hacc. }
      destruct (IH acc' Hacc') as [IH1 IH2]. split.
      * intros [?|?]%Exists_cons; [done|by apply IH1].
      * intros [_ Hl]%Forall_cons. destruct (IH2 Hl) as (g & Hg & Hne & Hgrp).
        exists g. split; [done|]. split; [done|].
        intros lv. rewrite Hgrp, filter_cons. subst acc'.
        destruct (decide (lv = level m.2)) as [->|Hne'].
        -- rewrite lookup_insert_eq, decide_True by done. simpl.
           by rewrite <- app_assoc.
        -- rewrite lookup_insert_ne, decide_False by done. done.
Qed.

(** [getModulesByLevel]: the getter throws exactly when the level of some
    loaded module is a property name every object inherits ("constructor",
    "toString", ...); otherwise a level is a key of the result exactly when
    some loaded module has it, and its group is the modules of that level
    sorted by [order]: a permutation of them, ascending. *)
Theorem getModulesByLevel_spec (ms : ModuleStore) :
  (getModulesByLevel ms = None
   <-> Exists (fun m => level m.2 ∈ objectPrototypeKeys) (ms_modules ms))
  /\ forall groups, getModulesByLevel ms = Some groups ->
       forall lv,
         let ofLevel := filter (fun m => level m.2 = lv) (ms_modules ms) in
         (groups !! lv = None <-> ofLevel = [])
         /\ forall group, groups !! lv = Some group ->
              group = Array_sort orderCompare ofLevel
              /\ group ≡ₚ ofLevel
              /\ StronglySorted (before orderCompare) group
              /\ group <> [].
Proof.
  unfold getModulesByLevel.
  destruct (foldl_pushByLevel (ms_modules ms) ∅) as [Hthrow Hok].
  { intros lv. by rewrite lookup_empty. }
  destruct (decide (Exists (fun m => level m.2 ∈ objectPrototypeKeys) (ms_modules ms)))
    as [Hex|Hex].
  - rewrite (Hthrow Hex). split; [done|]. by intros groups [=].
  - apply not_Exists_Forall in Hex; [|intros m; apply _].
    destruct (Hok Hex) as (g & -> & Hne & Hgrp). split.
    + split; [done|]. intros Hex'. exfalso.
      apply Exists_exists in Hex' as (m & Hm & Hin).
      rewrite Forall_forall in Hex. by apply (Hex m Hm).
    + intros groups [= <-] lv. specialize (Hgrp lv).
      rewrite lookup_empty in Hgrp. simpl in Hgrp.
      set (ofLevel := filter (fun m => level m.2 = lv) (ms_modules ms)) in *.
      rewrite lookup_fmap. specialize (Hne lv).
      destruct (g !! lv) as [grp|] eqn:Hlv; simpl in *.
      * subst grp. split; [split; [done|]; by intros Hn; rewrite Hn in Hne|].
        intros group [= <-]. split; [done|]. split; [apply Array_sort_perm|].
        split; [apply sortedByOrder|].
        intros Hnil. apply Hne. f_equal.
        apply Permutation_nil. rewrite <- Hnil. apply Array_sort_perm.
      * split; [by split|]. by intros group [=].
Qed.

(** ** Quiz store: walking through the questions *)

(** From [resetQuiz], [k] calls of [nextQuestion] stand on question
    [min k (n - 1)] of the [n] loaded questions, [currentQuiz] being that
    question (and [null] without questions); the next call answers [true]
    exactly when a further question is left; [getNextQuestion] gives the
    current question; no result is recorded on the way. *)
Theorem nextQuestion_walk (qs : QuizStore) (k : nat) :
  let st := Nat.iter k (fun s => (nextQuestion s).1) (resetQuiz qs) in
  currentQuizIndex st = (k `min` (length (qs_quizzes qs) - 1))%nat
  /\ currentQuiz st = qs_quizzes qs !! currentQuizIndex st
  /\ qs_quizzes st = qs_quizzes qs
  /\ quizResults st = []
  /\ ((nextQuestion st).2 = true <-> (S k < length (qs_quizzes qs))%nat)
  /\ getNextQuestion st = currentQuiz st.
Proof.
  cbv zeta.
  assert (H : let st := Nat.iter k (fun s => (nextQuestion s).1) (resetQuiz qs) in
              currentQuizIndex st = (k `min` (length (qs_quizzes qs) - 1))%nat
              /\ currentQuiz st = qs_quizzes qs !! currentQuizIndex st
              /\ qs_quizzes st = qs_quizzes qs
              /\ quizResults st = []).
  { induction k as [|k IH]; cbv zeta.
    - unfold resetQuiz. simpl. repeat split; try done.
      by destruct (qs_quizzes qs).
    - rewrite Nat.iter_succ. destruct IH as (Hi & Hc & Hq & Hr).
      set (st := Nat.iter k (fun s => (nextQuestion s).1) (resetQuiz qs)) in *.
      unfold nextQuestion. rewrite Hq, Hi.
      destruct (Z.ltb_spec (Z.of_nat (k `min` (length (qs_quizzes qs) - 1)))
                  (Z.of_nat (length (qs_quizzes qs)) - 1)) as [Hlt|Hge];
        cbn [fst snd currentQuizIndex currentQuiz qs_quizzes quizResults].
      + repeat split; try done. lia.
      + rewrite Hi, Hc, Hq, Hr, Hi. repeat split; try done. lia. }
  cbv zeta in H. destruct H as (Hi & Hc & Hq & Hr).
  set (st := Nat.iter k (fun s => (nextQuestion s).1) (resetQuiz qs)) in *.
  repeat (split; [done|]). split.
  - unfold nextQuestion. rewrite Hq, Hi.
    destruct (Z.ltb_spec (Z.of_nat (k `min` (length (qs_quizzes qs) - 1)))
                (Z.of_nat (length (qs_quizzes qs)) - 1)) as [Hlt|Hge]; simpl.
    + split; [lia|done].
    + split; [done|lia].
  - unfold getNextQuestion. rewrite Hc, Hq, Hi.
    destruct (Nat.leb_spec (length (qs_quizzes qs))
                (k `min` (length (qs_quizzes qs) - 1))) as [Hle|Hlt]; [|done].
    symmetry. apply lookup_ge_None. lia.
Qed.

(** ** Quiz store: answers *)

Section SubmitAnswerFacts.

Context (toLowerCase : string -> string).

Lemma find_markFirstQuiz (questionId : nat) (l : list Quiz) :
  List.find (fun q => Nat.eqb (quiz_id q) questionId) (markFirstQuiz questionId l)
  = setCompleted <$> List.find (fun q => Nat.eqb (quiz_id q) questionId) l.
Proof.
  induction l as [|q l IH]; [done|]. simpl.
  destruct (Nat.eqb (quiz_id q) questionId) eqn:Hq; simpl; by rewrite Hq.
Qed.

Lemma length_markFirstQuiz (questionId : nat) (l : list Quiz) :
  length (markFirstQuiz questionId l) = length l.
Proof.
  induction l as [|q l IH]; [done|]. simpl.
  destruct (Nat.eqb (quiz_id q) questionId); simpl; by rewrite ?IH.
Qed.

Lemma markQuiz_rows (questionId : nat) (l : list Quiz) :
  Forall2 (fun q q' => (quiz_id q <> questionId /\ q' = q)
                       \/ (quiz_id q = questionId /\ q' = setCompleted q))
    l (markQuiz questionId l).
Proof.
  induction l as [|q l IH]; [constructor|]. simpl. constructor; [|done].
  destruct (Nat.eqb_spec (quiz_id q) questionId); [by right|by left].
Qed.

(** [submitAnswer]: for a question the store does not hold, nothing is
    recorded and the answer is [false]; for one it holds, the answer is
    compared after [toLowerCase], exactly one result is appended on every
    call, a wrong answer changes neither the table nor the questions of the
    store, and a right one sets [completed] on the row of the question and
    leaves every other row as it is.  No call clears a [completed] flag or
    touches the vocabulary or the modules. *)
Theorem submitAnswer_spec (questionId : nat) (ans : string) (a : App) :
  let r := submitAnswer toLowerCase questionId ans a in
  (questionId ∉ quiz_id <$> qs_quizzes (quizStore a) -> r = (a, false))
  /\ (forall q,
        List.find (fun q => Nat.eqb (quiz_id q) questionId) (qs_quizzes (quizStore a))
        = Some q ->
        (r.2 = true <-> toLowerCase ans = toLowerCase (answer q))
        /\ quizResults (quizStore r.1)
           = quizResults (quizStore a) ++ [(questionId, r.2)]
        /\ (r.2 = false -> db r.1 = db a
                           /\ qs_quizzes (quizStore r.1) = qs_quizzes (quizStore a))
        /\ (r.2 = true ->
              Forall2 (fun q q' => (quiz_id q <> questionId /\ q' = q)
                                   \/ (quiz_id q = questionId /\ q' = setCompleted q))
                (quizzes (db a)) (quizzes (db r.1))
              /\ List.find (fun q => Nat.eqb (quiz_id q) questionId)
                   (qs_quizzes (quizStore r.1)) = Some (setCompleted q)))
  /\ Forall2 (fun q q' => quiz_id q' = quiz_id q
                          /\ (quiz_completed q = true -> quiz_completed q' = true))
       (quizzes (db a)) (quizzes (db r.1))
  /\ vocabulary (db r.1) = vocabulary (db a)
  /\ modules (db r.1) = modules (db a).
Proof.
  cbv zeta. unfold submitAnswer.
  destruct (List.find _ (qs_quizzes (quizStore a))) as [q|] eqn:Hfind.
  - split; [|split].
    + intros Hnot. exfalso. apply find_some in Hfind as [Hin Hid].
      apply Hnot, list_elem_of_fmap. exists q.
      split; [symmetry; by apply Nat.eqb_eq | by apply list_elem_of_In].
    + intros q' [= <-].
      destruct (String.eqb_spec (toLowerCase ans) (toLowerCase (answer q)))
        as [He|Hne]; cbn [fst snd quizResults quizStore set_quizStore db set_db
                          qs_quizzes quizzes set_quizzes].
      * split; [done|]. split; [done|]. split; [done|]. intros _.
        split; [apply markQuiz_rows|]. by rewrite find_markFirstQuiz, Hfind.
      * split; [by split|]. split; [done|]. split; [done|]. done.
    + destruct (String.eqb (toLowerCase ans) (toLowerCase (answer q)));
        cbn [fst snd db set_db quizzes set_quizzes vocabulary modules set_quizStore].
      * split; [|done].
        eapply Forall2_impl; [apply markQuiz_rows|].
        intros x y [[_ ->]|[_ ->]]; done.
      * split; [|done]. apply Forall2_same_length_lookup_2; [done|].
        intros i x y Hx Hy. by simplify_eq.
  - split; [done|]. split; [done|]. cbn [fst snd]. split; [|done].
    apply Forall2_same_length_lookup_2; [done|].
    intros i x y Hx Hy. by simplify_eq.
Qed.

(** [submitAnswer] has no guard against a second answer: [k] calls for one
    and the same question of the store record [k] results and leave the
    number of questions as it is, so that [isQuizComplete] holds once the
    results are as many as the questions, whatever was answered. *)
Theorem submitAnswer_repeated (questionId : nat) (ans : string) (a : App)
    (q : Quiz) (k : nat) :
  List.find (fun q => Nat.eqb (quiz_id q) questionId) (qs_quizzes (quizStore a))
  = Some q ->
  let a' := Nat.iter k (fun a => (submitAnswer toLowerCase questionId ans a).1) a in
  length (quizResults (quizStore a')) = (length (quizResults (quizStore a)) + k)%nat
  /\ length (qs_quizzes (quizStore a')) = length (qs_quizzes (quizStore a))
  /\ ((length (qs_quizzes (quizStore a)) <= length (quizResults (quizStore a)) + k)%nat ->
      isQuizComplete (quizStore a') = true).
Proof.
  intros Hfind. cbv zeta.
  assert (H : let a' := Nat.iter k
                (fun a => (submitAnswer toLowerCase questionId ans a).1) a in
              is_Some (List.find (fun q => Nat.eqb (quiz_id q) questionId)
                         (qs_quizzes (quizStore a')))
              /\ length (quizResults (quizStore a'))
                 = (length (quizResults (quizStore a)) + k)%nat
              /\ length (qs_quizzes (quizStore a')) = length (qs_quizzes (quizStore a))).
  { induction k as [|k IH]; cbv zeta.
    - simpl. split; [by eexists|]. split; [lia|done].
    - rewrite Nat.iter_succ.
      set (a' := Nat.iter k (fun a => (submitAnswer toLowerCase questionId ans a).1) a) in *.
      destruct IH as ([q' Hq'] & Hr & Hl). unfold submitAnswer. rewrite Hq'.
      destruct (String.eqb _ _);
        cbn [fst quizStore set_quizStore qs_quizzes quizResults].
      + rewrite find_markFirstQuiz, Hq', length_markFirstQuiz, length_app, Hr, Hl.
        split; [by eexists|]. simpl. split; [lia|done].
      + rewrite Hq', length_app, Hr, Hl. split; [by eexists|]. simpl. split; [lia|done]. }
  cbv zeta in H. destruct H as (_ & Hr & Hl).
  split; [done|]. split; [done|]. intros Hle.
  unfold isQuizComplete. apply Nat.leb_le. lia.
Qed.

End SubmitAnswerFacts.

Lemma submitAnswer_repeated_witness :
  let qs := [mkQuiz 1 1 Audio "q1" None "casa" false;
             mkQuiz 2 1 Audio "q2" None "gato" false] in
  let a := mkApp (mkDB [] ∅ [] qs 3) (mkVocabularyStore [] [] None)
             (mkQuizStore qs (Some (mkQuiz 1 1 Audio "q1" None "casa" false)) 0 [] None)
             (mkModuleStore [] None) in
  isQuizComplete
    (quizStore (Nat.iter 2 (fun a => (submitAnswer (fun s => s) 1 "casa" a).1) a))
  = true.
Proof.
  intros qs a.
  destruct (submitAnswer_repeated (fun s => s) 1 "casa" a
              (mkQuiz 1 1 Audio "q1" None "casa" false) 2) as (_ & _ & H).
  - reflexivity.
  - apply H. simpl. lia.
Defined.

(** [getCurrentScore] is the percentage of the recorded results that are
    correct: an integer of 0..100, 0 without results, 100 when every
    recorded answer is correct, and 100 only when at most one result in two
    hundred is wrong. *)
Theorem getCurrentScore_spec (qs : QuizStore) :
  let n := length (quizResults qs) in
  let correct := length (filter (fun result => result.2 = true) (quizResults qs)) in
  Z.of_nat n < 2 ^ 44 ->
  getCurrentScore qs = percentage correct n
  /\ exists p : Z,
       getCurrentScore qs = of_Z p /\ 0 <= p <= 100
       /\ (n = 0%nat -> p = 0)
       /\ ((0 < n)%nat -> correct = n -> p = 100)
       /\ (p = 100 -> (0 < n)%nat /\ 200 * (Z.of_nat n - Z.of_nat correct) <= Z.of_nat n).
Proof.
  intros n correct Hb.
  assert (Heq : getCurrentScore qs = percentage correct n).
  { unfold getCurrentScore, percentage. fold n correct. by destruct n. }
  assert (Hle : (correct <= n)%nat) by apply length_filter.
  split; [done|]. rewrite Heq.
  destruct (percentage_range correct n Hle Hb) as (p & Hp & Hrange & H0 & _).
  exists p. split; [done|]. split; [done|]. split; [done|]. split.
  - intros Hn Hc. rewrite Hc, percentage_all in Hp by done.
    pose proof (eqb_of_Z_100 p Hrange) as He. rewrite <- Hp in He.
    apply Z.eqb_eq. rewrite <- He. by vm_compute.
  - intros ->. apply percentage_100_inv; [done|done|]. rewrite Hp. by vm_compute.
Qed.

Lemma getCurrentScore_spec_witness :
  getCurrentScore (mkQuizStore [] None 0 [(1%nat, true); (2%nat, false); (3%nat, true)] None)
  = percentage 2 3.
Proof.
  apply (getCurrentScore_spec
           (mkQuizStore [] None 0 [(1%nat, true); (2%nat, false); (3%nat, true)] None)).
  vm_compute. reflexivity.
Defined.

(** ** The quiz page as a whole *)

(** What every handler of the page keeps true of the session. *)
Definition sessionInv (s : Session) : Prop :=
  let r := results s in
  score r = 10 * correctAnswers r
  /\ 0 <= correctAnswers r /\ 0 <= incorrectAnswers r
  /\ correctAnswers r + incorrectAnswers r
     <= Z.of_nat (currentQuestionIndex s) + (if hasAnswered s then 1 else 0)
  /\ match q ← quiz s; questions q with
     | Some (x :: qs) => (currentQuestionIndex s < length (x :: qs))%nat
     | _ => correctAnswers r + incorrectAnswers r = 0
     end.

Ltac session_cases s :=
  unfold sessionInv, currentQuestion in *;
  destruct s as [[[vid [[|x qs]|]]|] idx sel ok answered r]; cbn in *.

Lemma handle_sessionInv (moduleId : nat) (st : Session * App) (e : QuizView.Event) :
  sessionInv st.1 ->
  sessionInv (QuizView.handle moduleId st e).1
  /\ quiz (QuizView.handle moduleId st e).1 = quiz st.1.
Proof.
  destruct st as [s a]. cbn [fst]. intros Hinv. destruct e as [answer| |].
  - cbn [QuizView.handle fst snd]. unfold selectAnswer.
    destruct (hasAnswered s) eqn:Ha; [done|].
    session_cases s; subst answered; rewrite ?lookup_nil; cbn;
      try (split; [lia|done]).
    destruct ((x :: qs) !! idx) as [q|] eqn:Hq; cbn; [|split; [lia|done]].
    destruct (String.eqb (correctAnswer q) answer); cbn; (split; [lia|done]).
  - cbn [QuizView.handle]. unfold QuizView.nextQuestion, QuizView.isLastQuestion,
      viewCompleteQuiz. cbn [fst snd].
    unfold resetQuestion.
    session_cases s; try (split; [lia|done]);
      match goal with
      | |- context [Z.eqb ?i ?n] => destruct (Z.eqb_spec i n)
      end; cbn; (split; [destruct answered; lia|done]).
  - cbn [QuizView.handle]. unfold QuizView.restartQuiz, resetQuestion. cbn [fst snd].
    session_cases s; (split; [lia|done]).
Qed.

Lemma run_sessionInv (moduleId : nat) (events : list QuizView.Event) :
  forall st, sessionInv st.1 ->
    sessionInv (QuizView.run moduleId st events).1
    /\ quiz (QuizView.run moduleId st events).1 = quiz st.1.
Proof.
  induction events as [|e events IH]; intros st Hinv; [done|].
  change (QuizView.run moduleId st (e :: events))
    with (QuizView.run moduleId (QuizView.handle moduleId st e) events).
  destruct (handle_sessionInv moduleId st e Hinv) as [H1 H2].
  destruct (IH _ H1) as [H3 H4]. split; [done|]. by rewrite H4.
Qed.

(** The points of a quiz session, from the state the page starts in and
    through any sequence of answers, moves to the next question and
    restarts: the score is ten times the number of correct answers, the
    answers counted never exceed the number of questions of the quiz, so
    the score is at most ten points per question; a quiz of fewer than
    seven questions never reaches 70 points. *)
Theorem session_score (moduleId : nat) (q : option ViewQuiz) (shown : nat) (a : App)
    (events : list QuizView.Event) :
  let s0 := mkSession q 0 None false false (mkResults 0 shown 0 0 false) in
  let s := (QuizView.run moduleId (s0, a) events).1 in
  let n := Z.of_nat (length (default [] (v ← q; questions v))) in
  score (results s) = 10 * correctAnswers (results s)
  /\ 0 <= correctAnswers (results s) /\ 0 <= incorrectAnswers (results s)
  /\ correctAnswers (results s) + incorrectAnswers (results s) <= n
  /\ score (results s) <= 10 * n
  /\ (n < 7 -> score (results s) < 70)
  /\ quiz s = q.
Proof.
  intros s0 s n.
  destruct (run_sessionInv moduleId events (s0, a)) as [Hinv Hq].
  { unfold sessionInv. subst s0. cbn.
    destruct q as [[vid [[|x qs]|]]|]; cbn; repeat split; lia. }
  fold s in Hinv, Hq. cbn [fst] in Hq.
  assert (Hquiz : quiz s = q) by (rewrite Hq; by subst s0).
  unfold sessionInv in Hinv. rewrite Hquiz in Hinv. subst n.
  destruct Hinv as (H1 & H2 & H3 & H4 & H5).
  assert (correctAnswers (results s) + incorrectAnswers (results s)
          <= Z.of_nat (length (default [] (v ← q; questions v)))) as Hn.
  { destruct (q ≫= questions) as [[|x qs]|]; cbn in *; [lia| |lia].
    destruct (hasAnswered s); lia. }
  repeat split; try done; lia.
Qed.

(** The marking of the options once an answer is taken: for a session
    that shows a question and has no answer yet, after [selectAnswer] the
    correct option is classed "correct", the chosen option "incorrect" when
    it is not the correct one, every other option gets no class; before
    the answer no option has a class. *)
Theorem getAnswerClass_after_answer (answer : string) (s : Session) (q : Question) :
  hasAnswered s = false -> currentQuestion s = Some q ->
  let s' := (selectAnswer answer s).1 in
  (forall o, QuizView.getAnswerClass o s = Some EmptyString)
  /\ QuizView.getAnswerClass (correctAnswer q) s' = Some "correct"%string
  /\ (answer <> correctAnswer q ->
        QuizView.getAnswerClass answer s' = Some "incorrect"%string)
  /\ (forall o, o <> correctAnswer q -> o <> answer ->
                QuizView.getAnswerClass o s' = Some EmptyString)
  /\ (isAnswerCorrect s' = true <-> answer = correctAnswer q).
Proof.
  intros Ha Hq. cbv zeta. unfold selectAnswer. rewrite Ha, Hq.
  split; [intros o; unfold QuizView.getAnswerClass; by rewrite Ha|].
  assert (Hq' : forall sel ok r,
            currentQuestion (mkSession (quiz s) (currentQuestionIndex s) sel ok true r)
            = Some q) by done.
  destruct (String.eqb_spec (correctAnswer q) answer) as [He|Hne];
    unfold QuizView.getAnswerClass; cbn [fst hasAnswered negb selectedAnswer
                                          isAnswerCorrect]; rewrite Hq'.
  - rewrite String.eqb_refl. split; [done|]. split; [by intros ?|]. split; [|done].
    intros o Ho1 Ho2. apply String.eqb_neq in Ho1. rewrite Ho1.
    rewrite bool_decide_eq_false_2; [done|congruence].
  - rewrite String.eqb_refl. split; [done|]. split; [|split].
    + intros Hne'. apply String.eqb_neq in Hne'. rewrite Hne'.
      by rewrite bool_decide_eq_true_2.
    + intros o Ho1 Ho2. apply String.eqb_neq in Ho1. rewrite Ho1.
      rewrite bool_decide_eq_false_2; [done|congruence].
    + split; [done|]. intros ->. done.
Qed.

Lemma getAnswerClass_after_answer_witness :
  QuizView.getAnswerClass "maison" (selectAnswer "eau" sampleSession).1
  = Some "correct"%string.
Proof.
  apply (getAnswerClass_after_answer "eau" sampleSession
           (mkQuestion "Traduisez: casa" ["eau"; "maison"; "livre"; "voiture"] "maison"));
    reflexivity.
Defined.

(** ** Quiz generation: large pools and keys *)

Lemma forPush_lookup {A} (n : nat) (body : nat -> option A) (l : list A) :
  forPush n body = Some l ->
  length l = n /\ forall i x, l !! i = Some x -> (i < n)%nat /\ body i = Some x.
Proof.
  unfold forPush. intros Hl. apply mapM_Some_1 in Hl. split.
  - apply Forall2_length in Hl. by rewrite length_seq in Hl.
  - intros i x Hx.
    destruct (Forall2_lookup_r _ _ _ _ _ Hl Hx) as (j & Hj & Hb).
    by apply lookup_seq in Hj as [-> Hlt].
Qed.

(** A pool of ten items or more: the generation succeeds and stores
    exactly ten questions for the module, under the next ten keys of the
    table, the call resolving to the last of them; question [k] is about
    pool item [k]: the first five are multiple-choice questions answered by
    the target text of the item, the next three fill-in-blank questions and
    the last two audio questions, answered by its source text; none is
    completed, and the store is reset onto the first of them. *)
Theorem generateQuizForModule_ten (shuffle : forall A : Type, nat -> list A -> list A)
    (moduleId : nat) (a : App) :
  (10 <= length (pool moduleId a))%nat ->
  let result := generateQuizForModule shuffle moduleId a in
  let stored := qs_quizzes (quizStore result.1) in
  result.2 = Generated (quizNextId (db a) + 9)
  /\ filter (ofModule moduleId) (quizzes (db result.1)) = stored
  /\ quiz_id <$> stored = seq (quizNextId (db a)) 10
  /\ quiz_type <$> stored
     = [MultipleChoice; MultipleChoice; MultipleChoice; MultipleChoice;
        MultipleChoice; FillInBlank; FillInBlank; FillInBlank; Audio; Audio]
  /\ (forall k q, stored !! k = Some q ->
        exists item, pool moduleId a !! k = Some item
          /\ answer q = (if (k <? 5)%nat then french item else portuguese item)
          /\ quiz_moduleId q = moduleId /\ quiz_completed q = false)
  /\ currentQuiz (quizStore result.1) = head stored
  /\ currentQuizIndex (quizStore result.1) = 0%nat
  /\ quizResults (quizStore result.1) = [].
Proof.
  intros Hlen result stored.
  assert (Hlen4 : (4 <= length (pool moduleId a))%nat) by lia.
  set (voc := pool moduleId a) in *.
  destruct (newQuizzes_Some shuffle moduleId voc)
    as (mc & fib & au & Hnew & Hmc & Hnmc & Hnfib & Hnau & Hfib & Hau); [lia|].
  apply forPush_lookup in Hmc as [_ Hmc].
  rewrite Nat.min_r in Hnmc, Hnfib, Hnau by lia.
  destruct (generateQuizForModule_stored shuffle moduleId a _ Hlen4 Hnew)
    as (_ & Hdb & Hstored & Hids & _).
  fold result stored in Hdb, Hstored, Hids.
  assert (Hn : length (mc ++ fib ++ au) = 10%nat) by (rewrite !length_app; lia).
  rewrite Hn in Hids.
  assert (Hres : result = (fetchQuizzesByModule moduleId
                             (set_db (bulkAdd (mc ++ fib ++ au)
                                        (db (fetchVocabularyByModule moduleId
                                               (set_db (deleteQuizzes moduleId (db a)) a)))).1
                                (fetchVocabularyByModule moduleId
                                   (set_db (deleteQuizzes moduleId (db a)) a))),
                           Generated (quizNextId (db a) + 9))).
  { subst result. rewrite generateQuizForModule_unfold by exact Hlen4.
    fold voc. rewrite Hnew. cbv zeta. unfold bulkAdd. rewrite Hn.
    cbn [fst snd db set_db fetchVocabularyByModule set_vocabularyStore deleteQuizzes
           set_quizzes quizNextId]. f_equal. f_equal.
    simpl. lia. }
  assert (Hk : forall k q, stored !! k = Some q ->
             (mc ++ fib ++ au) !! k = Some (withoutId q)).
  { intros k q Hq. rewrite <- Hstored, list_lookup_fmap, Hq. done. }
  split; [by rewrite Hres|]. split; [done|]. split; [done|]. split; [|split].
  - assert (Hty : nq_type <$> (mc ++ fib ++ au)
                  = replicate 5 MultipleChoice ++ replicate 3 FillInBlank
                    ++ replicate 2 Audio).
    { rewrite !fmap_app. f_equal; [|f_equal].
      - rewrite <- Hnmc. apply list_eq_same_length with (length mc);
          [by rewrite ?length_fmap, ?length_replicate..|].
        intros i x y Hi Hx Hy. apply lookup_replicate in Hy as [-> _].
        rewrite list_lookup_fmap in Hx.
        destruct (mc !! i) as [q|] eqn:Hq; [|done]. injection Hx as <-.
        apply Hmc in Hq as [_ Hq]. unfold multipleChoice in Hq.
        destruct (voc !! i); [|done]. simpl in Hq. by injection Hq as <-.
      - rewrite <- Hnfib. apply list_eq_same_length with (length fib);
          [by rewrite ?length_fmap, ?length_replicate..|].
        intros i x y Hi Hx Hy. apply lookup_replicate in Hy as [-> _].
        rewrite list_lookup_fmap in Hx.
        destruct (fib !! i) as [q|] eqn:Hq; [|done]. injection Hx as <-.
        by destruct (Hfib i q Hq) as (item & _ & ->).
      - rewrite <- Hnau. apply list_eq_same_length with (length au);
          [by rewrite ?length_fmap, ?length_replicate..|].
        intros i x y Hi Hx Hy. apply lookup_replicate in Hy as [-> _].
        rewrite list_lookup_fmap in Hx.
        destruct (au !! i) as [q|] eqn:Hq; [|done]. injection Hx as <-.
        by destruct (Hau i q Hq) as (item & _ & ->). }
    rewrite <- Hstored, <- list_fmap_compose in Hty. exact Hty.
  - intros k q Hq. apply Hk in Hq.
    destruct (decide (k < 5)%nat) as [H5|H5].
    + rewrite lookup_app_l in Hq by lia. apply Hmc in Hq as [_ Hq].
      unfold multipleChoice in Hq.
      destruct (voc !! k) as [item|]; [|done]. simpl in Hq.
      exists item. split; [done|]. apply Nat.ltb_lt in H5. rewrite H5.
      destruct q. by injection Hq as <- <- <- <- <- <-.
    + rewrite lookup_app_r in Hq by lia. rewrite Hnmc in Hq.
      assert (Hk5 : (k <? 5)%nat = false) by (apply Nat.ltb_ge; lia). rewrite Hk5.
      destruct (decide (k - 5 < 3)%nat) as [H3|H3].
      * rewrite lookup_app_l in Hq by lia.
        destruct (Hfib _ _ Hq) as (item & Hitem & Hw).
        rewrite windowIndex_offset in Hitem by (fold voc; lia).
        exists item. split; [by replace k with (k - 5 + 5)%nat by lia|].
        destruct q. cbn in Hw. injection Hw as ? ? ? ? ? ?. by subst.
      * rewrite lookup_app_r in Hq by lia. rewrite Hnfib in Hq.
        destruct (Hau _ _ Hq) as (item & Hitem & Hw).
        assert (k - 5 - 3 < 2)%nat as H2.
        { apply lookup_lt_Some in Hq. lia. }
        rewrite windowIndex_offset in Hitem by (fold voc; lia).
        exists item. split; [by replace k with (k - 5 - 3 + 8)%nat by lia|].
        destruct q. cbn in Hw. injection Hw as ? ? ? ? ? ?. by subst.
  - subst stored. by rewrite Hres.
Qed.

Lemma generateQuizForModule_ten_witness :
  let words := [casa; carro; livro; agua; gato;
                word 6 1 "sol" "soleil" false None; word 7 1 "lua" "lune" false None;
                word 8 1 "mar" "mer" false None; word 9 1 "rio" "fleuve" false None;
                word 10 1 "rua" "rue" false None] in
  (generateQuizForModule reverseShuffle 1 (appWith words)).2 = Generated 13.
Proof.
  intros words.
  apply (generateQuizForModule_ten reverseShuffle 1 (appWith words)).
  vm_compute. lia.
Defined.

(** The keys of the quizzes table are in order: no key twice, every key
    below the next key of the table. *)
Definition quizKeysOK (d : DB) : Prop :=
  NoDup (quiz_id <$> quizzes d)
  /\ Forall (fun q => (quiz_id q < quizNextId d)%nat) (quizzes d).

(** Whatever its outcome, [generateQuizForModule] keeps the keys of the
    quizzes table in order, never takes the key generator back, and leaves
    the questions of every other module exactly as they were. *)
Theorem generateQuizForModule_keys (shuffle : forall A : Type, nat -> list A -> list A)
    (moduleId : nat) (a : App) :
  quizKeysOK (db a) ->
  let a' := (generateQuizForModule shuffle moduleId a).1 in
  quizKeysOK (db a')
  /\ (quizNextId (db a) <= quizNextId (db a'))%nat
  /\ filter (fun q => ~ ofModule moduleId q) (quizzes (db a'))
     = filter (fun q => ~ ofModule moduleId q) (quizzes (db a))
  /\ vocabulary (db a') = vocabulary (db a)
  /\ modules (db a') = modules (db a).
Proof.
  intros [Hnd Hlt]. cbv zeta.
  set (kept := filter (fun q => ~ ofModule moduleId q) (quizzes (db a))).
  assert (Hkept : NoDup (quiz_id <$> kept)
                  /\ Forall (fun q => (quiz_id q < quizNextId (db a))%nat) kept
                  /\ filter (fun q => ~ ofModule moduleId q) kept = kept).
  { split; [|split].
    - eapply NoDup_of_submseteq; [|exact Hnd].
      apply fmap_submseteq, sublist_submseteq, sublist_filter.
    - rewrite Forall_forall in *. intros q [_ Hq]%list_elem_of_filter. by apply Hlt.
    - apply filter_Forall_id, Forall_forall. by intros q [? _]%list_elem_of_filter. }
  destruct Hkept as (Hk1 & Hk2 & Hk3).
  unfold generateQuizForModule.
  cbn [fetchVocabularyByModule set_vocabularyStore vocabularyStore
         currentModuleVocabulary set_db db deleteQuizzes set_quizzes vocabulary
         quizStore].
  fold kept.
  destruct (length _ <? 4)%nat; [by cbn|].
  destruct (newQuizzes _ _ _) as [news|] eqn:Hnews; [|by cbn].
  apply newQuizzes_moduleId in Hnews.
  unfold bulkAdd, deleteQuizzes, quizKeysOK.
  cbn [fst snd db set_db fetchQuizzesByModule set_quizStore quizzes set_quizzes
         quizNextId vocabulary modules].
  fold kept.
  set (ids := seq (quizNextId (db a)) (length news)).
  assert (Hids : quiz_id <$> zip_with withId ids news = ids).
  { apply fmap_zip_with_l; [by intros ? []|]. subst ids. by rewrite length_seq. }
  split; [split|split; [lia|split; [|done]]].
  - rewrite fmap_app, Hids. apply NoDup_app. split; [done|]. split; [|apply NoDup_seq].
    intros k Hk Hin. subst ids. apply elem_of_seq in Hin.
    apply list_elem_of_fmap in Hk as (q & -> & Hq).
    rewrite Forall_forall in Hk2. specialize (Hk2 _ Hq). lia.
  - apply Forall_app. split.
    + eapply Forall_impl; [exact Hk2|]. intros q ?. simpl in *. lia.
    + apply Forall_forall. intros q Hq.
      assert (quiz_id q ∈ ids) as Hin.
      { rewrite <- Hids. apply list_elem_of_fmap. by exists q. }
      subst ids. apply elem_of_seq in Hin. lia.
  - rewrite filter_app, Hk3.
    rewrite (filter_Forall_nil (fun q => ~ ofModule moduleId q)); [by rewrite app_nil_r|].
    apply Forall_forall. intros q Hq Hnot. apply Hnot.
    apply list_elem_of_lookup in Hq as [i Hq].
    apply lookup_zip_with_Some in Hq as (id & nq & -> & _ & Hnq).
    rewrite Forall_forall in Hnews. apply Hnews.
    by eapply list_elem_of_lookup_2.
Qed.

Lemma generateQuizForModule_keys_witness :
  quizKeysOK (db (generateQuizForModule reverseShuffle 1
                    (appWith [casa; carro; livro; agua])).1).
Proof.
  apply (generateQuizForModule_keys reverseShuffle 1 (appWith [casa; carro; livro; agua])).
  split.
  - apply (bool_decide_unpack _). vm_compute. exact I.
  - repeat constructor.
Defined.

(** ** Word counts of the modules *)

(** The [wordCount] of every loaded module is the number of vocabulary
    rows of the module. *)
Definition countsInStep (a : App) : Prop :=
  forall id m, (id, m) ∈ ms_modules (moduleStore a) ->
               wordCount m = totalWords id (db a).

Lemma mirrorsDB_unique (a : App) (id : nat) (m1 m2 : Module_) :
  mirrorsDB a ->
  (id, m1) ∈ ms_modules (moduleStore a) -> (id, m2) ∈ ms_modules (moduleStore a) ->
  m1 = m2.
Proof.
  intros [_ Hrows] H1%Hrows H2%Hrows. congruence.
Qed.

Lemma getModuleById_elem (ms : ModuleStore) (id : nat) (m : nat * Module_) :
  getModuleById ms id = Some m -> (id, m.2) ∈ ms_modules ms.
Proof.
  intros Hget. pose proof (getModuleById_key _ _ _ Hget) as Hk.
  unfold getModuleById in Hget. apply find_some in Hget as [Hin _].
  destruct m. simpl in *. subst. by apply list_elem_of_In.
Qed.

(** The effect of one word-count update on a store that mirrors the
    table: the module [id], when loaded, gets [n] more words, the others
    keep theirs. *)
Lemma addWordCount_step (n : nat) (id : nat) (a : App) (target : nat -> nat) :
  mirrorsDB a ->
  (forall k m, (k, m) ∈ ms_modules (moduleStore a) ->
               wordCount m = if decide (k = id) then (target k - n)%nat else target k) ->
  (forall k m, (k, m) ∈ ms_modules (moduleStore a) -> k = id -> (n <= target k)%nat) ->
  let a' := match getModuleById (moduleStore a) id with
            | Some module => updateModule id (setWordCount (wordCount module.2 + n)) a
            | None => a
            end in
  mirrorsDB a' /\ vocabulary (db a') = vocabulary (db a)
  /\ forall k m, (k, m) ∈ ms_modules (moduleStore a') -> wordCount m = target k.
Proof.
  intros Hm Hcount Hle. cbv zeta.
  destruct (getModuleById (moduleStore a) id) as [module|] eqn:Hget.
  - split; [by apply updateModule_mirrorsDB|]. split; [done|].
    intros k m Hin. unfold updateModule in Hin.
    cbn [moduleStore set_moduleStore set_db ms_modules] in Hin.
    apply elem_of_updateFirst in Hin as [[Hk Hin]|(-> & m0 & Hin & ->)];
      [|..|by destruct Hm].
    + rewrite (Hcount k m Hin). by rewrite decide_False.
    + apply getModuleById_elem in Hget.
      rewrite <- (mirrorsDB_unique a id m0 module.2 Hm Hin Hget).
      cbn [wordCount setWordCount]. rewrite (Hcount id m0 Hin), decide_True by done.
      specialize (Hle id m0 Hin eq_refl). lia.
  - split; [done|]. split; [done|]. intros k m Hin.
    rewrite (Hcount k m Hin). rewrite decide_False; [done|].
    intros ->. apply find_key_None in Hget. apply Hget.
    apply list_elem_of_fmap. by exists (id, m).
Qed.

(** [addVocabularyItem] on a module store that mirrors the table and
    whose word counts are in step with the vocabulary: the item is
    appended, under its key, to the table and to the loaded list, and the
    store still mirrors the table with the word counts in step, the module
    of the item, when loaded, having one word more. *)
Theorem addVocabularyItem_wordCount (key : nat) (item : NewVocabulary) (a : App) :
  mirrorsDB a -> countsInStep a ->
  let a' := (addVocabularyItem key item a).1 in
  (addVocabularyItem key item a).2 = Some key
  /\ vocabulary (db a') = vocabulary (db a) ++ [vocWithId key item]
  /\ vocabularyItems (vocabularyStore a')
     = vocabularyItems (vocabularyStore a) ++ [vocWithId key item]
  /\ mirrorsDB a' /\ countsInStep a'
  /\ forall id, totalWords id (db a')
                = (totalWords id (db a) + if decide (id = nv_moduleId item) then 1 else 0)%nat.
Proof.
  intros Hm Hc. cbv zeta.
  set (v := vocWithId key item).
  set (a1 := set_db (set_vocabulary (vocabulary (db a) ++ [v]) (db a)) a).
  set (a2 := set_vocabularyStore (pushItem v (vocabularyStore a1)) a1).
  assert (Htot : forall id, totalWords id (db a2)
            = (totalWords id (db a) + if decide (id = nv_moduleId item) then 1 else 0)%nat).
  { intros id. unfold totalWords. subst a2 a1.
    cbn [db set_db set_vocabularyStore vocabulary set_vocabulary].
    rewrite count_app, count_cons. unfold count. rewrite filter_nil.
    destruct (decide (inModule id v)) as [Hv|Hv], (decide (id = nv_moduleId item))
      as [Hi|Hi]; simpl; try lia; unfold inModule in Hv; simpl in Hv; congruence. }
  assert (Hm2 : mirrorsDB a2) by done.
  destruct (addWordCount_step 1 (nv_moduleId item) a2 (fun k => totalWords k (db a2)) Hm2)
    as (H1 & H2 & H3).
  { intros k m Hin. rewrite Htot. rewrite (Hc k m Hin).
    destruct (decide (k = nv_moduleId item)); lia. }
  { intros k m Hin ->. rewrite Htot, decide_True by done. lia. }
  unfold addVocabularyItem. fold v. fold a1. fold a2.
  destruct (getModuleById (moduleStore a2) (nv_moduleId item)) as [module|];
    cbn [fst snd].
  - split; [done|]. split; [by rewrite H2|]. split; [done|]. split; [done|].
    split; [|by unfold totalWords; rewrite H2].
    intros k m Hin. rewrite (H3 k m Hin). unfold totalWords. by rewrite H2.
  - split; [done|]. split; [done|]. split; [done|]. split; [done|]. split; [|done].
    intros k m Hin. by rewrite (H3 k m Hin).
Qed.

Lemma addVocabularyItem_wordCount_witness :
  let m := mkModule "Maison" "La maison" "A1" "maison" 1 false (of_Z 0) 1 in
  let a := mkApp (mkDB [casa] {[ 1%nat := m ]} [] [] 1)
             (mkVocabularyStore [casa] [] None) emptyQuizStore
             (mkModuleStore [(1%nat, m)] None) in
  let item := mkNewVocabulary "gato" "chat" None None false None 0 1 (Some 1%nat) in
  countsInStep (addVocabularyItem 2 item a).1.
Proof.
  intros m a item.
  destruct (addVocabularyItem_wordCount 2 item a) as (_ & _ & _ & _ & H & _).
  - split; simpl.
    + apply NoDup_singleton.
    + intros id m0 Hin. apply list_elem_of_singleton in Hin. by injection Hin as -> ->.
  - intros id m0 Hin. apply list_elem_of_singleton in Hin. by injection Hin as -> ->.
  - exact H.
Defined.

Lemma distinct_spec (l : list nat) :
  forall seen, NoDup seen ->
    NoDup (foldl (fun seen x => if bool_decide (x ∈ seen) then seen else seen ++ [x])
             seen l)
    /\ forall x, x ∈ foldl (fun seen x => if bool_decide (x ∈ seen) then seen
                                          else seen ++ [x]) seen l
                 <-> x ∈ seen \/ x ∈ l.
Proof.
  induction l as [|y l IH]; intros seen Hnd; simpl.
  - split; [done|]. intros x. rewrite elem_of_nil. tauto.
  - destruct (decide (y ∈ seen)) as [Hin|Hnin].
    + rewrite bool_decide_eq_true_2 by done.
      destruct (IH seen Hnd) as [H1 H2]. split; [done|].
      intros x. rewrite H2, elem_of_cons. split; [tauto|].
      intros [?|[->|?]]; tauto.
    + rewrite bool_decide_eq_false_2 by done.
      destruct (IH (seen ++ [y])) as [H1 H2].
      { apply NoDup_app. split; [done|]. split; [|apply NoDup_singleton].
        intros x Hx ->%list_elem_of_singleton. done. }
      split; [done|]. intros x.
      rewrite H2, elem_of_app, list_elem_of_singleton, elem_of_cons. tauto.
Qed.

Lemma count_imported (k : nat) (items : list NewVocabulary) :
  forall ids, length ids = length items ->
    count (inModule k) (zip_with vocWithId ids (asNew <$> items))
    = length (filter (fun item => nv_moduleId item = k) items).
Proof.
  induction items as [|item items IH]; intros [|id ids] Hlen; try done.
  simpl zip_with. rewrite count_cons, filter_cons, IH by (simpl in Hlen; lia).
  unfold inModule at 1. simpl.
  destruct (decide (nv_moduleId item = k)); done.
Qed.

Lemma moduleIds_imported (items : list NewVocabulary) :
  forall ids, length ids = length items ->
    voc_moduleId <$> zip_with vocWithId ids (asNew <$> items) = nv_moduleId <$> items.
Proof.
  induction items as [|item items IH]; intros [|id ids] Hlen; try done.
  simpl. f_equal. apply IH. simpl in Hlen. lia.
Qed.

(** The word-count loop of [bulkImport]. *)
Lemma addWordCount_loop (items : list NewVocabulary) (base : nat -> nat)
    (pending : list nat) :
  forall a, NoDup pending -> mirrorsDB a ->
    (forall k m, (k, m) ∈ ms_modules (moduleStore a) ->
       wordCount m
       = if decide (k ∈ pending) then base k
         else (base k + length (filter (fun item => nv_moduleId item = k) items))%nat) ->
    let a' := foldl (addWordCount items) a pending in
    mirrorsDB a' /\ vocabulary (db a') = vocabulary (db a)
    /\ forall k m, (k, m) ∈ ms_modules (moduleStore a') ->
         wordCount m
         = (base k + length (filter (fun item => nv_moduleId item = k) items))%nat.
Proof.
  induction pending as [|x pending IH]; intros a Hnd Hm Hc; cbv zeta.
  - split; [done|]. split; [done|]. intros k m Hin. rewrite (Hc k m Hin).
    rewrite decide_False; [done|apply not_elem_of_nil].
  - apply NoDup_cons in Hnd as [Hx Hnd]. cbn [foldl].
    set (cnt := fun k => length (filter (fun item => nv_moduleId item = k) items)) in *.
    destruct (addWordCount_step (cnt x) x a
                (fun k => if decide (k ∈ pending) then base k else (base k + cnt k)%nat) Hm)
      as (H1 & H2 & H3).
    { intros k m Hin. rewrite (Hc k m Hin).
      destruct (decide (k = x)) as [->|Hk].
      - rewrite decide_True by by left. rewrite decide_False by done. lia.
      - destruct (decide (k ∈ pending)) as [Hp|Hp].
        + rewrite decide_True; [done|by right].
        + rewrite decide_False; [done|]. by intros [?|?]%elem_of_cons. }
    { intros k m Hin ->. rewrite decide_False by done. lia. }
    fold (addWordCount items a x) in H1, H2, H3.
    destruct (IH (addWordCount items a x) Hnd H1 H3) as (H4 & H5 & H6).
    split; [done|]. split; [by rewrite H5|done].
Qed.

(** [bulkImport] on a module store that mirrors the table and whose word
    counts are in step with the vocabulary: the items are appended to the
    table under consecutive keys from [key], every one of them unlearned
    and with no review counted, whatever the item said; the loaded list is
    reloaded from the table; and the store still mirrors the table with the
    word counts in step, each loaded module having gained the number of
    items imported into it. *)
Theorem bulkImport_wordCount (key : nat) (items : list NewVocabulary) (a : App) :
  mirrorsDB a -> countsInStep a ->
  let a' := (bulkImport key items a).1 in
  let rows := drop (length (vocabulary (db a))) (vocabulary (db a')) in
  vocabulary (db a') = vocabulary (db a) ++ rows
  /\ voc_id <$> rows = seq key (length items)
  /\ Forall (fun v => learned v = false /\ reviewCount v = 0%nat) rows
  /\ voc_moduleId <$> rows = nv_moduleId <$> items
  /\ vocabularyItems (vocabularyStore a') = vocabulary (db a')
  /\ mirrorsDB a' /\ countsInStep a'
  /\ forall id, totalWords id (db a')
                = (totalWords id (db a)
                   + length (filter (fun item => nv_moduleId item = id) items))%nat.
Proof.
  intros Hm Hc. cbv zeta. unfold bulkImport. cbn [fst].
  set (news := zip_with vocWithId (seq key (length items)) (asNew <$> items)).
  set (a1 := set_db (set_vocabulary (vocabulary (db a) ++ news) (db a)) a).
  destruct (distinct_spec (nv_moduleId <$> items) [] (NoDup_nil_2)) as [Hd1 Hd2].
  fold (distinct (nv_moduleId <$> items)) in Hd1, Hd2.
  destruct (addWordCount_loop items (fun k => totalWords k (db a))
              (distinct (nv_moduleId <$> items)) a1 Hd1) as (H1 & H2 & H3); [done| |].
  { intros k m Hin. rewrite (Hc k m Hin).
    destruct (decide (k ∈ distinct (nv_moduleId <$> items))) as [|Hk]; [done|].
    rewrite filter_Forall_nil; [simpl; lia|].
    apply Forall_forall. intros item Hitem Heq. apply Hk, Hd2. right.
    apply list_elem_of_fmap. by exists item. }
  set (a2 := foldl (addWordCount items) a1 (distinct (nv_moduleId <$> items))) in *.
  assert (Hvoc : vocabulary (db (fetchAllVocabulary a2)) = vocabulary (db a) ++ news).
  { unfold fetchAllVocabulary. cbn [db set_vocabularyStore]. by rewrite H2. }
  assert (Hlen : length (seq key (length items)) = length (asNew <$> items))
    by by rewrite length_seq, length_fmap.
  rewrite Hvoc, drop_app_length.
  assert (Htot : forall id, totalWords id (db a2)
            = (totalWords id (db a)
               + length (filter (fun item => nv_moduleId item = id) items))%nat).
  { intros id. unfold totalWords. rewrite H2. subst a1.
    cbn [db set_db vocabulary set_vocabulary]. rewrite count_app. f_equal.
    subst news. apply count_imported. by rewrite length_seq. }
  split; [done|]. split; [|split; [|split; [|split; [|split; [|split]]]]].
  - subst news. apply fmap_zip_with_l; [by intros ? []|]. by rewrite Hlen.
  - apply Forall_forall. intros v Hv. subst news.
    apply list_elem_of_lookup in Hv as [i Hv].
    apply lookup_zip_with_Some in Hv as (id & nq & -> & _ & Hnq).
    rewrite list_lookup_fmap in Hnq. destruct (items !! i); [|done].
    by injection Hnq as <-.
  - subst news. apply moduleIds_imported. by rewrite length_seq.
  - done.
  - done.
  - intros k m Hin. cbn [fetchAllVocabulary moduleStore set_vocabularyStore] in Hin.
    rewrite (H3 k m Hin). symmetry. apply Htot.
  - apply Htot.
Qed.

Lemma bulkImport_wordCount_witness :
  let m := mkModule "Maison" "La maison" "A1" "maison" 1 false (of_Z 0) 1 in
  let a := mkApp (mkDB [casa] {[ 1%nat := m ]} [] [] 1)
             (mkVocabularyStore [casa] [] None) emptyQuizStore
             (mkModuleStore [(1%nat, m)] None) in
  let items := [mkNewVocabulary "gato" "chat" None None true None 4 1 (Some 1%nat);
                mkNewVocabulary "sol" "soleil" None None false None 0 2 None] in
  countsInStep (bulkImport 2 items a).1.
Proof.
  intros m a items.
  destruct (bulkImport_wordCount 2 items a) as (_ & _ & _ & _ & _ & _ & H & _).
  - split; simpl.
    + apply NoDup_singleton.
    + intros id m0 Hin. apply list_elem_of_singleton in Hin. by injection Hin as -> ->.
  - intros id m0 Hin. apply list_elem_of_singleton in Hin. by injection Hin as -> ->.
  - exact H.
Defined.

(** ** Shuffle of the flashcards *)

Lemma insert_cons_perm {A} (l : list A) (j : nat) (a y : A) :
  l !! j = Some y -> y :: <[j := a]> l ≡ₚ a :: l.
Proof.
  revert j. induction l as [|b l IH]; intros [|j] Hj; try done; simpl in *.
  - injection Hj as ->. apply Permutation_swap.
  - etrans; [apply Permutation_swap|].
    etrans; [apply Permutation_skip, (IH j Hj)|]. apply Permutation_swap.
Qed.

Lemma swap_perm {A} (l l' : list A) (i j : nat) :
  Flashcards.swap i j l = Some l' -> l' ≡ₚ l.
Proof.
  unfold Flashcards.swap.
  destruct (l !! i) as [x|] eqn:Hi; [|done].
  destruct (l !! j) as [y|] eqn:Hj; [|done].
  intros [= <-].
  revert i j Hi Hj. induction l as [|a l IH]; intros [|i] [|j] Hi Hj; try done;
    simpl in *.
  - by injection Hi as ->; injection Hj as ->.
  - injection Hi as ->. by apply insert_cons_perm.
  - injection Hj as ->. by apply insert_cons_perm.
  - by rewrite (IH i j).
Qed.

Lemma swap_inside {A} (l : list A) (i j : nat) :
  (i < length l)%nat -> (j < length l)%nat -> is_Some (Flashcards.swap i j l).
Proof.
  intros [x Hx]%lookup_lt_is_Some [y Hy]%lookup_lt_is_Some.
  unfold Flashcards.swap. rewrite Hx, Hy. by eexists.
Qed.

(** The shuffle of the flashcards (Fisher-Yates), every draw of the turn
    of index [i] lying in 0..i: the loop never leaves the list, and its
    outcome holds the same cards as the list, each as often as before, and
    so has its length; a list of at most one card is left as it is. *)
Theorem shuffleVocabulary_perm {A} (random : nat -> nat) (l : list A) :
  (forall i, (random i <= i)%nat) ->
  exists l', Flashcards.shuffleVocabulary random l = Some l'
             /\ l' ≡ₚ l /\ length l' = length l
             /\ ((length l <= 1)%nat -> l' = l).
Proof.
  intros Hrandom.
  assert (H : forall i (k : list A), (i < length k \/ i = 0)%nat ->
            exists k', Flashcards.shuffleFrom random i k = Some k' /\ k' ≡ₚ k).
  { induction i as [|i IH]; intros k Hi; simpl; [by exists k|].
    destruct (swap_inside k (S i) (random (S i))) as [k1 Hk1];
      [lia | specialize (Hrandom (S i)); lia |].
    rewrite Hk1. pose proof (swap_perm _ _ _ _ Hk1) as Hp.
    destruct (IH k1) as (k' & Hk' & Hp'); [rewrite Hp; lia|].
    exists k'. split; [done|]. by rewrite Hp'. }
  unfold Flashcards.shuffleVocabulary.
  destruct (H (length l - 1)%nat l) as (l' & Hl' & Hp); [destruct l; simpl; lia|].
  exists l'. split; [done|]. split; [done|]. split; [by rewrite Hp|].
  intros Hlen. replace (length l - 1)%nat with 0%nat in Hl' by lia.
  simpl in Hl'. by injection Hl'.
Qed.

Lemma shuffleVocabulary_perm_witness :
  exists l', Flashcards.shuffleVocabulary (fun i => i / 2)%nat [casa; carro; livro; agua]
             = Some l'
             /\ l' ≡ₚ [casa; carro; livro; agua] /\ length l' = 4%nat
             /\ ((4 <= 1)%nat -> l' = [casa; carro; livro; agua]).
Proof.
  apply (shuffleVocabulary_perm (fun i => i / 2)%nat [casa; carro; livro; agua]).
  intros i. apply Nat.Div0.div_le_upper_bound. lia.
Defined.

(** ** Word navigation of the lesson page *)

(** From the first word, through any sequence of moves to the next or the
    previous word, the index stays inside a vocabulary that has words, so
    that a word is shown; the index is never moved past the last word nor
    before the first. *)
Theorem wordNavigation_in_range (vocabulary : list Vocabulary) (moves : list bool) :
  let step := fun p (forward : bool) =>
    if forward then LessonDetail.nextWord vocabulary p
    else LessonDetail.previousWord p in
  let p := foldl step (LessonDetail.mkPage 0 false) moves in
  ((0 < length vocabulary)%nat ->
     (LessonDetail.activeWordIndex p < length vocabulary)%nat
     /\ is_Some (LessonDetail.currentWord vocabulary p))
  /\ (vocabulary = [] ->
        LessonDetail.activeWordIndex p = 0%nat
        /\ LessonDetail.currentWord vocabulary p = None)
  /\ (LessonDetail.activeWordIndex p <= length moves)%nat.
Proof.
  cbv zeta.
  set (step := fun p (forward : bool) =>
         if forward then LessonDetail.nextWord vocabulary p
         else LessonDetail.previousWord p).
  assert (H : forall moves p,
            (LessonDetail.activeWordIndex p <= length vocabulary - 1)%nat ->
            (LessonDetail.activeWordIndex (foldl step p moves)
             <= length vocabulary - 1)%nat
            /\ (LessonDetail.activeWordIndex (foldl step p moves)
                <= LessonDetail.activeWordIndex p + length moves)%nat).
  { clear moves. induction moves as [|m moves IH]; intros p Hp; [simpl; lia|].
    cbn [foldl length].
    assert (Hs : (LessonDetail.activeWordIndex (step p m) <= length vocabulary - 1)%nat
                 /\ (LessonDetail.activeWordIndex (step p m)
                     <= S (LessonDetail.activeWordIndex p))%nat).
    { subst step. cbv beta. destruct m.
      - unfold LessonDetail.nextWord, LessonDetail.hasNextWord.
        destruct (Z.ltb_spec (Z.of_nat (LessonDetail.activeWordIndex p))
                    (Z.of_nat (length vocabulary) - 1)); simpl; lia.
      - unfold LessonDetail.previousWord, LessonDetail.hasPreviousWord.
        destruct (Nat.ltb_spec 0 (LessonDetail.activeWordIndex p)); simpl; lia. }
    destruct Hs as [Hs1 Hs2]. destruct (IH (step p m) Hs1) as [H1 H2].
    split; [done|lia]. }
  destruct (H moves (LessonDetail.mkPage 0 false)) as [H1 H2]; [simpl; lia|].
  simpl in H2. split; [|split; [|done]].
  - intros Hlen. split; [lia|]. apply lookup_lt_is_Some. lia.
  - intros ->. simpl in H1. split; [lia|]. apply lookup_nil.
Qed.

(** ** Learning a whole lesson *)

(** A row of the modules table up to its progress and completion. *)
Definition progressOf (row row' : Module_) : Prop :=
  exists p c, row' = setProgress p c row.

Lemma progressOf_refl (row : Module_) : progressOf row row.
Proof. exists (progress row), (completed row). by destruct row. Qed.

Lemma progressOf_setProgress (row row' : Module_) (p : number) (c : bool) :
  progressOf row row' -> progressOf row (setProgress p c row').
Proof. intros (p' & c' & ->). by exists p, c. Qed.

Lemma updateModuleProgress_progressOf (k moduleId : nat) (d : DB) (row row' : Module_) :
  progressOf row row' -> modules d !! k = Some row' ->
  exists row'', modules (updateModuleProgress moduleId d) !! k = Some row''
                /\ progressOf row row''.
Proof.
  intros Hp Hk. unfold updateModuleProgress. cbn [modules set_modules].
  destruct (decide (k = moduleId)) as [->|Hne].
  - rewrite lookup_alter_eq, Hk. eexists. split; [done|].
    by apply progressOf_setProgress.
  - rewrite lookup_alter_ne by done. by exists row'.
Qed.

(** What the store action [markAsLearned] does to the table and what it
    leaves alone, whether it answers [true] or [false]. *)
Lemma markAsLearned_frame (now1 now2 : Date) (id : nat) (st : App * UserStore) :
  let r := markAsLearned now1 now2 id st in
  vocabulary (db r.1.1)
  = updateVocabularyRow id (setLearned now1) (vocabulary (db st.1))
  /\ currentModuleVocabulary (vocabularyStore r.1.1)
     = currentModuleVocabulary (vocabularyStore st.1)
  /\ forall k row row', progressOf row row' -> modules (db st.1) !! k = Some row' ->
       exists row'', modules (db r.1.1) !! k = Some row'' /\ progressOf row row''.
Proof.
  cbv zeta. unfold markAsLearned. cbn [vocabularyStore set_db].
  destruct (getWordById (vocabularyStore st.1) id) as [item|]; cbn [fst snd].
  - split; [done|]. split; [done|]. intros k row row' Hp Hk.
    unfold updateProgress, fetchModules. cbn [db set_db set_moduleStore set_vocabularyStore].
    by apply updateModuleProgress_progressOf with row'.
  - split; [done|]. split; [done|]. intros k row row' Hp Hk. by exists row'.
Qed.

Section LessonWalk.

Context (m : nat) (a0 : App) (row : Module_).

Let pool0 := pool m a0.
Let n := length pool0.

Hypothesis keys_positive : Forall (fun v => voc_id v <> 0%nat) pool0.
Hypothesis small : Z.of_nat n < 2 ^ 53.

(** The rows after [k] words of the lesson have been marked. *)
Definition marked (k : nat) (v v' : Vocabulary) : Prop :=
  voc_id v' = voc_id v /\ voc_moduleId v' = voc_moduleId v
  /\ (learned v = true \/ voc_id v ∈ voc_id <$> take k pool0 -> learned v' = true).

Definition lessonInv (k : nat) (st : LessonDetail.Page * (App * UserStore)) : Prop :=
  LessonDetail.activeWordIndex st.1 = (k `min` (n - 1))%nat
  /\ currentModuleVocabulary (vocabularyStore st.2.1) = pool0
  /\ Forall2 (marked k) (vocabulary (db a0)) (vocabulary (db st.2.1))
  /\ (exists row', modules (db st.2.1) !! m = Some row' /\ progressOf row row')
  /\ (k = n ->
      modules (db st.2.1) !! m = Some (setProgress (of_Z 0) false row)
      /\ getModuleById (moduleStore st.2.1) m
         = Some (m, setProgress (of_Z 0) false row)).

Lemma marked_step (k : nat) (w : Vocabulary) (now : Date) (l l' : list Vocabulary) :
  pool0 !! k = Some w ->
  Forall2 (marked k) l l' ->
  Forall2 (marked (S k)) l (updateVocabularyRow (voc_id w) (setLearned now) l').
Proof.
  intros Hw. induction 1 as [|v v' l l' (H1 & H2 & H3) _ IH]; [constructor|].
  simpl. constructor; [|exact IH].
  destruct (Nat.eqb_spec (voc_id v') (voc_id w)) as [He|Hne].
  - by repeat split.
  - split; [done|]. split; [done|]. intros [Hl|Hin]; [by apply H3; left|].
    rewrite (take_S_r _ _ _ Hw), fmap_app in Hin.
    apply elem_of_app in Hin as [Hin|Hin]; [by apply H3; right|].
    apply list_elem_of_singleton in Hin. congruence.
Qed.

Lemma marked_counts (k : nat) (l l' : list Vocabulary) :
  Forall2 (marked k) l l' ->
  count (inModule m) l' = count (inModule m) l.
Proof.
  induction 1 as [|v v' l l' (H1 & H2 & H3) _ IH]; [done|].
  rewrite !count_cons, IH.
  destruct (decide (inModule m v')) as [Hv'|Hv'], (decide (inModule m v)) as [Hv|Hv];
    try done; unfold inModule in *; congruence.
Qed.

Lemma learnCurrentWord_step (k : nat) (st : LessonDetail.Page * (App * UserStore))
    (clock : Date * Date) :
  lessonInv k st -> (k < n)%nat ->
  lessonInv (S k) (LessonDetail.learnCurrentWord m st clock).
Proof.
  intros (I1 & I2 & I3 & (row' & I4 & I4') & _) Hk.
  destruct st as [p [a us]]. cbn [fst snd] in *.
  unfold LessonDetail.learnCurrentWord. cbn [fst snd]. rewrite I2.
  unfold LessonDetail.currentWord. rewrite I1.
  replace (k `min` (n - 1))%nat with k by lia.
  destruct (pool0 !! k) as [w|] eqn:Hw;
    [|apply lookup_ge_None in Hw; fold n in Hw; lia].
  unfold LessonDetail.markAsLearned.
  assert (Hw0 : Nat.eqb (voc_id w) 0 = false).
  { apply Nat.eqb_neq. rewrite Forall_forall in keys_positive.
    apply keys_positive. by eapply list_elem_of_lookup_2. }
  rewrite Hw0. cbn [fst snd].
  destruct (markAsLearned_frame clock.1 clock.2 (voc_id w) (a, us)) as (Hv & Hc & Hmod).
  cbn [fst] in Hv, Hc, Hmod.
  set (r := markAsLearned clock.1 clock.2 (voc_id w) (a, us)) in *.
  rewrite Hc, I2.
  destruct (Hmod m row row' I4' I4) as (row1 & Hrow1 & Hp1).
  assert (Hmarked : Forall2 (marked (S k)) (vocabulary (db a0)) (vocabulary (db r.1.1))).
  { rewrite Hv. by apply marked_step. }
  unfold LessonDetail.hasNextWord, LessonDetail.nextWord, LessonDetail.hasNextWord.
  rewrite I1. replace (k `min` (n - 1))%nat with k by lia. fold n.
  destruct (Z.ltb_spec (Z.of_nat k) (Z.of_nat n - 1)) as [Hnext|Hlast];
    unfold lessonInv; cbn [fst snd].
  - split; [cbn [fst LessonDetail.activeWordIndex]; lia|].
    split; [by rewrite Hc|]. split; [done|].
    split; [by exists row1|]. intros ?. lia.
  - assert (S k = n) as Hn by lia.
    assert (Hdone : modules (db (updateProgress m r.1.1)) !! m
                    = Some (setProgress (of_Z 0) false row)).
    { unfold updateProgress, fetchModules. cbn [db set_db set_moduleStore].
      rewrite updateModuleProgress_zero.
      - cbn [modules set_modules]. rewrite lookup_alter_eq, Hrow1.
        destruct Hp1 as (p1 & c1 & ->). done.
      - unfold totalWords. rewrite (marked_counts _ _ _ Hmarked).
        change (count (inModule m) (vocabulary (db a0))) with n. done. }
    split; [rewrite I1; lia|]. split.
    { unfold updateProgress, fetchModules. cbn [vocabularyStore set_moduleStore set_db].
      by rewrite Hc. }
    split.
    { unfold updateProgress, fetchModules, updateModuleProgress.
      cbn [db set_db set_moduleStore vocabulary set_modules]. done. }
    split; [eexists; split; [exact Hdone|by eexists _, _]|].
    intros _. split; [done|].
    unfold updateProgress at 1. unfold fetchModules at 1.
    cbn [moduleStore set_moduleStore]. by apply getModuleById_toArray.
Qed.

Lemma learnCurrentWord_walk (clocks : list (Date * Date)) :
  forall k st, lessonInv k st -> (k + length clocks <= n)%nat ->
    lessonInv (k + length clocks) (foldl (LessonDetail.learnCurrentWord m) st clocks).
Proof.
  induction clocks as [|clock clocks IH]; intros k st Hinv Hlen; cbn [foldl length] in *.
  - by rewrite Nat.add_0_r.
  - replace (k + S (length clocks))%nat with (S k + length clocks)%nat by lia.
    apply IH; [|lia]. apply learnCurrentWord_step; [done|lia].
Qed.

End LessonWalk.

(** A lesson gone through on its page, from the first word, by marking
    the word shown as learned once for each word of the module (the
    vocabulary of the module being loaded on the page, fewer than 2^53
    words with non-zero keys, and the table having the row of the module):
    the page ends on the last word and every word of the module is learned
    in the table, yet the module does not end completed: the last
    recomputation leaves it with a progress of 0 and [completed] false, in
    the table and in the reloaded module store. *)
Theorem lesson_not_completed (m : nat) (a : App) (us : UserStore) (row : Module_)
    (clocks : list (Date * Date)) :
  Forall (fun v => voc_id v <> 0%nat) (pool m a) ->
  modules (db a) !! m = Some row ->
  currentModuleVocabulary (vocabularyStore a) = pool m a ->
  (0 < length (pool m a))%nat -> Z.of_nat (length (pool m a)) < 2 ^ 53 ->
  length clocks = length (pool m a) ->
  let final := foldl (LessonDetail.learnCurrentWord m)
                 (LessonDetail.mkPage 0 false, (a, us)) clocks in
  LessonDetail.activeWordIndex final.1 = (length (pool m a) - 1)%nat
  /\ Forall (fun v => voc_moduleId v = m -> learned v = true)
       (vocabulary (db final.2.1))
  /\ modules (db final.2.1) !! m = Some (setProgress (of_Z 0) false row)
  /\ getModuleById (moduleStore final.2.1) m
     = Some (m, setProgress (of_Z 0) false row).
Proof.
  intros Hpos Hrow Hloaded Hn Hsmall Hclocks final.
  assert (H0 : lessonInv m a row 0 (LessonDetail.mkPage 0 false, (a, us))).
  { split; [cbn; lia|]. split; [done|]. split; [|split].
    - cbn [fst snd]. apply Forall2_same_length_lookup_2; [done|].
      intros i v v' Hv Hv'. simplify_eq. repeat split. intros [?|Hin]; [done|].
      by apply elem_of_nil in Hin.
    - exists row. split; [done|apply progressOf_refl].
    - intros H. lia. }
  pose proof (learnCurrentWord_walk m a row Hpos Hsmall clocks 0 _ H0
                ltac:(simpl; lia)) as Hfin.
  fold final in Hfin. simpl in Hfin. rewrite Hclocks in Hfin.
  destruct Hfin as (I1 & I2 & I3 & _ & I5).
  destruct (I5 eq_refl) as [H1 H2].
  split; [rewrite I1; lia|]. split; [|done].
  apply Forall_forall. intros v' Hv' Hm.
  apply list_elem_of_lookup in Hv' as [i Hi].
  destruct (Forall2_lookup_r _ _ _ _ _ I3 Hi) as (v & Hv & E1 & E2 & E3).
  apply E3. right. rewrite take_ge by done.
  apply list_elem_of_fmap. exists v. split; [done|].
  apply list_elem_of_filter. split; [unfold inModule; congruence|].
  by eapply list_elem_of_lookup_2.
Qed.

Lemma lesson_not_completed_witness :
  let module := mkModule "Maison" "La maison" "A1" "maison" 1 false (of_Z 0) 3 in
  let a := fetchVocabularyByModule 1
             (mkApp progressExampleDB (mkVocabularyStore [] [] None) emptyQuizStore
                (mkModuleStore [] None)) in
  let final := foldl (LessonDetail.learnCurrentWord 1)
                 (LessonDetail.mkPage 0 false, (a, mkUserStore None None false))
                 [(10, 11); (20, 21); (30, 31)] in
  Forall (fun v => voc_moduleId v = 1%nat -> learned v = true)
    (vocabulary (db final.2.1))
  /\ modules (db final.2.1) !! 1%nat = Some (setProgress (of_Z 0) false module).
Proof.
  intros module a final.
  destruct (lesson_not_completed 1 a (mkUserStore None None false) module
              [(10, 11); (20, 21); (30, 31)]) as (_ & H2 & H3 & _).
  - repeat constructor; discriminate.
  - reflexivity.
  - reflexivity.
  - vm_compute. lia.
  - vm_compute. reflexivity.
  - reflexivity.
  - split; [exact H2|exact H3].
Defined.

(** ** Overall progress shown by the user store *)

Section ProgressCap.

Local Open Scope R_scope.

(** More than a thousand words learned: the rounded percentage is at
    least 100. *)
Lemma percentage_above (l : nat) :
  (1000 < l)%nat -> (Z.of_nat l < 2 ^ 44)%Z ->
  exists r : Z,
    Math_round (mul (div (of_Z (Z.of_nat l)) (of_Z 1000)) (of_Z 100)) = of_Z r
    /\ (100 <= r < 2 ^ 53)%Z.
Proof.
  intros Hl Hbound.
  change (2 ^ 44)%Z with 17592186044416%Z in Hbound.
  destruct (of_Z_spec (Z.of_nat l)) as (ml & el & -> & Hdl & Hel & Hvl); [lia|].
  destruct (of_Z_spec 1000) as (mt & et & -> & Hdt & Het & Hvt); [done|].
  destruct (of_Z_spec 100) as (mc & ec & -> & Hdc & Hec & Hvc); [done|].
  destruct (div_spec ml el mt et) as (mq & eq & -> & Hdq & Heq & Hq);
    [done|done|lia|lia|].
  destruct (mul_spec mq eq mc ec) as (mp & ep & -> & Hdp & Hp);
    [done|done|lia|lia|].
  rewrite Hvl, Hvt in Hq. rewrite Hvc in Hp. rewrite bpow_m53 in Hq, Hp.
  set (L := IZR (Z.of_nat l)) in *.
  set (Q := F2R mq eq) in *. set (P := F2R mp ep) in *.
  assert (1001 <= L) as HL by (apply IZR_le; lia).
  assert (L <= 17592186044415) as HL' by (apply IZR_le; lia).
  assert (HQ : 1001 / 1000 * (1 - / 9007199254740992) <= Q
               <= 17592186044415 / 1000 * (1 + / 9007199254740992)) by lra.
  assert (HP : 100 < P < 4503599627370496) by lra.
  assert (Hep : (ep < 0)%Z).
  { destruct (Z.lt_ge_cases ep 0) as [|Hge]; [done|]. exfalso.
    apply bpow_le in Hge. rewrite bpow_0 in Hge.
    pose proof (digits_bounds mp) as [Hlo _]. rewrite Hdp in Hlo.
    apply IZR_le in Hlo. change (2 ^ (53 - 1))%Z with 4503599627370496%Z in Hlo.
    assert (4503599627370496 <= P) by (unfold P, F2R; nra).
    lra. }
  destruct (Math_round_spec mp ep Hep) as (r & -> & Hr). fold P in Hr.
  exists r. split; [done|].
  change (2 ^ 53)%Z with 9007199254740992%Z.
  assert (IZR 99 < IZR r /\ IZR r < IZR 9007199254740992) as [H1 H2] by (split; lra).
  apply lt_IZR in H1, H2. lia.
Qed.

End ProgressCap.

(** [Math.min] of two positive finite doubles: the first one when its
    exponent is smaller, or equal with a smaller significand. *)
Lemma Math_min_finite (m q : positive) (e f : Z) :
  Math_min (S754_finite false m e) (S754_finite false q f)
  = if decide (e < f \/ (e = f /\ Z.pos m < Z.pos q))
    then S754_finite false m e else S754_finite false q f.
Proof.
  unfold Math_min, SFcompare.
  destruct (Z.compare_spec e f) as [->|Hlt|Hgt].
  - change (PosDef.Pos.compare_cont Eq m q) with (Pos.compare m q).
    destruct (Pos.compare_spec m q) as [->|Hm|Hm]; case_decide; try done; lia.
  - case_decide; [done|lia].
  - case_decide; [lia|done].
Qed.

(** A double that stands for an integer. *)
Lemma F2R_integer (m : positive) (e r : Z) :
  (e <= 0)%Z -> F2R m e = IZR r -> Z.pos m = (r * 2 ^ (- e))%Z.
Proof.
  intros He Hv. apply eq_IZR. rewrite mult_IZR, <- bpow_IZR by lia.
  rewrite <- Hv. unfold F2R. rewrite Rmult_assoc, <- bpow_add.
  replace (e + - e)%Z with 0%Z by lia. rewrite bpow_0. lra.
Qed.

Lemma of_Z_100 : of_Z 100 = S754_finite false 7036874417766400 (-46).
Proof. vm_compute. reflexivity. Qed.

Lemma Math_min_cap (r : Z) :
  100 <= r < 2 ^ 53 -> Math_min (of_Z r) (of_Z 100) = of_Z 100.
Proof.
  intros Hr.
  destruct (of_Z_spec r) as (m & e & -> & Hd & He & Hv); [lia|].
  apply F2R_integer in Hv; [|lia].
  pose proof (digits_bounds m) as [Hlo Hhi]. rewrite Hd in Hlo, Hhi.
  change (2 ^ (53 - 1))%Z with 4503599627370496%Z in Hlo.
  rewrite of_Z_100, Math_min_finite. case_decide as Hc; [exfalso|done].
  destruct Hc as [Hlt|[-> Hc]].
  - assert (2 ^ 47 <= 2 ^ (- e))%Z by (apply Z.pow_le_mono_r; lia).
    change (2 ^ 47)%Z with 140737488355328%Z in *.
    assert (100 * 2 ^ (- e) <= r * 2 ^ (- e))%Z
      by (apply Z.mul_le_mono_nonneg_r; lia).
    lia.
  - change (2 ^ (- -46))%Z with 70368744177664%Z in Hv. lia.
Qed.

Lemma Math_min_small (p : Z) :
  0 <= p <= 100 -> Math_min (of_Z p) (of_Z 100) = of_Z p.
Proof.
  intros Hp.
  destruct (Z.eq_dec p 0) as [->|Hn]; [by vm_compute|].
  destruct (of_Z_spec p) as (m & e & -> & Hd & He & Hv);
    [change (2 ^ 53)%Z with 9007199254740992%Z; lia|].
  apply F2R_integer in Hv; [|lia].
  pose proof (digits_bounds m) as [Hlo Hhi]. rewrite Hd in Hlo, Hhi.
  change (2 ^ (53 - 1))%Z with 4503599627370496%Z in Hlo.
  rewrite of_Z_100, Math_min_finite. case_decide as Hc; [done|].
  destruct (Z.compare_spec e (-46)) as [->|Hlt|Hgt].
  - change (2 ^ (- -46))%Z with 70368744177664%Z in Hv.
    destruct (Z.eq_dec p 100) as [->|Hne].
    { f_equal. symmetry. apply Pos2Z.inj. rewrite Hv. reflexivity. }
    exfalso. apply Hc. right. split; [done|]. lia.
  - exfalso. apply Hc. by left.
  - exfalso.
    assert (2 ^ (- e) <= 2 ^ 45)%Z by (apply Z.pow_le_mono_r; lia).
    change (2 ^ 45)%Z with 35184372088832%Z in *.
    assert (p * 2 ^ (- e) <= 100 * 2 ^ (- e))%Z
      by (apply Z.mul_le_mono_nonneg_r; [apply Z.pow_nonneg|]; lia).
    lia.
Qed.

(** [getProgressPercentage]: 0 before the progress record is loaded;
    otherwise an integer of 0..100: the percentage of a target of 1000
    words (the exact percentage rounded half up, an exact half possibly
    rounded down) up to 1000 words learned, and 100 from 1000 words on,
    however many more are learned. *)
Theorem getProgressPercentage_spec (us : UserStore) :
  (us_progress us = None -> getProgressPercentage us = of_Z 0)
  /\ forall p, us_progress us = Some p ->
       Z.of_nat (totalLearned p) < 2 ^ 44 ->
       exists q : Z,
         getProgressPercentage us = of_Z q /\ 0 <= q <= 100
         /\ ((1000 <= totalLearned p)%nat -> q = 100)
         /\ ((totalLearned p <= 1000)%nat ->
             q = round_half_up (100 * Z.of_nat (totalLearned p)) 1000
             \/ ((200 * Z.of_nat (totalLearned p) + 1000) mod 2000 = 0
                 /\ q = round_half_up (100 * Z.of_nat (totalLearned p)) 1000 - 1)).
Proof.
  unfold getProgressPercentage. split; [by intros ->|].
  intros p -> Hb. set (l := totalLearned p) in *.
  destruct (decide (l <= 1000)%nat) as [Hle|Hgt].
  - destruct (percentage_range l 1000 Hle ltac:(done)) as (q & Hq & Hrange & _ & Hcases).
    change (percentage l 1000)
      with (Math_round (mul (div (of_Z (Z.of_nat l)) (of_Z 1000)) (of_Z 100))) in Hq.
    rewrite Hq, Math_min_small by done.
    exists q. split; [done|]. split; [done|]. split.
    + intros Hge. assert (l = 1000%nat) as Hl by lia.
      assert (Hfull : percentage l 1000 = of_Z 100)
        by (rewrite Hl; apply percentage_all; [lia|done]).
      change (percentage l 1000)
        with (Math_round (mul (div (of_Z (Z.of_nat l)) (of_Z 1000)) (of_Z 100)))
        in Hfull.
      rewrite Hq in Hfull.
      pose proof (eqb_of_Z_100 q Hrange) as He. rewrite Hfull in He.
      apply Z.eqb_eq. rewrite <- He. by vm_compute.
    + intros _. apply Hcases. lia.
  - destruct (percentage_above l ltac:(lia) Hb) as (r & -> & Hr).
    rewrite Math_min_cap by done.
    exists 100. split; [done|]. split; [lia|]. split; [done|]. intros ?. lia.
Qed.

(** ** Completion handler of the quiz page *)

Lemma viewCompleteQuiz_recomputes_witness :
  let m := mkModule "Maison" "La maison" "A1" "maison" 1 false (of_Z 0) 4 in
  let words := [word 1 1 "casa" "maison" true None; word 2 1 "carro" "voiture" true None;
                word 3 1 "livro" "livre" true None; word 4 1 "agua" "eau" true None] in
  let a := mkApp (mkDB words {[ 1%nat := m ]} [] [] 1)
             (mkVocabularyStore [] [] None) emptyQuizStore
             (mkModuleStore [(1%nat, m)] None) in
  let s := mkSession (Some (mkViewQuiz 1 (Some []))) 0 None false false
             (mkResults 100 10 10 0 false) in
  modules (db (viewCompleteQuiz 1 s a).1.2) !! 1%nat
  = setProgress (of_Z 0) false <$> modules (db a) !! 1%nat.
Proof.
  intros m words a s.
  apply (viewCompleteQuiz_recomputes 1 s a (mkViewQuiz 1 (Some []))).
  - reflexivity.
  - vm_compute. reflexivity.
Defined.

(** ** Getters of the vocabulary store *)

Lemma difficultyCompare_trans (a b c : Vocabulary) :
  before difficultyCompare a b -> before difficultyCompare b c ->
  before difficultyCompare a c.
Proof. unfold before, difficultyCompare. lia. Qed.

Lemma difficultyCompare_total (a b : Vocabulary) :
  0 < difficultyCompare a b -> before difficultyCompare b a.
Proof. unfold before, difficultyCompare. lia. Qed.

(** [getDifficultWords] answers with the loaded words of a difficulty above
    2, each as often as it is loaded and no other word, the hardest first:
    the difficulty never grows along the list.  Words without a difficulty
    are never listed. *)
Theorem getDifficultWords_spec (vs : VocabularyStore) :
  let out := getDifficultWords vs in
  out ≡ₚ filter difficult (vocabularyItems vs)
  /\ Forall (fun v => v ∈ vocabularyItems vs
                      /\ exists n, difficulty v = Some n /\ (2 < n)%nat) out
  /\ (forall i j v w, (i < j)%nat -> out !! i = Some v -> out !! j = Some w ->
        exists n k, difficulty v = Some n /\ difficulty w = Some k /\ (k <= n)%nat)
  /\ (forall v, v ∈ vocabularyItems vs -> difficulty v = None -> v ∉ out).
Proof.
  intros out. subst out. unfold getDifficultWords.
  set (hard := filter difficult (vocabularyItems vs)).
  set (sorted := Array_sort difficultyCompare hard).
  assert (Hperm : sorted ≡ₚ hard) by apply Array_sort_perm.
  assert (Hsorted : StronglySorted (before difficultyCompare) sorted)
    by (apply Array_sort_sorted;
        [apply difficultyCompare_trans | apply difficultyCompare_total]).
  assert (Hin : forall v, v ∈ sorted ->
            v ∈ vocabularyItems vs /\ exists n, difficulty v = Some n /\ (2 < n)%nat).
  { intros v Hv. rewrite Hperm in Hv. apply list_elem_of_filter in Hv as [Hd Hv].
    split; [done|]. unfold difficult in Hd.
    destruct (difficulty v) as [n|]; [by exists n | done]. }
  split; [done|]. split; [by apply Forall_forall|]. split.
  - intros i j v w Hij Hi Hj.
    destruct (Hin v) as (_ & n & Hn & _); [by eapply list_elem_of_lookup_2|].
    destruct (Hin w) as (_ & k & Hk & _); [by eapply list_elem_of_lookup_2|].
    exists n, k. split; [done|]. split; [done|].
    pose proof (StronglySorted_lookup (before difficultyCompare) sorted i j v w
                  Hsorted Hij Hi Hj) as Hb.
    unfold before, difficultyCompare in Hb. rewrite Hn, Hk in Hb. cbn in Hb. lia.
  - intros v _ Hnone Hv. destruct (Hin v Hv) as (_ & n & Hn & _). congruence.
Qed.
